(** * Invoice field extraction: a shallow embedding of the extraction engine

    The Python sources embedded here are
      - [textract_modules/config.py]  (keyword tables),
      - [textract_modules/utils.py]   (amount parser, resolvers, header matcher),
      - [textract_modules/textract_client.py] (line items, [parse_extracted_data]),
      - [invoice_processor.py]        (the single-file pipeline, which repeats the
        resolvers with its own amount parser),
      - [textract_modules/s3_sync.py] (the decisions of [sync_folder]);
    of [textract_client.py] also the table, form and query extractors, and of
    [invoice_processor.py] the dictionary [save_results] writes.

    Conventions of the embedding.
      - A Python [str] is a list of Unicode code points ([Py.str]); literals are
        written [text "..."] and decoded from UTF-8.
      - Character classes and case mapping are exact on U+0000..U+007F and on
        Python's white-space set; other code points are caseless and belong to
        neither [\d] nor [\w] (true of the five currency symbols).  Python's
        [\d], [\w], [str.lower] and case-insensitive matching also know digits
        and letters outside ASCII, so on a text with such characters the
        program can find a number or a keyword where the embedding finds
        none; the theorems on the amount parsers that conclude that no number
        is found assume [ascii_text].
      - A Python [float] obtained from decimal text is the exact rational the
        text denotes ([Fin q], [q] reduced); Python rounds it to the nearest
        binary64.  The two differ where the rounding shows: a literal beyond
        the range of binary64 is [inf] or [0.0] in Python and finite or
        positive here, and the two-decimal format rounds the exact decimal
        here and the binary64 in Python (2.675 prints as 2.67 there), without
        a negative zero.
      - A [dict] is an association list in insertion order with in-place update.
      - Code that can raise returns in [Exc.res]. *)

From Stdlib Require Import String Ascii ZArith NArith QArith Qround Bool Lia Arith List.
Import ListNotations.

Local Open Scope N_scope.

(* ------------------------------------------------------------------------- *)
(** ** Python strings *)

Module Py.

Definition char := N.
Definition str := list char.

(** UTF-8 decoding of a literal (1 to 4 byte sequences). *)
Definition cont (b : N) : N := N.land b 63.

Fixpoint utf8_decode (bs : list N) : str :=
  match bs with
  | [] => []
  | b :: r =>
      if b <? 128 then b :: utf8_decode r
      else if b <? 224 then
        match r with
        | c1 :: r1 => (N.shiftl (N.land b 31) 6 + cont c1) :: utf8_decode r1
        | [] => [b]
        end
      else if b <? 240 then
        match r with
        | c1 :: c2 :: r2 =>
            (N.shiftl (N.land b 15) 12 + N.shiftl (cont c1) 6 + cont c2) :: utf8_decode r2
        | _ => [b]
        end
      else
        match r with
        | c1 :: c2 :: c3 :: r3 =>
            (N.shiftl (N.land b 7) 18 + N.shiftl (cont c1) 12
             + N.shiftl (cont c2) 6 + cont c3) :: utf8_decode r3
        | _ => [b]
        end
  end.

Definition text (s : string) : str :=
  utf8_decode (map N_of_ascii (list_ascii_of_string s)).

Definition ch (s : string) : char := hd 0 (text s).

(** [==] on strings. *)
Fixpoint eqb (a b : str) : bool :=
  match a, b with
  | [], [] => true
  | x :: a', y :: b' => (x =? y) && eqb a' b'
  | _, _ => false
  end.

(** [str.isspace] / regex [\s]: Python's Unicode white-space set. *)
Definition isspace (c : char) : bool :=
  ((9 <=? c) && (c <=? 13)) || ((28 <=? c) && (c <=? 32))
  || (c =? 133) || (c =? 160) || (c =? 5760)
  || ((8192 <=? c) && (c <=? 8202))
  || (c =? 8232) || (c =? 8233) || (c =? 8239) || (c =? 8287) || (c =? 12288).

(** [0-9]; also the embedding's [\d]. *)
Definition isdigit (c : char) : bool := (48 <=? c) && (c <=? 57).

Definition isupper (c : char) : bool := (65 <=? c) && (c <=? 90).
Definition islower (c : char) : bool := (97 <=? c) && (c <=? 122).

(** regex [\w]. *)
Definition isword (c : char) : bool :=
  isdigit c || isupper c || islower c || (c =? 95).

Definition lower_char (c : char) : char := if isupper c then c + 32 else c.

(** [s.lower()] *)
Definition lower (s : str) : str := map lower_char s.

Fixpoint lstrip (s : str) : str :=
  match s with
  | c :: r => if isspace c then lstrip r else s
  | [] => []
  end.

Definition rstrip (s : str) : str := rev (lstrip (rev s)).

(** [s.strip()] *)
Definition strip (s : str) : str := rstrip (lstrip s).

(** [s.startswith(p)] *)
Fixpoint startswith (p s : str) : bool :=
  match p, s with
  | [], _ => true
  | x :: p', y :: s' => (x =? y) && startswith p' s'
  | _ :: _, [] => false
  end.

(** [sub in s] *)
Fixpoint contains (sub s : str) : bool :=
  startswith sub s ||
  match s with
  | [] => false
  | _ :: r => contains sub r
  end.

(** [s.replace(old, new)]: left to right, non-overlapping.  [skip] counts the
    characters of a matched [old] still to be dropped. *)
Fixpoint replace_from (old new : str) (skip : nat) (s : str) : str :=
  match s with
  | [] => []
  | c :: r =>
      match skip with
      | S k => replace_from old new k r
      | O =>
          if startswith old s
          then new ++ replace_from old new (length old - 1) r
          else c :: replace_from old new 0 r
      end
  end.

Definition replace (old new s : str) : str :=
  match old with
  | [] => new ++ flat_map (fun c => c :: new) s
  | _ => replace_from old new 0 s
  end.

(** [s.count(sub)] for a non-empty [sub]: non-overlapping occurrences. *)
Fixpoint count_from (sub : str) (skip : nat) (s : str) : nat :=
  match s with
  | [] => 0%nat
  | _ :: r =>
      match skip with
      | S k => count_from sub k r
      | O =>
          if startswith sub s
          then S (count_from sub (length sub - 1) r)
          else count_from sub 0 r
      end
  end.

Definition count (sub s : str) : nat := count_from sub 0 s.

(** [s.split(sep)] for a non-empty [sep]; [cur] is the current piece, reversed. *)
Fixpoint split_from (sep : str) (skip : nat) (cur : str) (s : str) : list str :=
  match s with
  | [] => [rev cur]
  | c :: r =>
      match skip with
      | S k => split_from sep k cur r
      | O =>
          if startswith sep s
          then rev cur :: split_from sep (length sep - 1) [] r
          else split_from sep 0 (c :: cur) r
      end
  end.

Definition split (sep s : str) : list str := split_from sep 0 [] s.

(** [s.split()]: pieces between runs of white space, none empty. *)
Fixpoint split_ws_from (cur : str) (s : str) : list str :=
  match s with
  | [] => match cur with [] => [] | _ => [rev cur] end
  | c :: r =>
      if isspace c
      then match cur with
           | [] => split_ws_from [] r
           | _ => rev cur :: split_ws_from [] r
           end
      else split_ws_from (c :: cur) r
  end.

Definition split_ws (s : str) : list str := split_ws_from [] s.

(** [sep.join(parts)] *)
Fixpoint join (sep : str) (parts : list str) : str :=
  match parts with
  | [] => []
  | [p] => p
  | p :: ps => p ++ sep ++ join sep ps
  end.

(** [any(t in s for t in terms)] *)
Definition any_in (terms : list str) (s : str) : bool :=
  existsb (fun t => contains t s) terms.

End Py.

Import Py.

(* ------------------------------------------------------------------------- *)
(** ** Regular expressions ([re.search], [re.finditer])

    A backtracking matcher with Python's priorities: quantifiers are greedy,
    the left alternative is tried first, [search] takes the leftmost start.
    The patterns of the program have at most one capturing group. *)

Module Re.

Inductive re : Type :=
| Eps : re                       (* empty pattern *)
| Set_ : (char -> bool) -> re    (* one character of a class *)
| Cat : re -> re -> re
| Alt : re -> re -> re
| Star : re -> re                (* greedy [*] *)
| Group : re -> re               (* capturing group 1 *)
| Bnd : re.                      (* [\b] *)

Definition Plus (r : re) : re := Cat r (Star r).
Definition Opt (r : re) : re := Alt r Eps.

(** A literal character; [ic] is [re.IGNORECASE]. *)
Definition Chr (ic : bool) (c : char) : re :=
  Set_ (fun x => if ic then lower_char x =? lower_char c else x =? c).

(** A literal string ([re.escape]d text matches itself). *)
Fixpoint Lit (ic : bool) (s : str) : re :=
  match s with
  | [] => Eps
  | c :: r => Cat (Chr ic c) (Lit ic r)
  end.

Definition wordb (o : option char) : bool :=
  match o with Some c => isword c | None => false end.

(** Matcher state: the character before the position, the remaining input and
    the text captured by group 1. *)
Definition cont := option char -> str -> option str -> option (str * option str).

Fixpoint run (r : re) (prev : option char) (s : str) (cap : option str) (k : cont)
  {struct r} : option (str * option str) :=
  match r with
  | Eps => k prev s cap
  | Set_ p =>
      match s with
      | c :: s' => if p c then k (Some c) s' cap else None
      | [] => None
      end
  | Cat r1 r2 => run r1 prev s cap (fun p1 s1 c1 => run r2 p1 s1 c1 k)
  | Alt r1 r2 =>
      match run r1 prev s cap k with
      | Some a => Some a
      | None => run r2 prev s cap k
      end
  | Star r1 =>
      (fix loop (n : nat) (prev : option char) (s : str) (cap : option str)
         : option (str * option str) :=
         match n with
         | O => k prev s cap
         | S n' =>
             match run r1 prev s cap
                     (fun p1 s1 c1 =>
                        if (length s1 <? length s)%nat then loop n' p1 s1 c1 else None)
             with
             | Some a => Some a
             | None => k prev s cap
             end
         end) (length s) prev s cap
  | Group r1 =>
      run r1 prev s cap
          (fun p1 s1 _ => k p1 s1 (Some (firstn (length s - length s1) s)))
  | Bnd =>
      if xorb (wordb prev) (wordb (hd_error s)) then k prev s cap else None
  end.

(** A match: the whole matched text, group 1, and the input after the match. *)
Record mtch := { m_all : str; m_group1 : str; m_prev : option char; m_rest : str }.

Definition match_at (r : re) (prev : option char) (s : str) : option mtch :=
  match run r prev s None (fun _ s1 c1 => Some (s1, c1)) with
  | Some (s1, c1) =>
      let whole := firstn (length s - length s1) s in
      Some {| m_all := whole;
              m_group1 := match c1 with Some g => g | None => [] end;
              m_prev := last (map Some whole) prev;
              m_rest := s1 |}
  | None => None
  end.

(** [re.search(r, s)] resumed at a position whose previous character is [prev]. *)
Fixpoint search_from (r : re) (prev : option char) (s : str) : option mtch :=
  match match_at r prev s with
  | Some m => Some m
  | None =>
      match s with
      | [] => None
      | c :: s' => search_from r (Some c) s'
      end
  end.

Definition search (r : re) (s : str) : option mtch := search_from r None s.

(** [re.finditer(r, s)] for patterns that match no empty text. *)
Fixpoint finditer_from (fuel : nat) (r : re) (prev : option char) (s : str) : list mtch :=
  match fuel with
  | O => []
  | S f =>
      match search_from r prev s with
      | Some m =>
          if (length (m_rest m) <? length s)%nat
          then m :: finditer_from f r (m_prev m) (m_rest m)
          else [m]
      | None => []
      end
  end.

Definition finditer (r : re) (s : str) : list mtch := finditer_from (S (length s)) r None s.

(** Classes used by the program's patterns. *)
Definition d : re := Set_ isdigit.                      (* \d *)
Definition ws : re := Set_ isspace.                     (* \s *)
Definition one_of (ic : bool) (cs : str) : re :=
  Set_ (fun x => existsb (fun c => if ic then lower_char x =? lower_char c else x =? c) cs).

End Re.

(* ------------------------------------------------------------------------- *)
(** ** Python floats, [float(s)] and [f"{v:,.2f}"] *)

Module PyFloat.

Inductive pyfloat : Type :=
| Fin : Q -> pyfloat           (* a finite value *)
| Inf : bool -> pyfloat        (* [inf]; [true] is [-inf] *)
| NaN : pyfloat.

(** [v > 0] *)
Definition gt0 (v : pyfloat) : bool :=
  match v with
  | Fin q => (0 <? Qnum q)%Z
  | Inf neg => negb neg
  | NaN => false
  end.

Definition digit_val (c : char) : Z := Z.of_N (c - 48).

(** Value of a digit string, and its number of digits. *)
Definition digits_val (ds : str) : Z :=
  fold_left (fun acc c => (10 * acc + digit_val c)%Z) ds 0%Z.

(** [digitpart ::= digit (["_"] digit)*], read after a first digit. *)
Fixpoint more_digits (s : str) : str * str :=
  match s with
  | c :: r =>
      if isdigit c then let (ds, r') := more_digits r in (c :: ds, r')
      else if c =? 95 then
        match r with
        | c2 :: _ => if isdigit c2 then more_digits r else ([], s)
        | [] => ([], s)
        end
      else ([], s)
  | [] => ([], [])
  end.

Definition digitpart (s : str) : str * str :=
  match s with
  | c :: r => if isdigit c then let (ds, r') := more_digits r in (c :: ds, r') else ([], s)
  | [] => ([], [])
  end.

Definition sign_of (s : str) : bool * str :=
  match s with
  | c :: r => if c =? 45 then (true, r) else if c =? 43 then (false, r) else (false, s)
  | [] => (false, [])
  end.

(** The optional exponent; [None] when malformed. *)
Definition exponent (s : str) : option Z :=
  match s with
  | [] => Some 0%Z
  | c :: r =>
      if lower_char c =? 101 then
        let (neg, r1) := sign_of r in
        let (ds, r2) := digitpart r1 in
        match ds, r2 with
        | _ :: _, [] => Some (if neg then - digits_val ds else digits_val ds)%Z
        | _, _ => None
        end
      else None
  end.

Definition scale (m : Z) (e : Z) : Q :=
  if (0 <=? e)%Z then Qred (inject_Z (m * 10 ^ e))
  else Qred (Qmake m (Z.to_pos (10 ^ (- e)))).

(** [float(s)]; [None] stands for [ValueError]. *)
Definition float (s : str) : option pyfloat :=
  let (neg, body) := sign_of (strip s) in
  let low := lower body in
  if Py.eqb low (text "inf") || Py.eqb low (text "infinity") then Some (Inf neg)
  else if Py.eqb low (text "nan") then Some NaN
  else
    let (ip, r1) := digitpart body in
    let '(fp, r2) :=
      match r1 with
      | c :: r => if c =? 46 then digitpart r else ([], r1)
      | [] => ([], [])
      end in
    match ip, fp with
    | [], [] => None
    | _, _ =>
        match exponent r2 with
        | Some e =>
            let m := digits_val (ip ++ fp) in
            Some (Fin (scale (if neg then - m else m) (e - Z.of_nat (length fp))))
        | None => None
        end
    end.

(** Decimal digits of a natural number. *)
Fixpoint uint_chars (u : Decimal.uint) : str :=
  match u with
  | Decimal.Nil => []
  | Decimal.D0 r => 48 :: uint_chars r
  | Decimal.D1 r => 49 :: uint_chars r
  | Decimal.D2 r => 50 :: uint_chars r
  | Decimal.D3 r => 51 :: uint_chars r
  | Decimal.D4 r => 52 :: uint_chars r
  | Decimal.D5 r => 53 :: uint_chars r
  | Decimal.D6 r => 54 :: uint_chars r
  | Decimal.D7 r => 55 :: uint_chars r
  | Decimal.D8 r => 56 :: uint_chars r
  | Decimal.D9 r => 57 :: uint_chars r
  end.

Definition nat_chars (n : Z) : str := uint_chars (N.to_uint (Z.to_N n)).

(** Thousands separators, on the reversed digits. *)
Fixpoint group3 (k : nat) (rds : str) : str :=
  match rds with
  | [] => []
  | c :: r =>
      match k with
      | O => 44 :: c :: group3 2 r
      | S k' => c :: group3 k' r
      end
  end.

(** Hundredths of [|q|], rounded half to even. *)
Definition hundredths (q : Q) : Z :=
  let x := (Z.abs (Qnum q) * 100)%Z in
  let dn := Z.pos (Qden q) in
  let fl := (x / dn)%Z in
  let rm := (x mod dn)%Z in
  match (2 * rm ?= dn)%Z with
  | Lt => fl
  | Gt => (fl + 1)%Z
  | Eq => if Z.even fl then fl else (fl + 1)%Z
  end.

(** [f"{v:,.2f}"] *)
Definition format_2f (v : pyfloat) : str :=
  match v with
  | NaN => text "nan"
  | Inf neg => if neg then text "-inf" else text "inf"
  | Fin q =>
      let h := hundredths q in
      let ip := nat_chars (h / 100) in
      let fp := nat_chars (h mod 100) in
      (if (Qnum q <? 0)%Z then [45] else [])
        ++ rev (group3 3 (rev ip)) ++ [46]
        ++ (if (h mod 100 <? 10)%Z then [48] else []) ++ fp
  end.

End PyFloat.

Export PyFloat.

(* ------------------------------------------------------------------------- *)
(** ** Dictionaries and exceptions *)

Module Dict.

Section Ops.
Context {K V : Type} (keq : K -> K -> bool).

(** [d.get(k)] *)
Fixpoint get (k : K) (d : list (K * V)) : option V :=
  match d with
  | [] => None
  | (k', v) :: r => if keq k k' then Some v else get k r
  end.

(** [d[k] = v]: an existing key keeps its place, a new one goes last. *)
Fixpoint set (k : K) (v : V) (d : list (K * V)) : list (K * V) :=
  match d with
  | [] => [(k, v)]
  | (k', v') :: r => if keq k k' then (k', v) :: r else (k', v') :: set k v r
  end.

(** [k in d] *)
Definition mem (k : K) (d : list (K * V)) : bool :=
  match get k d with Some _ => true | None => false end.
End Ops.

Definition keys {K V : Type} (d : list (K * V)) : list K := map fst d.
Definition values {K V : Type} (d : list (K * V)) : list V := map snd d.

End Dict.

Module Exc.

Inductive exn : Type :=
| ValueError : exn      (* [max()] of an empty sequence *)
| KeyError : exn.       (* [d[k]] on a missing key *)

Inductive res (A : Type) : Type :=
| Ok : A -> res A
| Raise : exn -> res A.
Arguments Ok {A} _.
Arguments Raise {A} _.

Definition bind {A B : Type} (m : res A) (f : A -> res B) : res B :=
  match m with
  | Ok a => f a
  | Raise e => Raise e
  end.

(** Run [f] over a list, stopping at the first exception. *)
Fixpoint mapM {A B : Type} (f : A -> res B) (l : list A) : res (list B) :=
  match l with
  | [] => Ok []
  | a :: r => bind (f a) (fun b => bind (mapM f r) (fun bs => Ok (b :: bs)))
  end.

(** A loop with an accumulator, stopping at the first exception. *)
Fixpoint foldM {A B : Type} (f : A -> B -> res A) (l : list B) (a : A) : res A :=
  match l with
  | [] => Ok a
  | b :: r => bind (f a b) (fun a' => foldM f r a')
  end.

End Exc.

Import Exc.

Notation "x <- m ;; k" := (Exc.bind m (fun x => k))
  (at level 61, m at next level, right associativity).

(* ------------------------------------------------------------------------- *)
(** ** [config.py] *)

Module config.

Definition texts (l : list string) : list str := map text l.

(** The four column roles, the keys of [HEADER_PATTERNS]. *)
Inductive field : Type := description | quantity | unitprice | amount.

Definition seq_re (l : list Re.re) : Re.re := fold_right Re.Cat Re.Eps l.

(** [[A-Z0-9\-]] under [re.IGNORECASE]. *)
Definition idchar : Re.re :=
  Re.Set_ (fun c => isupper c || islower c || isdigit c || (c =? 45)).
(** [[\s:]] and [[\s\-]] *)
Definition ws_or (x : char) : Re.re := Re.Set_ (fun c => isspace c || (c =? x)).
(** [(?:number|no|#)] *)
Definition number_no_hash : Re.re :=
  Re.Alt (Re.Lit true (text "number")) (Re.Alt (Re.Lit true (text "no")) (Re.Lit true (text "#"))).

(** The module attributes of [config.py].  They are module-level lists that the
    functions of [utils.py] and [textract_client.py] look up when they run, so
    the resolvers below take them as a [Tables] value; [loaded] is their value
    once the module is imported. *)
Record Tables : Type := {
  INVOICE_NUMBER_PATTERNS : list Re.re;
  CURRENCY_SYMBOLS : list str;
  HEADER_PATTERNS : list (field * list str);
  SUMMARY_INDICATORS : list str;
  TOTAL_KEYWORDS : list (str * Z);
  DATE_KEYWORDS : list str;
  PAYMENT_TERMS_KEYWORDS : list str }.

Definition loaded : Tables := {|
  INVOICE_NUMBER_PATTERNS :=
    [ (* invoice\s*(?:number|no|#)[\s:]*([A-Z0-9\-]+) *)
      seq_re [Re.Lit true (text "invoice"); Re.Star Re.ws; number_no_hash;
              Re.Star (ws_or 58); Re.Group (Re.Plus idchar)];
      (* inv[\s\-]*(?:number|no|#)[\s:]*([A-Z0-9\-]+) *)
      seq_re [Re.Lit true (text "inv"); Re.Star (ws_or 45); number_no_hash;
              Re.Star (ws_or 58); Re.Group (Re.Plus idchar)];
      (* invoice[\s:]+([A-Z0-9\-]{3,}) *)
      seq_re [Re.Lit true (text "invoice"); Re.Plus (ws_or 58);
              Re.Group (seq_re [idchar; idchar; idchar; Re.Star idchar])];
      (* #([A-Z0-9\-]{3,}) *)
      seq_re [Re.Lit true (text "#");
              Re.Group (seq_re [idchar; idchar; idchar; Re.Star idchar])] ];

  CURRENCY_SYMBOLS :=
    texts ["€"; "$"; "£"; "¥"; "₹"]%string;

  HEADER_PATTERNS :=
    [ (description,
       texts ["description"; "service"; "item"; "details"; "work performed";
              "service description"; "product"; "article"; "task"; "work"; "desc"]%string);
      (quantity,
       texts ["qty"; "quantity"; "hours"; "units"; "hrs/qty"; "hrs";
              "units"; "amount"; "number"; "count"; "count"; "hrs"; "hours";
              "hrs qty"; "hrs/qty"]%string);
      (unitprice,
       texts ["unit price"; "price"; "rate"; "rate/price"; "unit cost";
              "price per unit"; "cost"; "rate"; "unit rate"; "each"; "rate price"]%string);
      (amount,
       texts ["amount"; "total"; "sub total"; "line total"; "extended amount";
              "sum"; "value"; "cost"; "charge"; "price"; "subtotal"; "sub_total"]%string) ];

  SUMMARY_INDICATORS :=
    texts ["subtotal"; "sub total"; "sub-total"; "sub_total"; "total"; "grand total";
           "final total"; "net total"; "gross total"; "vat"; "tax"; "vat 19%"; "sales tax";
           "discount"; "adjustment"; "fee discount"; "balance"; "amount due"; "total due";
           "fees and disbursements"; "gross amount"; "net amount"; "incl. vat"; "including vat";
           "excl. vat"; "adjusted fees"; "total adjusted"]%string;

  TOTAL_KEYWORDS :=
    [ (text "total", 1); (text "subtotal", 2); (text "amount due", 8);
      (text "invoice total", 7); (text "grand total", 9); (text "final total", 10);
      (text "total due", 8); (text "gross total", 11); (text "gross amount", 12);
      (text "total amount", 6); (text "net amount", 3); (text "total incl", 13);
      (text "incl. vat", 14); (text "including vat", 14);
      (text "total fees and disbursements", 15); (text "balance due", 8);
      (text "amount payable", 7) ]%Z;

  DATE_KEYWORDS :=
    texts ["invoice date"; "date"; "bill date"; "issued"]%string;

  PAYMENT_TERMS_KEYWORDS :=
    texts ["payment"; "terms"; "due"]%string |}.

End config.

Export config.

(* ------------------------------------------------------------------------- *)
(** ** Amounts *)

(** The ["value"] entry of an amount: [None], a string, or a number. *)
Inductive aval : Type :=
| ANone : aval
| AText : str -> aval
| ANum : pyfloat -> aval.

(** [{"value": ..., "currency": ..., "formatted": ...}] *)
Record Amount : Type := { value : aval; currency : str; formatted : str }.

(** [isinstance(v, (int, float))] *)
Definition is_number (v : aval) : bool :=
  match v with ANum _ => true | _ => false end.

(** [isinstance(a["value"], (int, float)) and a["value"] > 0] *)
Definition is_positive (a : Amount) : bool :=
  match value a with ANum v => gt0 v | _ => false end.

(** [[-+]?\d*\.?\d+] *)
Definition NUMBER : Re.re :=
  seq_re [Re.Opt (Re.one_of false (text "-+")); Re.Star Re.d;
          Re.Opt (Re.Chr false 46); Re.Plus Re.d].

(** The multi-dot step shared by both [clean_currency_text]:
    [if "." in cleaned and cleaned.count(".") > 1: ...] *)
Definition european_dots (cleaned : str) : str :=
  if contains (text ".") cleaned && (1 <? count (text ".") cleaned)%nat then
    let parts := split (text ".") cleaned in
    if (length (last parts []) =? 2)%nat
    then join [] (removelast parts) ++ text "." ++ last parts []
    else replace (text ".") [] cleaned
  else cleaned.

(** [re.search(...)] then [float(match.group())] under [try]. *)
Definition first_number (cleaned : str) : option pyfloat :=
  match Re.search NUMBER cleaned with
  | Some m => float (Re.m_all m)
  | None => None
  end.

(** First symbol of the list found in the text, else [""]. *)
Definition find_currency (symbols : list str) (t : str) : str :=
  match find (fun symbol => contains symbol t) symbols with
  | Some symbol => symbol
  | None => []
  end.

(* ------------------------------------------------------------------------- *)
(** ** Line items and invoice records *)

(** Values stored in a line item: ["Description"] holds a string,
    ["Quantity"] a number, ["UnitPrice"] and ["Amount"] an amount. *)
Inductive item_value : Type :=
| IStr : str -> item_value
| INum : pyfloat -> item_value
| IAmount : Amount -> item_value.

Definition LineItem := list (string * item_value).

(** [line_item[key] = v] *)
Definition item_set (key : string) (v : item_value) (li : LineItem) : LineItem :=
  Dict.set String.eqb key v li.

Definition item_get (key : string) (li : LineItem) : option item_value :=
  Dict.get String.eqb key li.

(** A table page: row index to column index to cell text. *)
Definition RowsDict := list (Z * list (Z * str)).

(* ------------------------------------------------------------------------- *)
(** ** Resolvers and table reconstruction

    [invoice_processor.py] repeats the functions of [utils.py] and
    [extract_line_items_from_tables] of [textract_client.py] word for word,
    around its own amount parser and its own local copies of the tables.  They
    are written once here, over the tables [cfg] and the parser, and
    instantiated per file below.  Logging and the [best_source] string, which
    only feeds the log, are left out. *)

Module Shared.

(** The first [Some] a loop with an early [return]/[break] reaches. *)
Fixpoint first_some {A B : Type} (f : A -> option B) (l : list A) : option B :=
  match l with
  | [] => None
  | a :: r => match f a with Some b => Some b | None => first_some f r end
  end.

Definition nonempty (s : str) : bool := match s with [] => false | _ => true end.

Definition INVOICE_NUMBER_TERMS : list str :=
  texts ["invoice number"; "invoice no"; "invoice #"; "inv number"; "inv no"]%string.

Definition find_invoice_number (cfg : Tables) (kv_pairs : list (str * str)) (all_text : str)
  : option str :=
  match first_some
          (fun kv : str * str =>
             let (k, v) := kv in
             if any_in INVOICE_NUMBER_TERMS k && nonempty v && nonempty (strip v)
             then Some (strip v) else None) kv_pairs with
  | Some r => Some r
  | None =>
      first_some
        (fun pattern =>
           match Re.search pattern all_text with
           | Some m => Some (strip (Re.m_group1 m))
           | None => None
           end) (INVOICE_NUMBER_PATTERNS cfg)
  end.

(** [w1\s+w2\s+...], case-insensitive. *)
Fixpoint words (ws : list str) : Re.re :=
  match ws with
  | [] => Re.Eps
  | [w] => Re.Lit true w
  | w :: r => Re.Cat (Re.Lit true w) (Re.Cat (Re.Plus Re.ws) (words r))
  end.

(** The common tail [[^0-9]*] followed by the group [[€$£¥₹]?\s*[0-9,]+\.?\d*]. *)
Definition amount_tail : Re.re :=
  seq_re [Re.Star (Re.Set_ (fun c => negb (isdigit c)));
          Re.Group (seq_re [Re.Opt (Re.one_of true (text "€$£¥₹"));
                            Re.Star Re.ws;
                            Re.Plus (Re.Set_ (fun c => isdigit c || (c =? 44)));
                            Re.Opt (Re.Chr true 46);
                            Re.Star Re.d])].

Definition total_pattern (ws : list string) : Re.re :=
  Re.Cat (words (texts ws)) amount_tail.

Definition TOTAL_PATTERNS : list (Re.re * Z) :=
  [ (total_pattern ["total"; "fees"; "and"; "disbursements"]%string, 20);
    (total_pattern ["gross"; "amount"; "incl"]%string, 18);
    (total_pattern ["grand"; "total"]%string, 15);
    (total_pattern ["final"; "total"]%string, 15);
    (total_pattern ["total"; "due"]%string, 12);
    (total_pattern ["amount"; "due"]%string, 12);
    (total_pattern ["invoice"; "total"]%string, 10) ]%Z.

Definition DEFAULT_TOTAL : Amount := {| value := ANone; currency := []; formatted := [] |}.

(** [(best_total, best_priority)] *)
Definition best := (option Amount * Z)%type.

(** Bonus of a table row: the [if/elif] chain of the second tier. *)
Definition table_bonus (total_text_lower : str) : Z :=
  if contains (text "fees and disbursements") total_text_lower then 10
  else if contains (text "gross") total_text_lower
          && (contains (text "incl") total_text_lower || contains (text "vat") total_text_lower)
       then 8
  else if contains (text "grand total") total_text_lower then 7
  else if contains (text "final") total_text_lower then 6
  else 0.

(** [list.sort(key=lambda x: x[1], reverse=True)]: stable, descending. *)
Fixpoint insert_desc {A : Type} (x : A * Z) (l : list (A * Z)) : list (A * Z) :=
  match l with
  | [] => [x]
  | y :: r => if (snd x <? snd y)%Z then y :: insert_desc x r else x :: l
  end.

Definition sort_desc {A : Type} (l : list (A * Z)) : list (A * Z) :=
  fold_right insert_desc [] l.

Section Resolvers.

Variable cfg : Tables.
Variable parse_amount_with_currency : str -> Amount.

(** Body of the inner loop of the first tier, for one key-value pair and one
    keyword. *)
Definition kv_step (k v : str) (st : best) (kw : str * Z) : best :=
  let (keyword, priority) := kw in
  let k_lower := strip (lower k) in
  if contains keyword k_lower then
    let amount_info := parse_amount_with_currency v in
    if is_positive amount_info then
      let p1 := if Py.eqb k_lower keyword
                   || Py.eqb (strip (replace (text ":") [] k_lower)) keyword
                then (priority + 5)%Z else priority in
      let actual_priority :=
        if any_in (texts ["incl"; "including"; "with vat"; "with tax"]%string) k_lower
        then (p1 + 3)%Z else p1 in
      if (snd st <? actual_priority)%Z then (Some amount_info, actual_priority) else st
    else st
  else st.

Definition tier_kv (kv_pairs : list (str * str)) : best :=
  fold_left (fun st (kv : str * str) =>
               fold_left (kv_step (fst kv) (snd kv)) (TOTAL_KEYWORDS cfg) st)
            kv_pairs (None, 0%Z).

Definition table_candidates (table_totals : list (str * str)) : list (Amount * Z) :=
  flat_map
    (fun tv : str * str =>
       let (total_text, v) := tv in
       let total_text_lower := lower total_text in
       flat_map
         (fun kw : str * Z =>
            let (keyword, priority) := kw in
            if contains keyword total_text_lower then
              let amount_info := parse_amount_with_currency v in
              if is_positive amount_info
              then [(amount_info, (priority + table_bonus total_text_lower)%Z)]
              else []
            else [])
         (TOTAL_KEYWORDS cfg))
    table_totals.

Definition tier_table (st : best) (table_totals : list (str * str)) : best :=
  match sort_desc (table_candidates table_totals) with
  | [] => st
  | best_table :: _ =>
      if (snd st <? snd best_table)%Z then (Some (fst best_table), snd best_table) else st
  end.

Definition regex_step (priority : Z) (st : best) (m : Re.mtch) : best :=
  let amount_info := parse_amount_with_currency (Re.m_group1 m) in
  if is_positive amount_info then
    if (snd st <? priority)%Z then (Some amount_info, priority) else st
  else st.

Definition tier_regex (st : best) (all_text : str) : best :=
  if (snd st <? 5)%Z then
    fold_left (fun st (pp : Re.re * Z) =>
                 fold_left (regex_step (snd pp)) (Re.finditer (fst pp) all_text) st)
              TOTAL_PATTERNS st
  else st.

Definition find_invoice_total (kv_pairs table_totals : list (str * str)) (all_text : str)
  : Amount :=
  let st := tier_kv kv_pairs in
  let st := tier_table st table_totals in
  let st := tier_regex st all_text in
  match fst st with
  | Some best_total => best_total
  | None => DEFAULT_TOTAL
  end.

(** The three tests made for one synonym. *)
Definition synonym_matches (header_clean pattern : str) : bool :=
  Py.eqb header_clean pattern
  || (match Re.search (seq_re [Re.Bnd; Re.Lit false pattern; Re.Bnd]) header_clean with
      | Some _ => true
      | None => false
      end)
  || contains pattern header_clean.

(** [re.sub(r'[^\w\s/]', ' ', s)] *)
Definition clean_punct (s : str) : str :=
  map (fun c => if isword c || isspace c || (c =? 47) then c else 32) s.

Definition match_header_enhanced (header_text : str) : option field :=
  match header_text with
  | [] => None
  | _ =>
      let header_lower := strip (lower header_text) in
      let header_clean := join (text " ") (split_ws (clean_punct header_lower)) in
      first_some
        (fun fp : field * list str =>
           if existsb (synonym_matches header_clean) (snd fp) then Some (fst fp) else None)
        (HEADER_PATTERNS cfg)
  end.

Definition is_summary_row (row_data : list str) : bool :=
  existsb (fun indicator => contains indicator (lower (join (text " ") row_data)))
          (SUMMARY_INDICATORS cfg).

(** [max(r.keys())], which raises on an empty dictionary. *)
Definition py_max (l : list Z) : res Z :=
  match l with
  | [] => Raise ValueError
  | x :: r => Ok (fold_left Z.max r x)
  end.

(** [max((max(r.keys()) for r in rows_dict.values()), default=0)] *)
Definition max_cols (rows_dict : RowsDict) : res Z :=
  ms <- mapM (fun r : list (Z * str) => py_max (Dict.keys r)) (Dict.values rows_dict) ;;
  match ms with
  | [] => Ok 0%Z
  | x :: r => Ok (fold_left Z.max r x)
  end.

(** [sorted(keys)] *)
Fixpoint insert_asc (x : Z) (l : list Z) : list Z :=
  match l with
  | [] => [x]
  | y :: r => if (y <=? x)%Z then y :: insert_asc x r else x :: l
  end.

Definition sorted (l : list Z) : list Z := fold_right insert_asc [] l.

(** [range(1, n + 1)] *)
Definition range1 (n : Z) : list Z := map Z.of_nat (seq 1 (Z.to_nat n)).

(** The rectangular row list of a page, one row per sorted row index. *)
Definition materialize (rows_dict : RowsDict) (maxc : Z) : list (list str) :=
  map (fun r =>
         let cols := match Dict.get Z.eqb r rows_dict with Some d => d | None => [] end in
         map (fun c => match Dict.get Z.eqb c cols with Some t => t | None => [] end)
             (range1 maxc))
      (sorted (Dict.keys rows_dict)).

(** A header candidate [(i, header_matches, match_count)]. *)
Definition candidate := (nat * list (option field) * nat)%type.
Definition c_idx (c : candidate) : nat := fst (fst c).
Definition c_headers (c : candidate) : list (option field) := snd (fst c).
Definition c_count (c : candidate) : nat := snd c.

Definition is_some {A : Type} (o : option A) : bool :=
  match o with Some _ => true | None => false end.

(** [sum(1 for h in header_matches if h is not None)] *)
Definition match_count (hm : list (option field)) : nat :=
  length (filter is_some hm).

Definition enumerate {A : Type} (l : list A) : list (nat * A) :=
  combine (seq 0 (length l)) l.

(** First pass: rows [0 .. min(4, len(rows)) - 1] with at least two matches. *)
Definition potential_headers (rows : list (list str)) : list candidate :=
  flat_map
    (fun i =>
       let header_matches := map match_header_enhanced (nth i rows []) in
       let mc := match_count header_matches in
       if (2 <=? mc)%nat then [(i, header_matches, mc)] else [])
    (seq 0 (Nat.min 4 (length rows))).

Definition HEADER_HINTS : list str :=
  texts ["service"; "description"; "rate"; "price"; "amount"; "total"; "qty"; "hours"]%string.

(** Second pass, taken when the first found nothing: the first three rows
    with a hint word and at least one match. *)
Definition relaxed_headers (rows : list (list str)) : list candidate :=
  flat_map
    (fun ir : nat * list str =>
       let (i, row) := ir in
       let row_text := lower (join (text " ") row) in
       if any_in HEADER_HINTS row_text then
         let manual_headers := map match_header_enhanced row in
         if (1 <=? match_count manual_headers)%nat
         then [(i, manual_headers, match_count manual_headers)] else []
       else [])
    (enumerate (firstn 3 rows)).

(** [key(a) < key(b)] for [key = lambda x: (x[2], -x[0])]. *)
Definition key_lt (a b : candidate) : bool :=
  (c_count a <? c_count b)%nat
  || ((c_count a =? c_count b)%nat && (c_idx b <? c_idx a)%nat).

(** [max(l, key=...)]: the first element with the greatest key. *)
Fixpoint max_from (cur : candidate) (l : list candidate) : candidate :=
  match l with
  | [] => cur
  | x :: r => max_from (if key_lt cur x then x else cur) r
  end.

Definition choose_header (rows : list (list str)) : option candidate :=
  let ph := potential_headers rows in
  let ph := match ph with [] => relaxed_headers rows | _ => ph end in
  match ph with
  | [] => None
  | x :: r => Some (max_from x r)
  end.

(** The loop over the cells of one data row, from column [i] on; the result
    is [(line_item, has_meaningful_data)].  The [break] of the description
    branch returns at once. *)
Fixpoint cells (headers : list (option field)) (i : nat) (row : list str)
         (line_item : LineItem) (has_meaningful_data : bool) : LineItem * bool :=
  match row with
  | [] => (line_item, has_meaningful_data)
  | cell_value :: rest =>
      match nth_error headers i with
      | Some (Some fld) =>
          let cell_value := strip cell_value in
          match cell_value with
          | [] => cells headers (S i) rest line_item has_meaningful_data
          | _ =>
              match fld with
              | description =>
                  if any_in (SUMMARY_INDICATORS cfg) (lower cell_value)
                  then (line_item, false)
                  else cells headers (S i) rest
                             (item_set "Description" (IStr cell_value) line_item) true
              | quantity =>
                  let qty_info := parse_amount_with_currency cell_value in
                  match value qty_info with
                  | ANum v =>
                      cells headers (S i) rest (item_set "Quantity" (INum v) line_item) true
                  | _ =>
                      match float cell_value with
                      | Some qty_val =>
                          cells headers (S i) rest
                                (item_set "Quantity" (INum qty_val) line_item) true
                      | None => cells headers (S i) rest line_item has_meaningful_data
                      end
                  end
              | unitprice =>
                  let price_info := parse_amount_with_currency cell_value in
                  cells headers (S i) rest
                        (item_set "UnitPrice" (IAmount price_info) line_item)
                        (if is_number (value price_info) then true else has_meaningful_data)
              | amount =>
                  let amount_info := parse_amount_with_currency cell_value in
                  cells headers (S i) rest
                        (item_set "Amount" (IAmount amount_info) line_item)
                        (if is_number (value amount_info) then true else has_meaningful_data)
              end
          end
      | _ => cells headers (S i) rest line_item has_meaningful_data
      end
  end.

(** One data row: the line item it contributes, if any. *)
Definition row_item (headers : list (option field)) (row : list str) : option LineItem :=
  if negb (existsb (fun cell => nonempty (strip cell)) row) then None
  else if is_summary_row row then None
  else
    let (line_item, has_meaningful_data) := cells headers 0 row [] false in
    if has_meaningful_data then Some line_item else None.

Definition opt_list {A : Type} (o : option A) : list A :=
  match o with Some a => [a] | None => [] end.

(** The body of the loop over pages. *)
Definition page_items (rows_dict : RowsDict) : res (list LineItem) :=
  match rows_dict with
  | [] => Ok []
  | _ =>
      maxc <- max_cols rows_dict ;;
      let rows := materialize rows_dict maxc in
      if (length rows <? 2)%nat then Ok []
      else
        match choose_header rows with
        | None => Ok []
        | Some c =>
            let data_rows := skipn (S (c_idx c)) rows in
            Ok (flat_map (fun row => opt_list (row_item (c_headers c) row)) data_rows)
        end
  end.

Definition extract_line_items_from_tables (tables : list (Z * RowsDict))
  : res (list LineItem) :=
  pages <- mapM page_items (Dict.values tables) ;;
  Ok (concat pages).

End Resolvers.

End Shared.

(* ------------------------------------------------------------------------- *)
(** ** Invoice records *)

(** Values of the five entries of an invoice record. *)
Inductive field_value : Type :=
| FNone : field_value
| FStr : str -> field_value
| FItems : list LineItem -> field_value
| FAmount : Amount -> field_value.

Definition InvoiceRecord := list (string * field_value).

(** [parsed[key] = v] *)
Definition rec_set (key : string) (v : field_value) (r : InvoiceRecord) : InvoiceRecord :=
  Dict.set String.eqb key v r.

Definition rec_get (key : string) (r : InvoiceRecord) : option field_value :=
  Dict.get String.eqb key r.

(** [None] or a string. *)
Definition opt_str (o : option str) : field_value :=
  match o with Some x => FStr x | None => FNone end.

(** The record both pipelines start from. *)
Definition initial_record : InvoiceRecord :=
  [ ("InvoiceNumber"%string, FNone);
    ("InvoiceDate"%string, FNone);
    ("LineItems"%string, FItems []);
    ("InvoiceTotal"%string, FAmount Shared.DEFAULT_TOTAL);
    ("PaymentTerms"%string, FNone) ].

(** [enumerate(l, 1)] *)
Definition enumerate1 {A : Type} (l : list A) : list (Z * A) :=
  combine (map Z.of_nat (seq 1 (length l))) l.

(** The two loops over [kv_pairs] that follow [find_invoice_number]. *)
Definition find_invoice_date (cfg : Tables) (kv_pairs : list (str * str)) : option str :=
  Shared.first_some
    (fun kv : str * str =>
       if any_in (DATE_KEYWORDS cfg) (fst kv) && Shared.nonempty (strip (snd kv))
       then Some (strip (snd kv)) else None) kv_pairs.

Definition find_payment_terms (cfg : Tables) (kv_pairs : list (str * str)) : option str :=
  Shared.first_some
    (fun kv : str * str =>
       if any_in (PAYMENT_TERMS_KEYWORDS cfg) (fst kv) && (20 <? length (snd kv))%nat
       then Some (strip (snd kv)) else None) kv_pairs.

(** [table_totals[row_text] = " ".join(row_values)] for the rows with "total". *)
Definition table_totals_of (tables : list (Z * RowsDict)) : list (str * str) :=
  fold_left
    (fun acc (pr : Z * RowsDict) =>
       fold_left
         (fun acc (rd : Z * list (Z * str)) =>
            let row_values := Dict.values (snd rd) in
            let row_text := lower (join (text " ") row_values) in
            if contains (text "total") row_text
            then Dict.set Py.eqb row_text (join (text " ") row_values) acc
            else acc)
         (snd pr) acc)
    tables [].

(* ------------------------------------------------------------------------- *)
(** ** Blocks of the document-analysis response *)

(** A block of the analysis response, a Python dictionary.  [Id] and
    [BlockType] are present in every block; the other attributes may be absent
    ([None]).  Geometry is not read by the extraction and is left out. *)
Record Relationship : Type := { r_Type : str; r_Ids : list str }.

Record Block : Type := {
  Id : str;
  BlockType : str;
  Text : option str;
  Confidence : option Q;
  Page : option Z;
  RowIndex : option Z;
  ColumnIndex : option Z;
  EntityTypes : option (list str);
  Relationships : option (list Relationship) }.

(* ------------------------------------------------------------------------- *)
(** ** [utils.py] *)

Module utils.

Section Globals.

(** The tables of [config], as they stand when the function is called. *)
Variable g : Tables.

Definition clean_currency_text (t : str) : aval * str :=
  match t with
  | [] => (ANone, [])
  | _ =>
      let currency := find_currency (CURRENCY_SYMBOLS g) t in
      let cleaned :=
        fold_left (fun c symbol => replace symbol [] c) (CURRENCY_SYMBOLS g) t in
      let cleaned := strip (replace (text ",") [] cleaned) in
      let cleaned := european_dots cleaned in
      match first_number cleaned with
      | Some v => (ANum v, currency)
      | None => (ANone, currency)
      end
  end.

Definition parse_amount_with_currency (t : str) : Amount :=
  match t with
  | [] => {| value := AText []; currency := []; formatted := [] |}
  | _ =>
      let (v, cur) := clean_currency_text t in
      match v with
      | ANum x =>
          let f := format_2f x in
          let f := match cur with [] => f | _ => cur ++ text " " ++ f end in
          {| value := ANum x; currency := cur; formatted := f |}
      | _ => {| value := AText t; currency := []; formatted := t |}
      end
  end.

Definition find_invoice_number := Shared.find_invoice_number g.
Definition find_invoice_total := Shared.find_invoice_total g parse_amount_with_currency.
Definition match_header_enhanced := Shared.match_header_enhanced g.
Definition is_summary_row := Shared.is_summary_row g.

End Globals.

End utils.

(* ------------------------------------------------------------------------- *)
(** ** [textract_client.py] *)

Module textract_client.

(** The [results] of [process_single_document]. *)
Record LayoutItem : Type := { l_text : str; l_confidence : Q }.

Record Layout : Type := {
  titles : list LayoutItem;
  headers : list LayoutItem;
  section_headers : list LayoutItem;
  paragraphs : list LayoutItem;
  lists : list LayoutItem;
  page_numbers : list LayoutItem;
  footers : list LayoutItem;
  figure_areas : list LayoutItem;
  key_value_areas : list LayoutItem }.

Record Form : Type := { f_key : str; f_value : str; f_confidence : Q }.

Record Table : Type := { t_rows : list (list str); t_confidence : Q }.

Record QueryResult : Type :=
  { q_query : str; q_alias : str; q_answer : str; q_confidence : Q }.

Record Results : Type := {
  layout : Layout;
  forms : list Form;
  tables : list Table;
  queries : list QueryResult }.

(** [next((b for b in blocks if b.get('Id') == child_id), None)] *)
Definition block_by_id (blocks : list Block) (child_id : str) : option Block :=
  find (fun b => Py.eqb (Id b) child_id) blocks.

(** The rows of one table: its cells by row and column index. *)
Definition CellRows := list (Z * list (Z * str)).

Definition _get_text_from_cell (cell : Block) (blocks : list Block) : str :=
  let t :=
    match Relationships cell with
    | Some rels =>
        fold_left
          (fun acc rel =>
             if Py.eqb (r_Type rel) (text "CHILD") then
               fold_left
                 (fun acc child_id =>
                    match block_by_id blocks child_id with
                    | Some child_block =>
                        if Py.eqb (BlockType child_block) (text "WORD")
                        then acc ++ match Text child_block with Some w => w | None => [] end
                                 ++ text " "
                        else acc
                    | None => acc
                    end)
                 (r_Ids rel) acc
             else acc)
          rels []
    | None => []
    end in
  strip t.

(** The CELL children of a TABLE block, in relationship order. *)
Definition cells_of (table_block : Block) (blocks : list Block) : list Block :=
  match Relationships table_block with
  | Some rels =>
      flat_map
        (fun rel =>
           if Py.eqb (r_Type rel) (text "CHILD") then
             flat_map
               (fun child_id =>
                  match block_by_id blocks child_id with
                  | Some cell_block =>
                      if Py.eqb (BlockType cell_block) (text "CELL") then [cell_block] else []
                  | None => []
                  end)
               (r_Ids rel)
           else [])
        rels
  | None => []
  end.

(** The loop over the cells of a table: [(rows, max_col)]. *)
Definition place_cell (blocks : list Block) (st : CellRows * Z) (cell : Block) : CellRows * Z :=
  let (rows, max_col) := st in
  let row_index := match RowIndex cell with Some r => r | None => 1%Z end in
  let col_index := match ColumnIndex cell with Some c => c | None => 1%Z end in
  let cols := match Dict.get Z.eqb row_index rows with Some c => c | None => [] end in
  (Dict.set Z.eqb row_index
            (Dict.set Z.eqb col_index (_get_text_from_cell cell blocks) cols) rows,
   Z.max max_col col_index).

Definition extract_tables (blocks : list Block) : list Table :=
  map (fun table_block =>
         let (rows, max_col) :=
           fold_left (place_cell blocks) (cells_of table_block blocks) ([], 0%Z) in
         {| t_rows :=
              map (fun row_index =>
                     let cols := match Dict.get Z.eqb row_index rows with
                                 | Some c => c | None => [] end in
                     map (fun col_index =>
                            match Dict.get Z.eqb col_index cols with
                            | Some t => t | None => [] end)
                         (Shared.range1 max_col))
                  (Shared.sorted (Dict.keys rows));
            t_confidence := match Confidence table_block with Some c => c | None => 0%Q end |})
      (filter (fun b => Py.eqb (BlockType b) (text "TABLE")) blocks).

Definition query_map : list (str * string) :=
  [ (text "What is the invoice number?", "InvoiceNumber"%string);
    (text "What is the invoice date?", "InvoiceDate"%string);
    (text "What is the total amount?", "InvoiceTotal"%string);
    (text "What is the payment terms?", "PaymentTerms"%string) ].

Section Globals.

Variable g : Tables.

Definition extract_line_items_from_tables :=
  Shared.extract_line_items_from_tables g (utils.parse_amount_with_currency g).

(** [kv_pairs[key] = value] for the forms with a key and a value. *)
Definition kv_pairs_of (fs : list Form) : list (str * str) :=
  fold_left
    (fun kv form =>
       let key := strip (lower (f_key form)) in
       let v := strip (f_value form) in
       if Shared.nonempty key && Shared.nonempty v then Dict.set Py.eqb key v kv else kv)
    fs [].

Definition all_text_of (results : Results) (kv_pairs : list (str * str)) : str :=
  let l := layout results in
  let all_text_parts :=
    map l_text (titles l) ++ map l_text (headers l) ++ map l_text (section_headers l)
    ++ map l_text (paragraphs l) ++ map l_text (lists l)
    ++ map (fun kv : str * str => fst kv ++ text " " ++ snd kv) kv_pairs
    ++ flat_map (fun table => map (join (text " ")) (t_rows table)) (tables results) in
  join (text " ") all_text_parts.

(** [tables_dict[page][row_idx][col_idx] = cell], pages, rows and columns
    numbered from 1 in list order. *)
Definition tables_dict_of (ts : list Table) : list (Z * RowsDict) :=
  map (fun pt : Z * Table =>
         (fst pt,
          map (fun rr : Z * list str => (fst rr, enumerate1 (snd rr)))
              (enumerate1 (t_rows (snd pt)))))
      (enumerate1 ts).

(** One turn of the query loop. *)
Definition override (parsed : InvoiceRecord) (query : QueryResult) : InvoiceRecord :=
  let q_text := q_query query in
  let answer := q_answer query in
  match Dict.get Py.eqb q_text query_map with
  | Some key =>
      if Shared.nonempty answer then
        if Py.eqb q_text (text "What is the total amount?") then
          let amount_info := utils.parse_amount_with_currency g answer in
          if is_number (value amount_info)
          then rec_set key (FAmount amount_info) parsed
          else parsed
        else rec_set key (FStr answer) parsed
      else parsed
  | None => parsed
  end.

Definition parse_extracted_data (results : Results) : res InvoiceRecord :=
  let parsed := initial_record in
  let kv_pairs := kv_pairs_of (forms results) in
  let all_text := all_text_of results kv_pairs in
  let tables_dict := tables_dict_of (tables results) in
  let table_totals := table_totals_of tables_dict in
  let parsed :=
    rec_set "InvoiceNumber" (opt_str (utils.find_invoice_number g kv_pairs all_text)) parsed in
  let parsed :=
    match find_invoice_date g kv_pairs with
    | Some v => rec_set "InvoiceDate" (FStr v) parsed
    | None => parsed
    end in
  let parsed :=
    match find_payment_terms g kv_pairs with
    | Some v => rec_set "PaymentTerms" (FStr v) parsed
    | None => parsed
    end in
  line_items <- extract_line_items_from_tables tables_dict ;;
  let parsed := rec_set "LineItems" (FItems line_items) parsed in
  let parsed :=
    rec_set "InvoiceTotal"
            (FAmount (utils.find_invoice_total g kv_pairs table_totals all_text)) parsed in
  Ok (fold_left override (queries results) parsed).

End Globals.

End textract_client.

(* ------------------------------------------------------------------------- *)
(** ** [invoice_processor.py] *)

Module invoice_processor.

(** The tables this file keeps as local literals.  They equal those of
    [config.py], except that the quantity synonyms list ["count"] once. *)
Definition local_tables : Tables := {|
  INVOICE_NUMBER_PATTERNS := INVOICE_NUMBER_PATTERNS loaded;
  CURRENCY_SYMBOLS := texts ["€"; "$"; "£"; "¥"; "₹"]%string;
  HEADER_PATTERNS :=
    [ (description,
       texts ["description"; "service"; "item"; "details"; "work performed";
              "service description"; "product"; "article"; "task"; "work"; "desc"]%string);
      (quantity,
       texts ["qty"; "quantity"; "hours"; "units"; "hrs/qty"; "hrs"; "units";
              "amount"; "number"; "count"; "hrs"; "hours"; "hrs qty"; "hrs/qty"]%string);
      (unitprice,
       texts ["unit price"; "price"; "rate"; "rate/price"; "unit cost";
              "price per unit"; "cost"; "rate"; "unit rate"; "each"; "rate price"]%string);
      (amount,
       texts ["amount"; "total"; "sub total"; "line total"; "extended amount";
              "sum"; "value"; "cost"; "charge"; "price"; "subtotal"; "sub_total"]%string) ];
  SUMMARY_INDICATORS := SUMMARY_INDICATORS loaded;
  TOTAL_KEYWORDS := TOTAL_KEYWORDS loaded;
  DATE_KEYWORDS := texts ["invoice date"; "date"; "bill date"; "issued"]%string;
  PAYMENT_TERMS_KEYWORDS := texts ["payment"; "terms"; "due"]%string |}.

Definition clean_currency_text (t : str) : aval * str :=
  match t with
  | [] => (ANone, [])
  | _ =>
      let currency := find_currency (CURRENCY_SYMBOLS local_tables) t in
      let cleaned :=
        strip (replace (text "£") [] (replace (text "$") []
                 (replace (text "€") [] (replace (text ",") [] t)))) in
      let cleaned := european_dots cleaned in
      match first_number cleaned with
      | Some v => (ANum v, currency)
      | None => (AText t, currency)
      end
  end.

Definition parse_amount_with_currency (t : str) : Amount :=
  match t with
  | [] => {| value := AText []; currency := []; formatted := [] |}
  | _ =>
      let (v, cur) := clean_currency_text t in
      match v with
      | ANum x =>
          let f := format_2f x in
          let f := match cur with [] => f | _ => f ++ text " " ++ cur end in
          {| value := ANum x; currency := cur; formatted := f |}
      | _ => {| value := AText t; currency := []; formatted := t |}
      end
  end.

Definition find_invoice_number := Shared.find_invoice_number local_tables.
Definition find_invoice_total :=
  Shared.find_invoice_total local_tables parse_amount_with_currency.
Definition extract_line_items_from_tables :=
  Shared.extract_line_items_from_tables local_tables parse_amount_with_currency.

Definition BlockMap := list (str * Block).

(** [block["Text"]] *)
Definition text_of (b : Block) : res str :=
  match Text b with Some t => Ok t | None => Raise KeyError end.

(** Text of the WORD and LINE children of a block. *)
Definition extract_text_from_block (block : Block) (block_map : BlockMap) : res str :=
  t <- match Relationships block with
       | Some rels =>
           foldM
             (fun acc rel =>
                if Py.eqb (r_Type rel) (text "CHILD") then
                  foldM
                    (fun acc cid =>
                       match Dict.get Py.eqb cid block_map with
                       | Some child =>
                           if Py.eqb (BlockType child) (text "WORD")
                              || Py.eqb (BlockType child) (text "LINE")
                           then ct <- text_of child ;; Ok (acc ++ ct ++ text " ")
                           else Ok acc
                       | None => Ok acc
                       end)
                    (r_Ids rel) acc
                else Ok acc)
             rels []
       | None => Ok []
       end ;;
  Ok (strip t).

(** [tables[page][row][col] = text], creating the page and the row on demand. *)
Definition table_set (page row col : Z) (t : str) (tables : list (Z * RowsDict))
  : list (Z * RowsDict) :=
  let rows := match Dict.get Z.eqb page tables with Some r => r | None => [] end in
  let cols := match Dict.get Z.eqb row rows with Some c => c | None => [] end in
  Dict.set Z.eqb page (Dict.set Z.eqb row (Dict.set Z.eqb col t cols) rows) tables.

Definition is_type (ty : string) (b : Block) : bool := Py.eqb (BlockType b) (text ty).

Definition has_entity (e : string) (b : Block) : bool :=
  match EntityTypes b with
  | Some l => existsb (Py.eqb (text e)) l
  | None => false
  end.

(** The text of the value block a key block points to (the last one found). *)
Definition value_text_of (key_block : Block) (value_blocks block_map : BlockMap) : res str :=
  match Relationships key_block with
  | Some rels =>
      foldM
        (fun acc rel =>
           if Py.eqb (r_Type rel) (text "VALUE") then
             foldM
               (fun acc value_id =>
                  match Dict.get Py.eqb value_id value_blocks with
                  | Some vb => t <- extract_text_from_block vb block_map ;; Ok (strip t)
                  | None => Ok acc
                  end)
               (r_Ids rel) acc
           else Ok acc)
        rels []
  | None => Ok []
  end.

Definition extract_invoice_data (textract_output : option (list Block)) : res InvoiceRecord :=
  match textract_output with
  | None => Ok initial_record
  | Some blocks =>
      let invoice_data := initial_record in
      let block_map : BlockMap :=
        fold_left (fun m b => Dict.set Py.eqb (Id b) b m) blocks [] in
      all_text <- foldM (fun acc b =>
                           if is_type "LINE" b
                           then t <- text_of b ;; Ok (acc ++ t ++ text " ")
                           else Ok acc) blocks [] ;;
      let key_blocks : BlockMap :=
        fold_left (fun m b => if is_type "KEY_VALUE_SET" b && has_entity "KEY" b
                              then Dict.set Py.eqb (Id b) b m else m) blocks [] in
      let value_blocks : BlockMap :=
        fold_left (fun m b => if is_type "KEY_VALUE_SET" b && negb (has_entity "KEY" b)
                              then Dict.set Py.eqb (Id b) b m else m) blocks [] in
      kv_pairs <- foldM (fun kv (kb : str * Block) =>
                           kt <- extract_text_from_block (snd kb) block_map ;;
                           let key_text := strip (lower kt) in
                           value_text <- value_text_of (snd kb) value_blocks block_map ;;
                           if Shared.nonempty key_text && Shared.nonempty value_text
                           then Ok (Dict.set Py.eqb key_text value_text kv)
                           else Ok kv) key_blocks [] ;;
      tables <- foldM (fun tables b =>
                         if is_type "CELL" b then
                           let page := match Page b with Some p => p | None => 1%Z end in
                           row <- match RowIndex b with
                                  | Some r => Ok r | None => Raise KeyError end ;;
                           col <- match ColumnIndex b with
                                  | Some c => Ok c | None => Raise KeyError end ;;
                           t <- extract_text_from_block b block_map ;;
                           Ok (table_set page row col t tables)
                         else Ok tables) blocks [] ;;
      let invoice_data :=
        rec_set "InvoiceNumber" (opt_str (find_invoice_number kv_pairs all_text))
                invoice_data in
      let invoice_data :=
        match find_invoice_date local_tables kv_pairs with
        | Some v => rec_set "InvoiceDate" (FStr v) invoice_data
        | None => invoice_data
        end in
      let invoice_data :=
        match find_payment_terms local_tables kv_pairs with
        | Some v => rec_set "PaymentTerms" (FStr v) invoice_data
        | None => invoice_data
        end in
      line_items <- extract_line_items_from_tables tables ;;
      let invoice_data := rec_set "LineItems" (FItems line_items) invoice_data in
      let table_totals := table_totals_of tables in
      Ok (rec_set "InvoiceTotal"
                  (FAmount (find_invoice_total kv_pairs table_totals all_text))
                  invoice_data)
  end.

End invoice_processor.

(** A decimal literal as a float value. *)
Definition dec (q : Q) : pyfloat := Fin (Qred q).
Arguments dec q%_Q.

(** The five keys of an invoice record. *)
Definition RECORD_KEYS : list string :=
  ["InvoiceNumber"; "InvoiceDate"; "LineItems"; "InvoiceTotal"; "PaymentTerms"]%string.

(** An empty layout. *)
Definition no_layout : textract_client.Layout :=
  {| textract_client.titles := []; textract_client.headers := [];
     textract_client.section_headers := []; textract_client.paragraphs := [];
     textract_client.lists := []; textract_client.page_numbers := [];
     textract_client.footers := []; textract_client.figure_areas := [];
     textract_client.key_value_areas := [] |}.

(** A table given by its rows. *)
Definition table_of (rows : list (list string)) : textract_client.Table :=
  {| textract_client.t_rows := map (map text) rows; textract_client.t_confidence := 0%Q |}.

(** The table of the end-to-end scenario of the specification. *)
Definition scenario_table : textract_client.Table :=
  table_of [ ["Description"; "Qty"; "Rate"; "Amount"];
             ["Consulting"; "10"; "100.00"; "1,000.00"];
             ["Subtotal"; ""; ""; "1,000.00"] ]%string.

(** The failure clause of the amount parser as the specification words it: on
    a non-empty text from which no number is extracted, the value is the text,
    the currency is the symbol detected in the text, the formatted string is
    the text. *)
Definition failure_clause_as_stated
    (symbols : list str) (clean : str -> aval * str) (parse : str -> Amount) (t : str) : Prop :=
  t <> [] -> is_number (fst (clean t)) = false ->
  value (parse t) = AText t
  /\ currency (parse t) = find_currency symbols t
  /\ formatted (parse t) = t.

(** Rows whose candidates at indices 1 and 2 both have two matched cells. *)
Definition tie_rows : list (list str) :=
  map (map text)
      [ ["Invoice"; "Details"]; ["Description"; "Qty"]; ["Item"; "Hours"];
        ["Widget"; "3"] ]%string.

(** The key-value pairs and the table totals of the total-priority scenario. *)
Definition scenario_kv : list (str * str) := [(text "grand total", text "$500.00")].

Definition scenario_totals : list (str * str) :=
  [(text "total fees and disbursements: $1000.00",
    text "total fees and disbursements: $1000.00")].

(** The first element of a list dominates the list. *)
Definition head_max {A : Type} (l : list (A * Z)) : Prop :=
  match l with
  | [] => True
  | b :: _ => forall c, In c l -> (snd c <= snd b)%Z
  end.

(** The line-item key written for a column role. *)
Definition key_of (fld : field) : string :=
  match fld with
  | description => "Description"
  | quantity => "Quantity"
  | unitprice => "UnitPrice"
  | amount => "Amount"
  end.

(** What the specification calls the value a column gives to the role [fld]:
    the column has that role, its cell is not blank, and for a quantity the
    cell parses to a number (through the amount parser, else through [float]). *)
Definition contribution (parse : str -> Amount) (fld : field) (hc : option field * str)
  : option item_value :=
  match strip (snd hc) with
  | [] => None
  | cell_value =>
      match fst hc, fld with
      | Some description, description => Some (IStr cell_value)
      | Some quantity, quantity =>
          match value (parse cell_value) with
          | ANum v => Some (INum v)
          | _ => option_map INum (float cell_value)
          end
      | Some unitprice, unitprice => Some (IAmount (parse cell_value))
      | Some amount, amount => Some (IAmount (parse cell_value))
      | _, _ => None
      end
  end.

(** The contribution of the rightmost column that has one. *)
Definition rightmost (parse : str -> Amount) (fld : field)
           (headers : list (option field)) (row : list str) : option item_value :=
  Shared.first_some (contribution parse fld) (rev (combine headers row)).

(** A header row that gives the quantity role to two columns, a data row, and
    the line item the row yields. *)
Definition dup_headers : list (option field) :=
  [Some description; Some quantity; Some unitprice; Some quantity].

Definition dup_row : list str := map text ["Consulting"; "10"; "100.00"; "1,000.00"]%string.

Definition dup_item : LineItem :=
  [ ("Description"%string, IStr (text "Consulting"));
    ("Quantity"%string, INum (dec 1000));
    ("UnitPrice"%string,
     IAmount {| value := ANum (dec 100.0); currency := []; formatted := text "100.00" |}) ].

(** The same results without the answers of the queries. *)
Definition without_queries (results : textract_client.Results) : textract_client.Results :=
  {| textract_client.layout := textract_client.layout results;
     textract_client.forms := textract_client.forms results;
     textract_client.tables := textract_client.tables results;
     textract_client.queries := [] |}.

(** Results in which the form gives one invoice number and a query another. *)
Definition override_results : textract_client.Results :=
  {| textract_client.layout := no_layout;
     textract_client.forms :=
       [ {| textract_client.f_key := text "Invoice Number";
            textract_client.f_value := text "INV-0001";
            textract_client.f_confidence := 99 |} ];
     textract_client.tables := [];
     textract_client.queries :=
       [ {| textract_client.q_query := text "What is the invoice number?";
            textract_client.q_alias := text "Q1";
            textract_client.q_answer := text "INV-9999";
            textract_client.q_confidence := 1 |} ] |}.

(** Blocks as the analysis service delivers them: a LINE or WORD block has a
    text, a CELL block has its row and column index. *)
Definition well_formed (b : Block) : Prop :=
  ((invoice_processor.is_type "LINE" b || invoice_processor.is_type "WORD" b) = true ->
   Text b <> None)
  /\ (invoice_processor.is_type "CELL" b = true ->
      RowIndex b <> None /\ ColumnIndex b <> None).

(** Every block a block map holds is well formed. *)
Definition map_well_formed (m : invoice_processor.BlockMap) : Prop :=
  forall k b, Dict.get Py.eqb k m = Some b -> well_formed b.

(** Every row of every page has at least one column. *)
Definition rows_nonempty (tables : list (Z * RowsDict)) : Prop :=
  forall pg rd, In pg tables -> In rd (snd pg) -> snd rd <> [].

(** The text of the LINE blocks, each followed by a space: [all_text] of
    [extract_invoice_data]. *)
Definition line_text (blocks : list Block) : str :=
  flat_map (fun b => if invoice_processor.is_type "LINE" b
                     then match Text b with
                          | Some t => t ++ text " "
                          | None => []
                          end
                     else []) blocks.






(** A text without any digit, and a text that does not start with one. *)
Definition no_digit (s : str) : Prop := Forall (fun c => isdigit c = false) s.

Definition head_no_digit (s : str) : Prop :=
  match s with c :: _ => isdigit c = false | [] => True end.

(** A text of ASCII characters, on which the character classes of the
    embedding are those of Python. *)
Definition ascii_text (s : str) : Prop := Forall (fun c => c < 128) s.

(** The running best of the total resolver holds nothing or a positive amount. *)
Definition best_ok (st : Shared.best) : Prop :=
  match fst st with Some a => is_positive a = true | None => True end.

(** A summary row and a table row with a total in upper case. *)
Definition total_row : list str := map text ["Services"; "GRAND TOTAL"; "500.00"]%string.

(** The entries a line item may hold: a description that is not blank and
    names no summary indicator, a number as quantity, amounts as unit price and
    amount. *)
Definition entry_ok (cfg : Tables) (e : string * item_value) : Prop :=
  match e with
  | ("Description"%string, IStr s) =>
      s <> [] /\ any_in (SUMMARY_INDICATORS cfg) (lower s) = false
  | ("Quantity"%string, INum _) => True
  | ("UnitPrice"%string, IAmount _) => True
  | ("Amount"%string, IAmount _) => True
  | _ => False
  end.

(** A page of three rows under a two-column header. *)
Definition small_page : RowsDict :=
  [ (1%Z, [(1%Z, text "Item"); (2%Z, text "Qty")]);
    (2%Z, [(1%Z, text "Paper"); (2%Z, text "3")]);
    (3%Z, [(1%Z, text "Ink"); (2%Z, text "2")]) ].

(** A query entry that cannot change the record: the question is not one of
    the four recognised ones, or the answer is empty. *)
Definition idle_query (q : textract_client.QueryResult) : Prop :=
  Dict.get Py.eqb (textract_client.q_query q) textract_client.query_map = None
  \/ textract_client.q_answer q = [].

(** Results whose queries are a question outside the map and an unanswered one. *)
Definition idle_results : textract_client.Results :=
  {| textract_client.layout := no_layout;
     textract_client.forms :=
       [ {| textract_client.f_key := text "Invoice Number";
            textract_client.f_value := text "INV-0001";
            textract_client.f_confidence := 99 |} ];
     textract_client.tables := [];
     textract_client.queries :=
       [ {| textract_client.q_query := text "Who is the vendor or supplier?";
            textract_client.q_alias := text "Q4";
            textract_client.q_answer := text "ACME";
            textract_client.q_confidence := 90 |};
         {| textract_client.q_query := text "What is the invoice number?";
            textract_client.q_alias := text "Q3";
            textract_client.q_answer := [];
            textract_client.q_confidence := 0 |} ] |}.

(** The key-value entry a form gives, if any: lower-cased trimmed key and
    trimmed value, both non-empty. *)
Definition form_entry (form : textract_client.Form) : option (str * str) :=
  let key := strip (lower (textract_client.f_key form)) in
  let v := strip (textract_client.f_value form) in
  if Shared.nonempty key && Shared.nonempty v then Some (key, v) else None.

(** The value a form gives to the key [k]. *)
Definition form_value (k : str) (form : textract_client.Form) : option str :=
  match form_entry form with
  | Some (key, v) => if Py.eqb k key then Some v else None
  | None => None
  end.

(** [c] is the first symbol of the list that occurs in the text. *)
Definition first_symbol_in (symbols : list str) (t c : str) : Prop :=
  exists pre post,
    symbols = pre ++ c :: post
    /\ contains c t = true
    /\ forall s, In s pre -> contains s t = false.

(** The header text the synonyms are compared with: lower-cased, stripped,
    punctuation blanked, runs of white space collapsed. *)
Definition clean_header (header_text : str) : str :=
  join (text " ") (split_ws (Shared.clean_punct (strip (lower header_text)))).

(** Header matching by the substring test alone. *)
Definition match_header_by_substring (cfg : Tables) (header_text : str) : option field :=
  match header_text with
  | [] => None
  | _ =>
      Shared.first_some
        (fun fp : field * list str =>
           if any_in (snd fp) (clean_header header_text) then Some (fst fp) else None)
        (HEADER_PATTERNS cfg)
  end.

(** The synonyms that can make a column an Amount column. *)
Definition AMOUNT_REACHABLE : list str :=
  texts ["total"; "sum"; "value"; "charge"]%string.

(** Length of the longest row. *)
Definition widest (rows : list (list str)) : nat :=
  fold_right Nat.max 0%nat (map (@length str) rows).

(** A row filled with empty cells up to [n] columns. *)
Definition pad (n : nat) (row : list str) : list str :=
  row ++ repeat [] (n - length row).

(** A table with a short second row. *)
Definition ragged_table : textract_client.Table :=
  table_of [ ["Description"; "Qty"; "Total"]; ["Consulting"; "2"] ]%string.

(** [cell.get('RowIndex', 1)] and [cell.get('ColumnIndex', 1)] *)
Definition row_of (cell : Block) : Z :=
  match RowIndex cell with Some r => r | None => 1%Z end.

Definition col_of (cell : Block) : Z :=
  match ColumnIndex cell with Some c => c | None => 1%Z end.

(** A block with the attributes every block has. *)
Definition block (id ty : string) : Block :=
  {| Id := text id; BlockType := text ty; Text := None; Confidence := None;
     Page := Some 1%Z; RowIndex := None; ColumnIndex := None;
     EntityTypes := None; Relationships := None |}.

Definition word_block (id w : string) : Block :=
  {| Id := text id; BlockType := text "WORD"; Text := Some (text w); Confidence := None;
     Page := Some 1%Z; RowIndex := None; ColumnIndex := None;
     EntityTypes := None; Relationships := None |}.

Definition cell_block (id : string) (r c : Z) (children : list string) : Block :=
  {| Id := text id; BlockType := text "CELL"; Text := None; Confidence := None;
     Page := Some 1%Z; RowIndex := Some r; ColumnIndex := Some c;
     EntityTypes := None;
     Relationships := Some [ {| r_Type := text "CHILD"; r_Ids := map text children |} ] |}.

(** A table block with three cells: the cell at row 2, column 2 is missing. *)
Definition small_table_block : Block :=
  {| Id := text "t1"; BlockType := text "TABLE"; Text := None; Confidence := None;
     Page := Some 1%Z; RowIndex := None; ColumnIndex := None;
     EntityTypes := None;
     Relationships :=
       Some [ {| r_Type := text "CHILD"; r_Ids := map text ["c1"; "c2"; "c3"]%string |} ] |}.

Definition small_table_blocks : list Block :=
  [ small_table_block;
    cell_block "c1" 1 1 ["w1"]%string; cell_block "c2" 1 2 ["w2"]%string;
    cell_block "c3" 2 1 ["w3"; "w4"]%string;
    word_block "w1" "Item"; word_block "w2" "Total";
    word_block "w3" "Consulting"; word_block "w4" "fee" ].
(** The cell at [(r, c)] after a run of the placing loop. *)
Definition placed (r c : Z) (txt : str) (st : textract_client.CellRows * Z) : Prop :=
  (exists cols, Dict.get Z.eqb r (fst st) = Some cols /\ Dict.get Z.eqb c cols = Some txt)
  /\ (c <= snd st)%Z.

(** What the forms can put under "PaymentTerms" and under "InvoiceDate". *)
Definition terms_ok (v : field_value) : Prop :=
  match v with
  | FNone => True
  | FStr s => (20 < length s)%nat
  | _ => False
  end.

Definition date_ok (v : field_value) : Prop :=
  match v with
  | FNone => True
  | FStr s => s <> []
  | _ => False
  end.

(** Forms with a short and a long payment note. *)
Definition terms_results : textract_client.Results :=
  {| textract_client.layout := no_layout;
     textract_client.forms :=
       [ {| textract_client.f_key := text "Payment";
            textract_client.f_value := text "30 days";
            textract_client.f_confidence := 99 |};
         {| textract_client.f_key := text "Terms";
            textract_client.f_value := text "  Net 30 days from the invoice date ";
            textract_client.f_confidence := 99 |} ];
     textract_client.tables := [];
     textract_client.queries := [] |}.

(** [any(c in "0123456789" for c in s)] *)
Definition has_digit (s : str) : bool := existsb isdigit s.

(** The texts a pattern can match, word boundaries and the capture aside. *)
Inductive matches : Re.re -> str -> Prop :=
| m_eps : matches Re.Eps []
| m_set (p : char -> bool) (c : char) : p c = true -> matches (Re.Set_ p) [c]
| m_cat (r1 r2 : Re.re) (w1 w2 : str) :
    matches r1 w1 -> matches r2 w2 -> matches (Re.Cat r1 r2) (w1 ++ w2)
| m_alt_l (r1 r2 : Re.re) (w : str) : matches r1 w -> matches (Re.Alt r1 r2) w
| m_alt_r (r1 r2 : Re.re) (w : str) : matches r2 w -> matches (Re.Alt r1 r2) w
| m_star_nil (r : Re.re) : matches (Re.Star r) []
| m_star_cons (r : Re.re) (w1 w2 : str) :
    matches r w1 -> matches (Re.Star r) w2 -> matches (Re.Star r) (w1 ++ w2)
| m_group (r : Re.re) (w : str) : matches r w -> matches (Re.Group r) w
| m_bnd : matches Re.Bnd [].

(** The loop [Re.run] makes on a starred pattern, [step] being the matcher of
    the pattern under the star. *)
Definition star_loop (step : option char -> str -> option str -> Re.cont
                             -> option (str * option str)) (k : Re.cont) :=
  fix loop (n : nat) (prev : option char) (s : str) (cap : option str)
    : option (str * option str) :=
    match n with
    | O => k prev s cap
    | S n' =>
        match step prev s cap
                (fun p1 s1 c1 =>
                   if (length s1 <? length s)%nat then loop n' p1 s1 c1 else None)
        with
        | Some a => Some a
        | None => k prev s cap
        end
    end.

(* ------------------------------------------------------------------------- *)
(** ** [save_results] of [invoice_processor.py]

    The dictionary [save_results] hands to [json.dump].  The path of the file
    and the write itself are not modelled. *)

Module invoice_output.

(** What a subscript on the record can raise. *)
Inductive exn : Type :=
| KeyError : exn       (* a key the record does not hold *)
| TypeError : exn.     (* [x["formatted"]] on a value that is not a dictionary *)

(** A value of the saved dictionary: a field of the record as it is, or the
    collapsed total. *)
Inductive saved_value : Type :=
| SField : field_value -> saved_value
| SValue : aval -> saved_value.

Definition SavedRecord := list (string * saved_value).

(** [results[key]] *)
Definition subscript (key : string) (results : InvoiceRecord) : exn + field_value :=
  match rec_get key results with
  | Some v => inr v
  | None => inl KeyError
  end.

(** [results["InvoiceTotal"][key]] *)
Definition total_entry (results : InvoiceRecord) : exn + Amount :=
  match subscript "InvoiceTotal" results with
  | inr (FAmount a) => inr a
  | inr _ => inl TypeError
  | inl e => inl e
  end.

(** [formatted_results] *)
Definition save_results (results : InvoiceRecord) : exn + SavedRecord :=
  match subscript "InvoiceNumber" results with
  | inl e => inl e
  | inr number =>
      match subscript "InvoiceDate" results with
      | inl e => inl e
      | inr date =>
          match total_entry results with
          | inl e => inl e
          | inr a =>
              let total :=
                match formatted a with
                | [] => value a
                | f => AText f
                end in
              match subscript "LineItems" results with
              | inl e => inl e
              | inr items =>
                  match subscript "PaymentTerms" results with
                  | inl e => inl e
                  | inr terms =>
                      inr [ ("InvoiceNumber"%string, SField number);
                            ("InvoiceDate"%string, SField date);
                            ("InvoiceTotal"%string, SValue total);
                            ("LineItems"%string, SField items);
                            ("PaymentTerms"%string, SField terms) ]
                  end
              end
          end
      end
  end.

End invoice_output.

(** The running best of the total resolver holds nothing or a positive amount
    that the amount parser returned. *)
Definition best_parsed (parse : str -> Amount) (st : Shared.best) : Prop :=
  match fst st with
  | Some a => is_positive a = true /\ exists v, a = parse v
  | None => True
  end.

(** A response with one line of text naming a total. *)
Definition total_line_blocks : list Block :=
  [ {| Id := text "b1"; BlockType := text "LINE"; Text := Some (text "Grand Total 1,250.00");
       Confidence := None; Page := Some 1%Z; RowIndex := None; ColumnIndex := None;
       EntityTypes := None; Relationships := None |} ].

(* ------------------------------------------------------------------------- *)
(** ** [s3_sync.py]

    [sync_folder] decides from three dictionaries: the cache of the last
    synchronisation, the listing of the bucket and the PDF files of the
    folder.  The calls that leave the program are its inputs and outputs here:
    the listing and the files are given as the calls return them, the calls
    to the bucket are recorded in the order they are made, and whether one of
    them raises [ClientError] is asked of an oracle. *)

Module s3_sync.

(** An entry of [page['Contents']]; [o_LastModified] is its [isoformat()]. *)
Record S3Object : Type := { o_Key : str; o_Size : Z; o_LastModified : str }.

(** A value of [s3_files]. *)
Record S3Info : Type := { i_key : str; i_size : Z; i_last_modified : str }.

(** A path the glob yields: its name, [str(path)], its MD5 and its size. *)
Record LocalPath : Type := { p_name : str; p_path : str; p_hash : str; p_size : Z }.

(** A value of [local_files]. *)
Record LocalInfo : Type := { l_path : str; l_hash : str; l_size : Z }.

(** A value of [sync_metadata], with the four entries [sync_folder] writes. *)
Record SyncEntry : Type :=
  { m_hash : str; m_size : Z; m_s3_key : str; m_last_synced : str }.

Inductive S3Call : Type :=
| upload_file : str -> str -> S3Call      (* path, key *)
| delete_object : str -> S3Call.          (* key *)

(** [s.endswith(suffix)] *)
Definition endswith (suffix s : str) : bool := startswith (rev suffix) (rev s).

(** [os.path.basename(p)] of [posixpath]: what follows the last slash. *)
Fixpoint basename_from (cur : str) (p : str) : str :=
  match p with
  | [] => rev cur
  | c :: r => if c =? 47 then basename_from [] r else basename_from (c :: cur) r
  end.

Definition basename (p : str) : str := basename_from [] p.

(** [del d[k]] for a key the dictionary holds. *)
Fixpoint remove {V : Type} (k : str) (d : list (str * V)) : list (str * V) :=
  match d with
  | [] => []
  | (k', v) :: r => if Py.eqb k k' then r else (k', v) :: remove k r
  end.

(** [get_s3_files], from the objects the paginator delivered. *)
Definition get_s3_files (listing : list S3Object) : list (str * S3Info) :=
  fold_left
    (fun s3_files obj =>
       let key := o_Key obj in
       if endswith (text ".pdf") key then
         Dict.set Py.eqb (basename key)
                  {| i_key := key; i_size := o_Size obj;
                     i_last_modified := o_LastModified obj |} s3_files
       else s3_files)
    listing [].

(** The first loop of [sync_folder]. *)
Definition local_files_of (paths : list LocalPath) : list (str * LocalInfo) :=
  fold_left
    (fun local_files p =>
       Dict.set Py.eqb (p_name p)
                {| l_path := p_path p; l_hash := p_hash p; l_size := p_size p |}
                local_files)
    paths [].

(** The variables of [sync_folder] that its loops update. *)
Record SyncState : Type := {
  uploaded : list str;
  skipped : list str;
  deleted : list str;
  sync_metadata : list (str * SyncEntry);
  calls : list S3Call }.

Section Sync.

Variable s3_prefix : str.
(** Whether the upload to a key, the deletion of a key, raises [ClientError]. *)
Variable upload_raises : str -> bool.
Variable delete_raises : str -> bool.
(** [datetime.now().isoformat()] when the cache entry of a file is written. *)
Variable now : str -> str.

(** Body of the upload loop. *)
Definition upload_step (s3_files : list (str * S3Info)) (st : SyncState)
           (item : str * LocalInfo) : SyncState :=
  let (filename, file_info) := item in
  let s3_key := s3_prefix ++ filename in
  let needs_upload :=
    if negb (Dict.mem Py.eqb filename s3_files) then true
    else match Dict.get Py.eqb filename (sync_metadata st) with
         | None => true
         | Some entry => negb (Py.eqb (m_hash entry) (l_hash file_info))
         end in
  if needs_upload then
    let st := {| uploaded := uploaded st; skipped := skipped st; deleted := deleted st;
                 sync_metadata := sync_metadata st;
                 calls := calls st ++ [upload_file (l_path file_info) s3_key] |} in
    if upload_raises s3_key then st
    else {| uploaded := uploaded st ++ [filename];
            skipped := skipped st; deleted := deleted st;
            sync_metadata :=
              Dict.set Py.eqb filename
                       {| m_hash := l_hash file_info; m_size := l_size file_info;
                          m_s3_key := s3_key; m_last_synced := now filename |}
                       (sync_metadata st);
            calls := calls st |}
  else {| uploaded := uploaded st; skipped := skipped st ++ [filename];
          deleted := deleted st; sync_metadata := sync_metadata st; calls := calls st |}.

(** Body of the deletion loop. *)
Definition delete_step (local_files : list (str * LocalInfo)) (st : SyncState)
           (item : str * S3Info) : SyncState :=
  let (filename, info) := item in
  if negb (Dict.mem Py.eqb filename local_files) then
    let s3_key := i_key info in
    let st := {| uploaded := uploaded st; skipped := skipped st; deleted := deleted st;
                 sync_metadata := sync_metadata st;
                 calls := calls st ++ [delete_object s3_key] |} in
    if delete_raises s3_key then st
    else {| uploaded := uploaded st; skipped := skipped st;
            deleted := deleted st ++ [filename];
            sync_metadata :=
              if Dict.mem Py.eqb filename (sync_metadata st)
              then remove filename (sync_metadata st) else sync_metadata st;
            calls := calls st |}
  else st.

(** [sync_folder]: the state when the cache is saved. *)
Definition sync_folder (cache : list (str * SyncEntry)) (listing : list S3Object)
           (paths : list LocalPath) : SyncState :=
  let s3_files := get_s3_files listing in
  let local_files := local_files_of paths in
  let st := {| uploaded := []; skipped := []; deleted := [];
               sync_metadata := cache; calls := [] |} in
  let st := fold_left (upload_step s3_files) local_files st in
  fold_left (delete_step local_files) s3_files st.

End Sync.

End s3_sync.

(** An oracle for calls that never raise. *)
Definition never (key : str) : bool := false.

(** The upload loop, after the names [done]. *)
Definition upload_inv (raises : str -> bool) (done : list str) (st : s3_sync.SyncState)
  : Prop :=
  (forall f, In f (s3_sync.uploaded st) \/ In f (s3_sync.skipped st) -> In f done)
  /\ (forall f, In f (s3_sync.uploaded st) -> In f (s3_sync.skipped st) -> False)
  /\ ((forall k, raises k = false) ->
      forall f, In f done -> In f (s3_sync.uploaded st) \/ In f (s3_sync.skipped st)).

(** A call that is no deletion, or the deletion of a key for which [P] holds. *)
Definition deletes_only (P : str -> Prop) (c : s3_sync.S3Call) : Prop :=
  match c with
  | s3_sync.delete_object k => P k
  | s3_sync.upload_file _ _ => True
  end.

(** A listed object that is a PDF file without a namesake in the folder. *)
Definition stale (listing : list s3_sync.S3Object) (paths : list s3_sync.LocalPath)
           (k : str) : Prop :=
  (exists obj, In obj listing /\ s3_sync.o_Key obj = k)
  /\ s3_sync.endswith (text ".pdf") k = true
  /\ ~ In (s3_sync.basename k) (map s3_sync.p_name paths).

(** A folder with one new file and a bucket with one stale object. *)
Definition one_path : list s3_sync.LocalPath :=
  [ {| s3_sync.p_name := text "a.pdf"; s3_sync.p_path := text "pdfs/a.pdf";
       s3_sync.p_hash := text "0cc175b9c0f1b6a831c399e269772661"; s3_sync.p_size := 1%Z |} ].

Definition one_listing : list s3_sync.S3Object :=
  [ {| s3_sync.o_Key := text "invoices/old.pdf"; s3_sync.o_Size := 7%Z;
       s3_sync.o_LastModified := text "2024-01-05T10:00:00" |} ].

(** The cache holds, for the names [done], the hash of the file of the folder. *)
Definition cache_current (local_files : list (str * s3_sync.LocalInfo))
           (cache : list (str * s3_sync.SyncEntry)) (done : list str) : Prop :=
  forall f info,
    In (f, info) local_files -> In f done ->
    exists entry, Dict.get Py.eqb f cache = Some entry
                  /\ s3_sync.m_hash entry = s3_sync.l_hash info.

Definition is_deletion (c : s3_sync.S3Call) : Prop :=
  match c with
  | s3_sync.delete_object _ => True
  | s3_sync.upload_file _ _ => False
  end.

(** The listing of the bucket once [a.pdf] is uploaded. *)
Definition synced_listing : list s3_sync.S3Object :=
  [ {| s3_sync.o_Key := text "invoices/a.pdf"; s3_sync.o_Size := 1%Z;
       s3_sync.o_LastModified := text "2024-01-06T10:00:00" |} ].

(* ------------------------------------------------------------------------- *)
(** ** The form and query extractors of [textract_client.py]

    [extract_forms], [extract_queries] and [_get_text_from_block] read two
    attributes of a block besides those of [Block]: the selection status of a
    SELECTION_ELEMENT block and the query of a QUERY block. *)

Module block_extractors.

(** [block['Query']] *)
Record QueryAttr : Type := { qa_Text : option str; qa_Alias : option str }.

Record FullBlock : Type := {
  core : Block;
  SelectionStatus : option str;
  Query : option QueryAttr }.

(** [next((b for b in blocks if b.get('Id') == child_id), None)] *)
Definition block_by_id (blocks : list FullBlock) (child_id : str) : option FullBlock :=
  find (fun b => Py.eqb (Id (core b)) child_id) blocks.

Definition is_type (ty : string) (b : FullBlock) : bool :=
  Py.eqb (BlockType (core b)) (text ty).

Definition _get_text_from_block (block : FullBlock) (blocks : list FullBlock) : str :=
  match Text (core block) with
  | Some t => t
  | None =>
      let t :=
        match Relationships (core block) with
        | Some rels =>
            fold_left
              (fun acc rel =>
                 if Py.eqb (r_Type rel) (text "CHILD") then
                   fold_left
                     (fun acc child_id =>
                        match block_by_id blocks child_id with
                        | Some child_block =>
                            if is_type "WORD" child_block then
                              acc ++ match Text (core child_block) with
                                     | Some w => w | None => [] end
                                  ++ text " "
                            else if is_type "SELECTION_ELEMENT" child_block then
                              match SelectionStatus child_block with
                              | Some status =>
                                  if Py.eqb status (text "SELECTED")
                                  then acc ++ text "X " else acc
                              | None => acc
                              end
                            else acc
                        | None => acc
                        end)
                     (r_Ids rel) acc
                 else acc)
              rels []
        | None => []
        end in
      strip t
  end.

(** The first id of a VALUE relationship that [value_map] holds. *)
Definition _find_value_block (key_block : FullBlock) (value_map : list (str * FullBlock))
  : option FullBlock :=
  match Relationships (core key_block) with
  | Some rels =>
      Shared.first_some
        (fun rel =>
           if Py.eqb (r_Type rel) (text "VALUE")
           then Shared.first_some (fun value_id => Dict.get Py.eqb value_id value_map)
                                  (r_Ids rel)
           else None)
        rels
  | None => None
  end.

(** ['KEY' in block.get('EntityTypes', [])] *)
Definition is_key (b : FullBlock) : bool :=
  match EntityTypes (core b) with
  | Some l => existsb (Py.eqb (text "KEY")) l
  | None => false
  end.

Definition confidence_of (b : FullBlock) : Q :=
  match Confidence (core b) with Some c => c | None => 0%Q end.

Definition extract_forms (blocks : list FullBlock) : list textract_client.Form :=
  let key_map :=
    fold_left (fun m b => if is_type "KEY_VALUE_SET" b && is_key b
                          then Dict.set Py.eqb (Id (core b)) b m else m) blocks [] in
  let value_map :=
    fold_left (fun m b => if is_type "KEY_VALUE_SET" b && negb (is_key b)
                          then Dict.set Py.eqb (Id (core b)) b m else m) blocks [] in
  flat_map
    (fun kb : str * FullBlock =>
       let key_block := snd kb in
       let value_block := _find_value_block key_block value_map in
       let key_text := _get_text_from_block key_block blocks in
       let value_text :=
         match value_block with
         | Some vb => _get_text_from_block vb blocks
         | None => []
         end in
       match key_text with
       | [] => []
       | _ => [ {| textract_client.f_key := key_text;
                   textract_client.f_value := value_text;
                   textract_client.f_confidence := confidence_of key_block |} ]
       end)
    key_map.

(** The loop over the ANSWER relationships: [(answer, confidence)]. *)
Definition answer_of (query_block : FullBlock) (blocks : list FullBlock) : str * Q :=
  match Relationships (core query_block) with
  | Some rels =>
      fold_left
        (fun acc rel =>
           if Py.eqb (r_Type rel) (text "ANSWER") then
             fold_left
               (fun acc answer_id =>
                  match block_by_id blocks answer_id with
                  | Some answer_block =>
                      (_get_text_from_block answer_block blocks, confidence_of answer_block)
                  | None => acc
                  end)
               (r_Ids rel) acc
           else acc)
        rels ([], 0%Q)
  | None => ([], 0%Q)
  end.

Definition extract_queries (blocks : list FullBlock) : list textract_client.QueryResult :=
  map (fun query_block =>
         let q := match Query query_block with
                  | Some qa => qa
                  | None => {| qa_Text := None; qa_Alias := None |}
                  end in
         let (answer, confidence) := answer_of query_block blocks in
         {| textract_client.q_query := match qa_Text q with Some t => t | None => [] end;
            textract_client.q_alias := match qa_Alias q with Some a => a | None => [] end;
            textract_client.q_answer := answer;
            textract_client.q_confidence := confidence |})
      (filter (is_type "QUERY") blocks).

End block_extractors.

(** A query block is unanswered when no id of its ANSWER relationships is the
    id of a block. *)
Definition unanswered (blocks : list block_extractors.FullBlock)
           (b : block_extractors.FullBlock) : Prop :=
  forall rels rel answer_id,
    Relationships (block_extractors.core b) = Some rels ->
    In rel rels -> Py.eqb (r_Type rel) (text "ANSWER") = true ->
    In answer_id (r_Ids rel) ->
    block_extractors.block_by_id blocks answer_id = None.

(** No child of the block is a selection element. *)
Definition no_selection_child (blocks : list block_extractors.FullBlock)
           (b : block_extractors.FullBlock) : Prop :=
  forall rels rel child_id child,
    Relationships (block_extractors.core b) = Some rels ->
    In rel rels -> In child_id (r_Ids rel) ->
    block_extractors.block_by_id blocks child_id = Some child ->
    block_extractors.is_type "SELECTION_ELEMENT" child = false.

(** A query block whose ANSWER relationship names a block that is missing, and
    a cell with two words. *)
Definition full (b : Block) : block_extractors.FullBlock :=
  {| block_extractors.core := b; block_extractors.SelectionStatus := None;
     block_extractors.Query := None |}.

Definition query_blocks : list block_extractors.FullBlock :=
  [ {| block_extractors.core :=
         {| Id := text "q1"; BlockType := text "QUERY"; Text := None; Confidence := None;
            Page := Some 1%Z; RowIndex := None; ColumnIndex := None; EntityTypes := None;
            Relationships :=
              Some [ {| r_Type := text "ANSWER"; r_Ids := [text "missing"] |} ] |};
       block_extractors.SelectionStatus := None;
       block_extractors.Query :=
         Some {| block_extractors.qa_Text := Some (text "What is the invoice number?");
                 block_extractors.qa_Alias := Some (text "Q3") |} |};
    full (cell_block "c3" 2 1 ["w3"; "w4"]%string);
    full (word_block "w3" "Consulting"); full (word_block "w4" "fee") ].

(** The results [process_single_document] assembles from the blocks, the
    layout aside. *)
Definition document_results (lay : textract_client.Layout)
           (blocks : list block_extractors.FullBlock) : textract_client.Results :=
  {| textract_client.layout := lay;
     textract_client.forms := block_extractors.extract_forms blocks;
     textract_client.tables :=
       textract_client.extract_tables (map block_extractors.core blocks);
     textract_client.queries := block_extractors.extract_queries blocks |}.






(* ========================================================================= *)
(** * Properties *)

(** ** Amount parser on the inputs of the specification *)

(** C1 (what the code computes).  The commas are removed before the dots are
    counted, so ["1.234,56"] becomes ["1.23456"], has a single dot and is read
    as 1.23456, not 1234.56; ["1.234.567"] gives 1234567 and ["45.00"] gives 45.
    Both amount parsers agree. *)
Theorem C1_clean_currency_text_values :
  utils.clean_currency_text loaded (text "1.234,56") = (ANum (dec 1.23456), [])
  /\ utils.clean_currency_text loaded (text "1.234.567") = (ANum (dec 1234567), [])
  /\ utils.clean_currency_text loaded (text "45.00") = (ANum (dec 45.00), [])
  /\ invoice_processor.clean_currency_text (text "1.234,56") = (ANum (dec 1.23456), [])
  /\ invoice_processor.clean_currency_text (text "1.234.567") = (ANum (dec 1234567), [])
  /\ invoice_processor.clean_currency_text (text "45.00") = (ANum (dec 45.00), [])
  /\ dec 1.23456 <> dec 1234.56.
Proof.
  repeat split; try (vm_compute; reflexivity).
  vm_compute. discriminate.
Qed.

(** C3 (what the code computes).  ["€ 1.250,00"] yields the currency ["€"], but
    the value 1.25: the comma is dropped first and the single dot left is read
    as the decimal point. *)
Theorem C3_euro_amount_value :
  let a := utils.parse_amount_with_currency loaded (text "€ 1.250,00") in
  currency a = text "€" /\ value a = ANum (dec 1.25) /\ value a <> ANum (dec 1250.0).
Proof.
  repeat split; try (vm_compute; reflexivity).
  vm_compute. discriminate.
Qed.

(** ** The end-to-end table *)

(** C2 (what the code computes).  The header cell ["Amount"] is matched by the
    quantity synonyms, which are tried before the amount synonyms and contain
    ["amount"]; the fourth column therefore overwrites [Quantity] with 1000 and
    no [Amount] entry is produced.  The summary row is dropped and one line
    item is returned. *)
Theorem C2_scenario_line_items :
  map (utils.match_header_enhanced loaded)
      (map text ["Description"; "Qty"; "Rate"; "Amount"]%string)
    = [Some description; Some quantity; Some unitprice; Some quantity]
  /\ textract_client.extract_line_items_from_tables loaded
       (textract_client.tables_dict_of [scenario_table])
     = Ok [ [ ("Description"%string, IStr (text "Consulting"));
              ("Quantity"%string, INum (dec 1000));
              ("UnitPrice"%string,
               IAmount {| value := ANum (dec 100.0); currency := [];
                          formatted := text "100.00" |}) ] ].
Proof.
  split; vm_compute; reflexivity.
Qed.

(** ** Unparsed amounts *)

(** The number pattern needs a digit. *)
Lemma no_digit_head s : no_digit s -> head_no_digit s.
Proof. destruct 1; simpl; auto. Qed.
Lemma run_d_none prev s cap k : head_no_digit s -> Re.run Re.d prev s cap k = None.
Proof. destruct s as [|c r]; simpl; [reflexivity|]. intros ->. reflexivity. Qed.
Lemma run_star_d_skip prev s cap k : head_no_digit s -> Re.run (Re.Star Re.d) prev s cap k = k prev s cap.
Proof. destruct s as [|c r]; simpl; [reflexivity|]. intros ->. reflexivity. Qed.
Lemma plus_none prev s cap k : head_no_digit s -> Re.run (Re.Plus Re.d) prev s cap k = None.
Proof. intros H. unfold Re.Plus. cbn [Re.run]. now apply run_d_none. Qed.
Lemma tail_none s prev cap k : no_digit s ->
  Re.run (Re.Cat (Re.Star Re.d) (Re.Cat (Re.Opt (Re.Chr false 46)) (Re.Cat (Re.Plus Re.d) Re.Eps))) prev s cap k = None.
Proof.
  intros H. change (Re.run (Re.Cat ?a ?b) prev s cap k) with (Re.run a prev s cap (fun p1 s1 c1 => Re.run b p1 s1 c1 k)).
  rewrite run_star_d_skip by now apply no_digit_head.
  unfold Re.Opt, Re.Chr. cbn [Re.run].
  rewrite (plus_none prev s) by now apply no_digit_head.
  destruct H as [|c r Hc Hr]; [reflexivity|].
  destruct (c =? 46); [|reflexivity].
  rewrite plus_none by now apply no_digit_head. reflexivity.
Qed.
Lemma run_opt_cat a b prev s cap k :
  Re.run (Re.Cat (Re.Opt a) b) prev s cap k
  = match Re.run a prev s cap (fun p1 s1 c1 => Re.run b p1 s1 c1 k) with
    | Some x => Some x
    | None => Re.run b prev s cap k
    end.
Proof. reflexivity. Qed.
Lemma run_set p prev c s cap k :
  Re.run (Re.Set_ p) prev (c :: s) cap k = if p c then k (Some c) s cap else None.
Proof. reflexivity. Qed.
Lemma number_none s prev cap k : no_digit s -> Re.run NUMBER prev s cap k = None.
Proof.
  intros H. unfold NUMBER, seq_re. cbn [fold_right].
  rewrite run_opt_cat, (tail_none s) by assumption.
  unfold Re.one_of. destruct H as [|c r Hc Hr]; [reflexivity|].
  rewrite run_set. destruct (existsb _ _); [|reflexivity].
  cbv beta. rewrite tail_none by assumption. reflexivity.
Qed.
Lemma search_number_none s : no_digit s -> forall prev, Re.search_from NUMBER prev s = None.
Proof.
  induction 1 as [|c r Hc Hr IH]; intros prev; cbn [Re.search_from].
  - unfold Re.match_at. rewrite number_none by constructor. reflexivity.
  - unfold Re.match_at. rewrite number_none by (constructor; assumption). apply IH.
Qed.

(** Cleaning a text introduces no character but the dot. *)
Section Chars.
Variable P : char -> Prop.
Lemma replace_from_Forall old new s : Forall P new -> Forall P s -> forall skip, Forall P (replace_from old new skip s).
Proof.
  intros Hn. induction 1 as [|c r Hc Hr IH]; intros skip; simpl; [constructor|].
  destruct skip; [|apply IH].
  destruct (startswith old (c :: r)); [apply Forall_app; split; [exact Hn|apply IH]|constructor; [exact Hc|apply IH]].
Qed.
Lemma replace_Forall old s : Forall P s -> Forall P (replace old [] s).
Proof.
  intros H. unfold replace. destruct old.
  - simpl. induction H; simpl; constructor; assumption.
  - apply replace_from_Forall; [constructor|exact H].
Qed.
Lemma lstrip_Forall s : Forall P s -> Forall P (lstrip s).
Proof. induction 1 as [|c r Hc Hr IH]; simpl; [constructor|]. destruct (isspace c); [exact IH|now constructor]. Qed.
Lemma strip_Forall s : Forall P s -> Forall P (strip s).
Proof.
  intros H. unfold strip, rstrip. apply Forall_rev, lstrip_Forall, Forall_rev, lstrip_Forall, H.
Qed.
Lemma split_from_Forall sep s : Forall P s -> forall skip cur, Forall P cur -> Forall (Forall P) (split_from sep skip cur s).
Proof.
  induction 1 as [|c r Hc Hr IH]; intros skip cur Hcur; simpl.
  - constructor; [now apply Forall_rev|constructor].
  - destruct skip; [|now apply IH].
    destruct (startswith sep (c :: r)).
    + constructor; [now apply Forall_rev|apply IH; constructor].
    + apply IH. now constructor.
Qed.
Lemma join_Forall sep parts : Forall P sep -> Forall (Forall P) parts -> Forall P (join sep parts).
Proof.
  intros Hs. induction 1 as [|p ps Hp Hps IH]; simpl; [constructor|].
  destruct ps; [exact Hp|]. apply Forall_app; split; [exact Hp|]. apply Forall_app; split; [exact Hs|exact IH].
Qed.
Lemma last_Forall {A} (Q : A -> Prop) l d : Forall Q l -> Q d -> Q (last l d).
Proof. induction 1 as [|x r Hx Hr IH]; simpl; [auto|]. intros Hd. destruct r; [exact Hx|now apply IH]. Qed.
Lemma removelast_Forall {A} (Q : A -> Prop) l : Forall Q l -> Forall Q (removelast l).
Proof. induction 1 as [|x r Hx Hr IH]; simpl; [constructor|]. destruct r; [constructor|now constructor]. Qed.
Lemma european_dots_Forall s : P 46 -> Forall P s -> Forall P (european_dots s).
Proof.
  intros Hdot H. unfold european_dots.
  destruct (_ && _); [|exact H].
  assert (Hparts : Forall (Forall P) (split (text ".") s)) by (apply split_from_Forall; [exact H|constructor]).
  destruct (_ =? _)%nat.
  - apply Forall_app; split; [apply join_Forall; [constructor|now apply removelast_Forall]|].
    apply Forall_app; split; [repeat constructor; exact Hdot|].
    apply last_Forall; [exact Hparts|constructor].
  - now apply replace_Forall.
Qed.
End Chars.

Lemma fold_replace_Forall (P : char -> Prop) (symbols : list str) :
  forall s, Forall P s ->
            Forall P (fold_left (fun c symbol => replace symbol [] c) symbols s).
Proof.
  induction symbols as [|x r IH]; intros s H; simpl; [exact H|].
  apply IH. now apply replace_Forall.
Qed.

Lemma first_number_none (s : str) : no_digit s -> first_number s = None.
Proof.
  intros H. unfold first_number, Re.search. now rewrite search_number_none.
Qed.

Lemma digit_free_text_has_no_number (g : Tables) (t : str) :
  ascii_text t -> no_digit t ->
  is_number (fst (utils.clean_currency_text g t)) = false
  /\ is_number (fst (invoice_processor.clean_currency_text t)) = false.
Proof.
  intros _ H. split.
  - unfold utils.clean_currency_text. destruct t as [|c r] eqn:E; [reflexivity|].
    rewrite <- E in *. rewrite first_number_none; [reflexivity|].
    apply european_dots_Forall; [reflexivity|].
    apply strip_Forall, replace_Forall, fold_replace_Forall, H.
  - unfold invoice_processor.clean_currency_text. destruct t as [|c r] eqn:E; [reflexivity|].
    rewrite <- E in *. rewrite first_number_none; [reflexivity|].
    apply european_dots_Forall; [reflexivity|].
    apply strip_Forall. repeat apply replace_Forall. exact H.
Qed.

(** C4 as stated fails: the euro sign of ["€ abc"] is detected but the parser
    reports the empty currency. *)
Lemma C4_counterexample :
  ~ failure_clause_as_stated (CURRENCY_SYMBOLS loaded) (utils.clean_currency_text loaded)
      (utils.parse_amount_with_currency loaded) (text "€ abc").
Proof.
  intros H.
  destruct H as (_ & Hc & _).
  - vm_compute; discriminate.
  - vm_compute; reflexivity.
  - vm_compute in Hc. discriminate.
Qed.

(** C4 (amended).  For every non-empty text from which no number is extracted,
    the parser returns the text itself as value and as formatted string, and
    the empty currency, in both pipelines; an ASCII text without a digit is
    such a text (outside ASCII Python's [\d] has further digits, which the
    embedding does not have). *)
Theorem C4_unparsed_amount_echoes_text :
  forall t : str,
    t <> [] ->
    (is_number (fst (utils.clean_currency_text loaded t)) = false ->
     utils.parse_amount_with_currency loaded t
       = {| value := AText t; currency := []; formatted := t |})
    /\ (is_number (fst (invoice_processor.clean_currency_text t)) = false ->
        invoice_processor.parse_amount_with_currency t
          = {| value := AText t; currency := []; formatted := t |})
    /\ (ascii_text t -> no_digit t ->
        is_number (fst (utils.clean_currency_text loaded t)) = false
        /\ is_number (fst (invoice_processor.clean_currency_text t)) = false).
Proof.
  intros t Ht.
  split; [|split]; [intros Hn|intros Hn|apply digit_free_text_has_no_number].
  - unfold utils.parse_amount_with_currency.
    destruct t as [|c r]; [congruence|].
    destruct (utils.clean_currency_text loaded (c :: r)) as [v cur].
    destruct v; simpl in Hn; try discriminate; reflexivity.
  - unfold invoice_processor.parse_amount_with_currency.
    destruct t as [|c r]; [congruence|].
    destruct (invoice_processor.clean_currency_text (c :: r)) as [v cur].
    destruct v; simpl in Hn; try discriminate; reflexivity.
Qed.

Lemma C4_unparsed_amount_witness :
  utils.parse_amount_with_currency loaded (text "€ abc")
    = {| value := AText (text "€ abc"); currency := []; formatted := text "€ abc" |}.
Proof.
  apply (C4_unparsed_amount_echoes_text (text "€ abc")).
  - vm_compute; discriminate.
  - vm_compute; reflexivity.
Defined.

(** ** Header detection *)

Lemma key_lt_false (m x : Shared.candidate) :
  Shared.key_lt m x = false <->
  (Shared.c_count x <= Shared.c_count m
   /\ (Shared.c_count x = Shared.c_count m -> Shared.c_idx m <= Shared.c_idx x))%nat.
Proof.
  unfold Shared.key_lt.
  rewrite orb_false_iff, andb_false_iff, !Nat.ltb_ge, Nat.eqb_neq.
  lia.
Qed.

Lemma key_lt_true (m x : Shared.candidate) :
  Shared.key_lt m x = true <->
  (Shared.c_count m < Shared.c_count x
   \/ (Shared.c_count m = Shared.c_count x /\ Shared.c_idx x < Shared.c_idx m))%nat.
Proof.
  unfold Shared.key_lt.
  rewrite orb_true_iff, andb_true_iff, !Nat.ltb_lt, Nat.eqb_eq.
  tauto.
Qed.

(** [max] returns an element of the list that no element exceeds. *)
Lemma max_from_greatest (l : list Shared.candidate) :
  forall cur,
    In (Shared.max_from cur l) (cur :: l)
    /\ forall x, In x (cur :: l) -> Shared.key_lt (Shared.max_from cur l) x = false.
Proof.
  induction l as [|y r IH]; intros cur; simpl.
  - split; [now left|].
    intros x [<-|[]]. apply key_lt_false. lia.
  - destruct (IH (if Shared.key_lt cur y then y else cur)) as [Hin Hmax].
    split.
    + destruct Hin as [Heq|Hin]; [|now right; right].
      rewrite <- Heq. destruct (Shared.key_lt cur y); [right; now left|now left].
    + intros x Hx.
      assert (Hsel : Shared.key_lt (Shared.max_from (if Shared.key_lt cur y then y else cur) r)
                                   (if Shared.key_lt cur y then y else cur) = false)
        by (apply Hmax; now left).
      destruct Hx as [<-|[<-|Hx]].
      * destruct (Shared.key_lt cur y) eqn:E; [|exact Hsel].
        apply key_lt_true in E. apply key_lt_false in Hsel. apply key_lt_false. lia.
      * destruct (Shared.key_lt cur y) eqn:E; [exact Hsel|].
        apply key_lt_false in E. apply key_lt_false in Hsel. apply key_lt_false. lia.
      * apply Hmax. now right.
Qed.

(** The candidates of the first pass are the rows among the first four with at
    least two matched cells. *)
Lemma potential_headers_spec (cfg : Tables) (rows : list (list str)) (c : Shared.candidate) :
  In c (Shared.potential_headers cfg rows) <->
  (Shared.c_idx c < Nat.min 4 (length rows))%nat
  /\ Shared.c_headers c
     = map (Shared.match_header_enhanced cfg) (nth (Shared.c_idx c) rows [])
  /\ Shared.c_count c = Shared.match_count (Shared.c_headers c)
  /\ (2 <= Shared.c_count c)%nat.
Proof.
  unfold Shared.potential_headers. rewrite in_flat_map. split.
  - intros (i & Hi & Hc). apply in_seq in Hi.
    destruct (2 <=? _)%nat eqn:E; [|destruct Hc].
    destruct Hc as [<-|[]]. apply Nat.leb_le in E.
    unfold Shared.c_idx, Shared.c_headers, Shared.c_count; cbn [fst snd].
    repeat split; try tauto; lia.
  - destruct c as [[i hm] n].
    unfold Shared.c_idx, Shared.c_headers, Shared.c_count; cbn [fst snd].
    intros (Hi & -> & -> & H2).
    exists i. split; [apply in_seq; lia|].
    apply Nat.leb_le in H2. cbv zeta. rewrite H2. now left.
Qed.

(** C7.  When some row among the first four reaches two matched cells, the
    header chosen is such a row, no qualifying row has more matched cells, and
    every qualifying row with as many matched cells has a greater or equal row
    index. *)
Theorem C7_header_most_matches_then_earliest :
  forall (cfg : Tables) (rows : list (list str)),
    let count := fun i =>
      Shared.match_count (map (Shared.match_header_enhanced cfg) (nth i rows [])) in
    Shared.potential_headers cfg rows <> [] ->
    exists c,
      Shared.choose_header cfg rows = Some c
      /\ (Shared.c_idx c < Nat.min 4 (length rows))%nat
      /\ Shared.c_headers c
         = map (Shared.match_header_enhanced cfg) (nth (Shared.c_idx c) rows [])
      /\ Shared.c_count c = count (Shared.c_idx c)
      /\ (2 <= count (Shared.c_idx c))%nat
      /\ forall j, (j < Nat.min 4 (length rows))%nat -> (2 <= count j)%nat ->
           (count j <= count (Shared.c_idx c))%nat
           /\ (count j = count (Shared.c_idx c) -> Shared.c_idx c <= j)%nat.
Proof.
  intros cfg rows count Hne.
  unfold Shared.choose_header.
  destruct (Shared.potential_headers cfg rows) as [|x r] eqn:E; [congruence|].
  exists (Shared.max_from x r).
  destruct (max_from_greatest r x) as [Hin Hmax].
  rewrite <- E in Hin.
  pose proof (proj1 (potential_headers_spec cfg rows _) Hin) as (Hi & Hh & Hc & H2).
  assert (Hcount : Shared.c_count (Shared.max_from x r) = count (Shared.c_idx (Shared.max_from x r))).
  { rewrite Hc, Hh. reflexivity. }
  repeat split; try assumption.
  - rewrite <- Hcount. exact H2.
  - rewrite <- Hcount.
    pose (cj := (j, map (Shared.match_header_enhanced cfg) (nth j rows []), count j)
                : Shared.candidate).
    assert (Hj : In cj (x :: r)).
    { rewrite <- E. apply potential_headers_spec. subst cj.
      unfold Shared.c_idx, Shared.c_headers, Shared.c_count; cbn [fst snd].
      repeat split; assumption. }
    apply Hmax, key_lt_false in Hj. subst cj.
    unfold Shared.c_idx, Shared.c_count in Hj; cbn [fst snd] in Hj. tauto.
  - rewrite <- Hcount.
    pose (cj := (j, map (Shared.match_header_enhanced cfg) (nth j rows []), count j)
                : Shared.candidate).
    assert (Hj : In cj (x :: r)).
    { rewrite <- E. apply potential_headers_spec. subst cj.
      unfold Shared.c_idx, Shared.c_headers, Shared.c_count; cbn [fst snd].
      repeat split; assumption. }
    apply Hmax, key_lt_false in Hj. subst cj.
    unfold Shared.c_idx, Shared.c_count in Hj; cbn [fst snd] in Hj. tauto.
Qed.

Lemma C7_tie_break_witness :
  exists c, Shared.choose_header loaded tie_rows = Some c /\ Shared.c_idx c = 1%nat.
Proof.
  destruct (C7_header_most_matches_then_earliest loaded tie_rows) as (c & Hc & _).
  - vm_compute; discriminate.
  - exists c. split; [exact Hc|].
    vm_compute in Hc. injection Hc as <-. reflexivity.
Defined.

(** ** Invoice total: table tier against key-value tier *)

Lemma insert_desc_In {A : Type} (x y : A * Z) (l : list (A * Z)) :
  In y (Shared.insert_desc x l) <-> y = x \/ In y l.
Proof.
  induction l as [|z r IH]; simpl.
  - intuition congruence.
  - destruct (snd x <? snd z)%Z; simpl; rewrite ?IH; intuition congruence.
Qed.

Lemma sort_desc_In {A : Type} (y : A * Z) (l : list (A * Z)) :
  In y (Shared.sort_desc l) <-> In y l.
Proof.
  induction l as [|x r IH]; simpl; [tauto|].
  rewrite insert_desc_In, IH. intuition congruence.
Qed.

Lemma insert_desc_head_max {A : Type} (x : A * Z) (l : list (A * Z)) :
  head_max l -> head_max (Shared.insert_desc x l).
Proof.
  destruct l as [|z r]; simpl.
  - intros _ c [<-|[]]. lia.
  - intros H. destruct (snd x <? snd z)%Z eqn:E.
    + apply Z.ltb_lt in E. intros c [<-|Hc]; [lia|].
      apply insert_desc_In in Hc. destruct Hc as [->|Hc]; [lia|].
      apply H. now right.
    + apply Z.ltb_ge in E. intros c [<-|Hc]; [lia|].
      specialize (H c Hc). lia.
Qed.

Lemma sort_desc_head_max {A : Type} (l : list (A * Z)) : head_max (Shared.sort_desc l).
Proof.
  induction l as [|x r IH]; simpl; [exact I|].
  now apply insert_desc_head_max.
Qed.

(** C5.  In the scenario the key-value candidate has priority 14 and the best
    table candidate 25, so the table candidate wins and the total is 1000,
    whatever the document text.  In general the table tier either leaves the
    running best as it is, or installs a table candidate of greatest priority
    whose priority is strictly above the running one; it leaves it when no
    table candidate is strictly above. *)
Theorem C5_table_total_needs_strictly_greater_priority :
  (snd (Shared.tier_kv loaded (utils.parse_amount_with_currency loaded) scenario_kv) = 14%Z
   /\ option_map snd
        (hd_error (Shared.sort_desc
                     (Shared.table_candidates loaded (utils.parse_amount_with_currency loaded)
                                              scenario_totals))) = Some 25%Z
   /\ (forall all_text,
         value (utils.find_invoice_total loaded scenario_kv scenario_totals all_text)
           = ANum (dec 1000.0))
   /\ (forall all_text,
         value (invoice_processor.find_invoice_total scenario_kv scenario_totals all_text)
           = ANum (dec 1000.0)))
  /\ forall (cfg : Tables) (parse : str -> Amount) (st : Shared.best)
            (table_totals : list (str * str)),
       let cands := Shared.table_candidates cfg parse table_totals in
       (Shared.tier_table cfg parse st table_totals = st
        \/ exists b, In b cands
                     /\ (snd st < snd b)%Z
                     /\ (forall c, In c cands -> (snd c <= snd b)%Z)
                     /\ Shared.tier_table cfg parse st table_totals = (Some (fst b), snd b))
       /\ ((forall c, In c cands -> (snd c <= snd st)%Z) ->
           Shared.tier_table cfg parse st table_totals = st).
Proof.
  split.
  - repeat split; try (intros; vm_compute; reflexivity).
  - intros cfg parse st tt cands. unfold Shared.tier_table. fold cands.
    pose proof (sort_desc_head_max cands) as Hmax.
    destruct (Shared.sort_desc cands) as [|b r] eqn:E; [split; [now left|reflexivity]|].
    assert (Hb : In b cands) by (apply sort_desc_In; rewrite E; now left).
    unfold head_max in Hmax.
    split.
    + destruct (snd st <? snd b)%Z eqn:L; [|now left].
      right. exists b. apply Z.ltb_lt in L. repeat split; try assumption.
      intros c Hc. apply Hmax. rewrite <- E. now apply sort_desc_In.
    + intros Hle. specialize (Hle b Hb).
      destruct (snd st <? snd b)%Z eqn:L; [|reflexivity].
      apply Z.ltb_lt in L. lia.
Qed.

Lemma C5_equal_priority_keeps_key_value_total :
  let st := Shared.tier_kv loaded (utils.parse_amount_with_currency loaded) scenario_kv in
  let tt := [(text "net 9 total incl. vat", text "net 9 total incl. vat")] in
  Shared.tier_table loaded (utils.parse_amount_with_currency loaded) st tt = st.
Proof.
  intros st tt.
  apply (proj2 C5_table_total_needs_strictly_greater_priority).
  intros c Hc. vm_compute in Hc.
  repeat (destruct Hc as [<-|Hc]; [vm_compute; discriminate|]).
  destruct Hc.
Defined.

(** ** Dictionaries *)

Lemma dict_get_set {K V : Type} (keq : K -> K -> bool)
      (keq_spec : forall a b, keq a b = true <-> a = b)
      (k k' : K) (v : V) (d : list (K * V)) :
  Dict.get keq k (Dict.set keq k' v d) = if keq k k' then Some v else Dict.get keq k d.
Proof.
  induction d as [|[k0 v0] r IH]; simpl.
  - reflexivity.
  - destruct (keq k' k0) eqn:E; simpl.
    + apply keq_spec in E. subst k0. destruct (keq k k'); reflexivity.
    + destruct (keq k k0) eqn:E0; [|exact IH].
      apply keq_spec in E0. subst k0.
      destruct (keq k k') eqn:E1; [|reflexivity].
      apply keq_spec in E1. subst k'.
      assert (keq k k = true) by now apply keq_spec. congruence.
Qed.

Lemma item_get_set (k k' : string) (v : item_value) (li : LineItem) :
  item_get k (item_set k' v li) = if String.eqb k k' then Some v else item_get k li.
Proof. apply dict_get_set, String.eqb_eq. Qed.

(** ** Duplicate column roles *)

Lemma first_some_app {A B : Type} (f : A -> option B) (l1 l2 : list A) :
  Shared.first_some f (l1 ++ l2)
  = match Shared.first_some f l1 with
    | Some b => Some b
    | None => Shared.first_some f l2
    end.
Proof.
  induction l1 as [|a r IH]; simpl; [reflexivity|].
  destruct (f a); [reflexivity|exact IH].
Qed.

Lemma skipn_nth_error_some {A : Type} (l : list A) (i : nat) (a : A) :
  nth_error l i = Some a -> skipn i l = a :: skipn (S i) l.
Proof.
  revert i. induction l as [|x r IH]; intros [|i]; simpl; try discriminate.
  - now intros [= ->].
  - intros H. rewrite (IH _ H). reflexivity.
Qed.

Lemma skipn_nth_error_none {A : Type} (l : list A) (i : nat) :
  nth_error l i = None -> skipn i l = [] /\ skipn (S i) l = [].
Proof.
  intros H. apply nth_error_None in H.
  split; apply skipn_all2; lia.
Qed.

Lemma rightmost_cons (parse : str -> Amount) (fld : field) (h : option field)
      (hs : list (option field)) (cell : str) (rest : list str) :
  rightmost parse fld (h :: hs) (cell :: rest)
  = match rightmost parse fld hs rest with
    | Some v => Some v
    | None => contribution parse fld (h, cell)
    end.
Proof.
  unfold rightmost. simpl. rewrite first_some_app. simpl.
  destruct (Shared.first_some _ _); [reflexivity|].
  destruct (contribution parse fld (h, cell)); reflexivity.
Qed.

(** The cell loop, when it ends with meaningful data, has stored for every
    role the rightmost contribution of the columns it went through, and kept
    the entries it started with for the roles without contribution. *)
Lemma cells_rightmost (cfg : Tables) (parse : str -> Amount) (headers : list (option field)) :
  forall (row : list str) (i : nat) (li : LineItem) (has : bool) (li' : LineItem),
    Shared.cells cfg parse headers i row li has = (li', true) ->
    forall fld,
      item_get (key_of fld) li'
      = match rightmost parse fld (skipn i headers) row with
        | Some v => Some v
        | None => item_get (key_of fld) li
        end.
Proof.
  induction row as [|cell rest IH]; intros i li has li' H fld.
  - simpl in H. injection H as <- _.
    unfold rightmost. rewrite combine_nil. reflexivity.
  - simpl in H.
    destruct (nth_error headers i) as [h|] eqn:Hn.
    + rewrite (skipn_nth_error_some _ _ _ Hn), rightmost_cons.
      unfold contribution; cbn [fst snd].
      destruct h as [f|];
        [destruct (strip cell) as [|c0 cr] eqn:Hs;
         [|destruct f;
           [destruct (any_in (SUMMARY_INDICATORS cfg) (lower (c0 :: cr))); [discriminate|]
           |destruct (value (parse (c0 :: cr))) eqn:Hv;
            [destruct (float (c0 :: cr)) eqn:Hf
            |destruct (float (c0 :: cr)) eqn:Hf
            |]
           | | ]]|];
        rewrite (IH _ _ _ _ H fld), ?item_get_set;
        (destruct (rightmost parse fld (skipn (S i) headers) rest); [reflexivity|]);
        try reflexivity;
        try (destruct fld; reflexivity);
        destruct (strip cell); reflexivity.
    + destruct (skipn_nth_error_none _ _ Hn) as [E0 E1].
      rewrite (IH _ _ _ _ H fld), E0, E1.
      unfold rightmost. simpl. reflexivity.
Qed.

(** C10.  In an emitted line item, the entry of every role is the contribution
    of the rightmost column with that role whose cell is not blank (and, for
    the quantity, parses to a number); contributions of earlier columns with
    the same role are overwritten, and a role without contribution has no
    entry. *)
Theorem C10_duplicate_role_keeps_rightmost :
  forall (cfg : Tables) (parse : str -> Amount)
         (headers : list (option field)) (row : list str) (line_item : LineItem),
    Shared.row_item cfg parse headers row = Some line_item ->
    forall fld, item_get (key_of fld) line_item = rightmost parse fld headers row.
Proof.
  intros cfg parse headers row li H fld.
  unfold Shared.row_item in H.
  destruct (negb _); [discriminate|].
  destruct (Shared.is_summary_row cfg row); [discriminate|].
  destruct (Shared.cells cfg parse headers 0 row [] false) as [li' has] eqn:E.
  destruct has; [|discriminate].
  injection H as <-.
  rewrite (cells_rightmost _ _ _ _ _ _ _ _ E fld). simpl.
  destruct (rightmost parse fld headers row); reflexivity.
Qed.

Lemma C10_duplicate_quantity_witness :
  item_get "Quantity" dup_item
  = rightmost (utils.parse_amount_with_currency loaded) quantity dup_headers dup_row.
Proof.
  refine (C10_duplicate_role_keeps_rightmost loaded (utils.parse_amount_with_currency loaded)
            dup_headers dup_row dup_item _ quantity).
  vm_compute; reflexivity.
Defined.

(** ** Query answers *)

Lemma py_eqb_eq (a b : str) : Py.eqb a b = true <-> a = b.
Proof.
  revert b. induction a as [|x a IH]; intros [|y b]; simpl;
    try (split; [discriminate|congruence]); [tauto|].
  rewrite andb_true_iff, N.eqb_eq, IH. split; [intros [-> ->]; reflexivity|].
  intros [= -> ->]. tauto.
Qed.

Lemma nonempty_true (x : str) : Shared.nonempty x = true <-> x <> [].
Proof. destruct x; simpl; split; congruence. Qed.

Lemma rec_get_set (k k' : string) (v : field_value) (r : InvoiceRecord) :
  rec_get k (rec_set k' v r) = if String.eqb k k' then Some v else rec_get k r.
Proof. apply dict_get_set, String.eqb_eq. Qed.

(** Two recognised questions with the same field are the same question. *)
Lemma query_map_injective (x y : str) (key : string) :
  Dict.get Py.eqb x textract_client.query_map = Some key ->
  Dict.get Py.eqb y textract_client.query_map = Some key ->
  x = y.
Proof.
  unfold textract_client.query_map. simpl.
  repeat match goal with
         | |- context [Py.eqb ?a ?b] =>
             let E := fresh "E" in
             destruct (Py.eqb a b) eqn:E; [apply py_eqb_eq in E|]
         end;
    intros [= <-]; try discriminate; intros _; congruence.
Qed.

(** A query about another question leaves the field alone. *)
Lemma override_other (g : Tables) (key : string) (q : str)
      (parsed : InvoiceRecord) (query : textract_client.QueryResult) :
  Dict.get Py.eqb q textract_client.query_map = Some key ->
  textract_client.q_query query <> q ->
  rec_get key (textract_client.override g parsed query) = rec_get key parsed.
Proof.
  intros Hk Hne. unfold textract_client.override.
  destruct (Dict.get Py.eqb (textract_client.q_query query) textract_client.query_map)
    as [key'|] eqn:Hk'; [|reflexivity].
  assert (Hkey : String.eqb key key' = false).
  { apply String.eqb_neq. intros ->. apply Hne.
    exact (query_map_injective _ _ _ Hk' Hk). }
  destruct (Shared.nonempty _); [|reflexivity].
  destruct (Py.eqb _ _).
  - destruct (is_number _); [|reflexivity]. now rewrite rec_get_set, Hkey.
  - now rewrite rec_get_set, Hkey.
Qed.

Lemma fold_override_other (g : Tables) (key : string) (q : str)
      (l : list textract_client.QueryResult) :
  Dict.get Py.eqb q textract_client.query_map = Some key ->
  (forall q', In q' l -> textract_client.q_query q' <> q) ->
  forall parsed,
    rec_get key (fold_left (textract_client.override g) l parsed) = rec_get key parsed.
Proof.
  intros Hk. induction l as [|x r IH]; intros Hl parsed; simpl; [reflexivity|].
  rewrite IH by (intros q' Hq'; apply Hl; now right).
  apply override_other with (q := q); [exact Hk|]. apply Hl. now left.
Qed.

(** The record is the one computed without queries, run through the query loop. *)
Lemma parse_extracted_data_queries (g : Tables) (results : textract_client.Results)
      (r : InvoiceRecord) :
  textract_client.parse_extracted_data g results = Ok r ->
  exists r0,
    textract_client.parse_extracted_data g (without_queries results) = Ok r0
    /\ r = fold_left (textract_client.override g) (textract_client.queries results) r0.
Proof.
  unfold textract_client.parse_extracted_data, without_queries, textract_client.all_text_of.
  cbn [textract_client.layout textract_client.forms textract_client.tables
       textract_client.queries].
  destruct (textract_client.extract_line_items_from_tables g _) as [items|e];
    cbn [Exc.bind fold_left]; [|discriminate].
  intros [= <-]. eexists. split; reflexivity.
Qed.

(** C6.  Let a query entry ask a recognised question and carry a non-empty
    answer, and let no later entry ask the same question.  Whatever its
    confidence and whatever the heuristics found: for the three text fields the
    answer is the field of the record; for the total-amount question the field
    is the parsed answer when the answer parses to a number, and stays what it
    is without the queries when it does not (no earlier entry asking it). *)
Theorem C6_query_answer_overrides_heuristics :
  forall (g : Tables) (results : textract_client.Results) (r : InvoiceRecord)
         (pre post : list textract_client.QueryResult) (q : textract_client.QueryResult)
         (key : string),
    textract_client.parse_extracted_data g results = Ok r ->
    textract_client.queries results = pre ++ q :: post ->
    Dict.get Py.eqb (textract_client.q_query q) textract_client.query_map = Some key ->
    textract_client.q_answer q <> [] ->
    (forall q', In q' post -> textract_client.q_query q' <> textract_client.q_query q) ->
    (textract_client.q_query q <> text "What is the total amount?" ->
     rec_get key r = Some (FStr (textract_client.q_answer q)))
    /\ (textract_client.q_query q = text "What is the total amount?" ->
        let a := utils.parse_amount_with_currency g (textract_client.q_answer q) in
        (is_number (value a) = true -> rec_get key r = Some (FAmount a))
        /\ (is_number (value a) = false ->
            (forall q', In q' pre ->
                        textract_client.q_query q' <> textract_client.q_query q) ->
            exists r0,
              textract_client.parse_extracted_data g (without_queries results) = Ok r0
              /\ rec_get key r = rec_get key r0)).
Proof.
  intros g results r pre post q key Hr Hq Hk Ha Hpost.
  destruct (parse_extracted_data_queries _ _ _ Hr) as (r0 & Hr0 & ->).
  rewrite Hq, fold_left_app. cbn [fold_left].
  rewrite (fold_override_other g key _ post Hk Hpost).
  apply nonempty_true in Ha.
  split.
  - intros Hnt. unfold textract_client.override. rewrite Hk, Ha.
    destruct (Py.eqb _ _) eqn:E; [apply py_eqb_eq in E; contradiction|].
    rewrite rec_get_set, String.eqb_refl. reflexivity.
  - intros Ht. split.
    + intros Hn. unfold textract_client.override. rewrite Hk, Ha.
      destruct (Py.eqb _ _) eqn:E; [|apply (proj2 (py_eqb_eq _ _)) in Ht; congruence].
      rewrite Hn, rec_get_set, String.eqb_refl. reflexivity.
    + intros Hn Hpre. exists r0. split; [exact Hr0|].
      unfold textract_client.override. rewrite Hk, Ha.
      destruct (Py.eqb _ _) eqn:E; [|apply (proj2 (py_eqb_eq _ _)) in Ht; congruence].
      rewrite Hn.
      exact (fold_override_other g key _ pre Hk Hpre r0).
Qed.

Lemma C6_invoice_number_override_witness :
  textract_client.parse_extracted_data loaded (without_queries override_results)
    = Ok (rec_set "InvoiceNumber" (FStr (text "INV-0001"))
                  initial_record)
  /\ forall r, textract_client.parse_extracted_data loaded override_results = Ok r ->
               rec_get "InvoiceNumber" r = Some (FStr (text "INV-9999")).
Proof.
  split; [vm_compute; reflexivity|].
  intros r Hr.
  refine (proj1 (C6_query_answer_overrides_heuristics loaded override_results r []
                   [] (hd (textract_client.Build_QueryResult [] [] [] 0)
                          (textract_client.queries override_results))
                   "InvoiceNumber" Hr _ _ _ _) _).
  - reflexivity.
  - vm_compute; reflexivity.
  - vm_compute; discriminate.
  - intros q' [].
  - vm_compute; discriminate.
Defined.

(** ** Extraction always returns a record with the five keys *)

Lemma dict_set_keys {K V : Type} (keq : K -> K -> bool)
      (keq_refl : forall a, keq a a = true)
      (k : K) (v : V) (d : list (K * V)) :
  In k (Dict.keys d) -> Dict.keys (Dict.set keq k v d) = Dict.keys d.
Proof.
  induction d as [|[k0 v0] r IH]; simpl; [tauto|].
  intros [->|Hin].
  - now rewrite keq_refl.
  - destruct (keq k k0); simpl; [reflexivity|]. now rewrite IH.
Qed.

Lemma rec_set_keys (k : string) (v : field_value) (r : InvoiceRecord) :
  In k (Dict.keys r) -> Dict.keys (rec_set k v r) = Dict.keys r.
Proof. apply dict_set_keys, String.eqb_refl. Qed.

Lemma mapM_ok {A B : Type} (f : A -> res B) (l : list A) :
  (forall a, In a l -> exists b, f a = Ok b) -> exists bs, Exc.mapM f l = Ok bs.
Proof.
  induction l as [|a r IH]; intros H; simpl; [now eexists|].
  destruct (H a (or_introl eq_refl)) as [b ->].
  destruct IH as [bs ->]; [intros; apply H; now right|].
  simpl. now eexists.
Qed.

Lemma foldM_ok {A B : Type} (P : A -> Prop) (f : A -> B -> res A) (l : list B) :
  (forall a b, In b l -> P a -> exists a', f a b = Ok a' /\ P a') ->
  forall a, P a -> exists a', Exc.foldM f l a = Ok a' /\ P a'.
Proof.
  induction l as [|b r IH]; intros H a Ha; simpl; [now exists a|].
  destruct (H a b (or_introl eq_refl) Ha) as (a1 & -> & Ha1). simpl.
  apply IH; [|exact Ha1]. intros; apply H; [now right|assumption].
Qed.

(** A page all of whose rows have at least one column is processed without
    exception. *)
Lemma page_items_ok (cfg : Tables) (parse : str -> Amount) (rows_dict : RowsDict) :
  (forall rd, In rd rows_dict -> snd rd <> []) ->
  exists items, Shared.page_items cfg parse rows_dict = Ok items.
Proof.
  intros H. unfold Shared.page_items.
  destruct rows_dict as [|rd0 rest] eqn:E; [now eexists|]. rewrite <- E in *.
  assert (Hm : exists m, Shared.max_cols rows_dict = Ok m).
  { unfold Shared.max_cols.
    destruct (mapM_ok (fun r : list (Z * str) => Shared.py_max (Dict.keys r))
                      (Dict.values rows_dict)) as [ms ->].
    - intros r Hr. unfold Dict.values in Hr. apply in_map_iff in Hr.
      destruct Hr as (rd & <- & Hrd). specialize (H rd Hrd).
      destruct (snd rd) as [|[k t] tl]; [congruence|]. simpl. now eexists.
    - simpl. destruct ms; now eexists. }
  destruct Hm as [m ->]. simpl.
  destruct (_ <? 2)%nat; [now eexists|].
  destruct (Shared.choose_header _ _); now eexists.
Qed.

Lemma extract_line_items_ok (cfg : Tables) (parse : str -> Amount)
      (tables : list (Z * RowsDict)) :
  (forall pg rd, In pg tables -> In rd (snd pg) -> snd rd <> []) ->
  exists items, Shared.extract_line_items_from_tables cfg parse tables = Ok items.
Proof.
  intros H. unfold Shared.extract_line_items_from_tables.
  destruct (mapM_ok (Shared.page_items cfg parse) (Dict.values tables)) as [pages ->].
  - intros rows_dict Hr. unfold Dict.values in Hr. apply in_map_iff in Hr.
    destruct Hr as (pg & <- & Hpg). apply page_items_ok. intros rd Hrd. exact (H pg rd Hpg Hrd).
  - simpl. now eexists.
Qed.

Lemma enumerate1_In {A : Type} (l : list A) (p : Z * A) :
  In p (enumerate1 l) -> In (snd p) l.
Proof.
  unfold enumerate1. destruct p as [z a]. intros H. apply in_combine_r in H. exact H.
Qed.

Lemma enumerate1_nonempty {A : Type} (l : list A) : l <> [] -> enumerate1 l <> [].
Proof. destruct l; [congruence|]. discriminate. Qed.

Lemma tables_dict_rows_nonempty (ts : list textract_client.Table) :
  (forall t row, In t ts -> In row (textract_client.t_rows t) -> row <> []) ->
  forall pg rd, In pg (textract_client.tables_dict_of ts) -> In rd (snd pg) -> snd rd <> [].
Proof.
  intros H pg rd Hpg Hrd. unfold textract_client.tables_dict_of in Hpg.
  apply in_map_iff in Hpg. destruct Hpg as (pt & <- & Hpt). simpl in Hrd.
  apply in_map_iff in Hrd. destruct Hrd as (rr & <- & Hrr). simpl.
  apply enumerate1_nonempty.
  apply enumerate1_In in Hpt. apply enumerate1_In in Hrr. exact (H _ _ Hpt Hrr).
Qed.

Lemma override_keys (g : Tables) (parsed : InvoiceRecord) (query : textract_client.QueryResult) :
  Dict.keys parsed = RECORD_KEYS ->
  Dict.keys (textract_client.override g parsed query) = RECORD_KEYS.
Proof.
  intros Hk. unfold textract_client.override.
  destruct (Dict.get Py.eqb _ textract_client.query_map) as [key|] eqn:E; [|exact Hk].
  assert (Hin : In key (Dict.keys parsed)).
  { rewrite Hk. unfold textract_client.query_map in E. simpl in E.
    repeat match type of E with
           | (if ?c then _ else _) = _ => destruct c
           end; try discriminate; injection E as <-; simpl; tauto. }
  destruct (Shared.nonempty _); [|exact Hk].
  destruct (Py.eqb _ _); [destruct (is_number _); [|exact Hk]|];
    now rewrite rec_set_keys.
Qed.

Lemma fold_override_keys (g : Tables) (l : list textract_client.QueryResult) :
  forall parsed, Dict.keys parsed = RECORD_KEYS ->
                 Dict.keys (fold_left (textract_client.override g) l parsed) = RECORD_KEYS.
Proof.
  induction l as [|q r IH]; intros parsed Hk; simpl; [exact Hk|].
  apply IH, override_keys, Hk.
Qed.

(** [parse_extracted_data] on results whose table rows all have a cell. *)
Lemma parse_extracted_data_total (g : Tables) (results : textract_client.Results) :
  (forall t row, In t (textract_client.tables results) ->
                 In row (textract_client.t_rows t) -> row <> []) ->
  exists r, textract_client.parse_extracted_data g results = Ok r
            /\ Dict.keys r = RECORD_KEYS.
Proof.
  intros H. unfold textract_client.parse_extracted_data.
  destruct (extract_line_items_ok g (utils.parse_amount_with_currency g)
              (textract_client.tables_dict_of (textract_client.tables results))
              (tables_dict_rows_nonempty _ H)) as [items Hitems].
  unfold textract_client.extract_line_items_from_tables. rewrite Hitems.
  cbn [Exc.bind]. eexists. split; [reflexivity|].
  apply fold_override_keys.
  destruct (find_invoice_date g _); destruct (find_payment_terms g _);
    destruct (utils.find_invoice_number g _ _); reflexivity.
Qed.

Lemma fold_left_inv {A B : Type} (P : A -> Prop) (Q : B -> Prop) (f : A -> B -> A)
      (l : list B) :
  (forall a b, Q b -> P a -> P (f a b)) ->
  Forall Q l -> forall a, P a -> P (fold_left f l a).
Proof.
  intros Hf Hl. induction Hl as [|b r Hb _ IH]; intros a Ha; simpl; [exact Ha|].
  apply IH, Hf; assumption.
Qed.

Lemma map_well_formed_set (k : str) (b : Block)
      (m : invoice_processor.BlockMap) :
  well_formed b -> map_well_formed m -> map_well_formed (Dict.set Py.eqb k b m).
Proof.
  intros Hb Hm k' b' H.
  rewrite (dict_get_set Py.eqb py_eqb_eq) in H.
  destruct (Py.eqb k' k); [injection H as <-; exact Hb|exact (Hm _ _ H)].
Qed.

Lemma map_well_formed_nil : map_well_formed [].
Proof. intros k b H. discriminate. Qed.

Lemma dict_get_In {K V : Type} (keq : K -> K -> bool) (k : K) (v : V) (d : list (K * V)) :
  Dict.get keq k d = Some v -> exists k', In (k', v) d.
Proof.
  induction d as [|[k0 v0] r IH]; simpl; [discriminate|].
  destruct (keq k k0).
  - intros [= ->]. exists k0. now left.
  - intros H. destruct (IH H) as [k' Hk']. exists k'. now right.
Qed.

Lemma dict_set_In {K V : Type} (keq : K -> K -> bool) (k : K) (v : V) (d : list (K * V))
      (p : K * V) :
  In p (Dict.set keq k v d) -> snd p = v \/ In p d.
Proof.
  induction d as [|[k0 v0] r IH]; simpl.
  - intros [<-|[]]. now left.
  - destruct (keq k k0); simpl.
    + intros [<-|H]; [now left|right; now right].
    + intros [<-|H]; [right; now left|].
      destruct (IH H); [now left|right; now right].
Qed.

Lemma dict_set_not_nil {K V : Type} (keq : K -> K -> bool) (k : K) (v : V)
      (d : list (K * V)) :
  Dict.set keq k v d <> [].
Proof.
  destruct d as [|[k0 v0] r]; simpl; [discriminate|].
  destruct (keq k k0); discriminate.
Qed.

Lemma extract_text_from_block_ok (b : Block)
      (m : invoice_processor.BlockMap) :
  map_well_formed m -> exists t, invoice_processor.extract_text_from_block b m = Ok t.
Proof.
  intros Hm. unfold invoice_processor.extract_text_from_block.
  destruct (Relationships b) as [rels|]; [|simpl; now eexists].
  match goal with
  | |- context [Exc.foldM ?f rels []] =>
      destruct (foldM_ok (fun _ => True) f rels) with (a := @nil char) as (t & -> & _)
  end; [| exact I | simpl; now eexists].
  intros acc rel _ _.
  destruct (Py.eqb (r_Type rel) (text "CHILD")); [|now exists acc].
  match goal with
  | |- context [Exc.foldM ?f (r_Ids rel) acc] =>
      destruct (foldM_ok (fun _ => True) f (r_Ids rel)) with (a := acc)
        as (t & -> & _)
  end; [| exact I | now eexists].
  intros acc' cid _ _.
  destruct (Dict.get Py.eqb cid m) as [child|] eqn:E; [|now exists acc'].
  destruct (Py.eqb (BlockType child) (text "WORD")
            || Py.eqb (BlockType child) (text "LINE")) eqn:Ety;
    [|now exists acc'].
  destruct (Hm _ _ E) as [Htext _].
  unfold invoice_processor.text_of.
  destruct (Text child) as [ct|].
  - simpl. now eexists.
  - exfalso. apply Htext; [|reflexivity].
    unfold invoice_processor.is_type. rewrite orb_comm. exact Ety.
Qed.

Lemma value_text_of_ok (kb : Block)
      (vm m : invoice_processor.BlockMap) :
  map_well_formed m -> exists t, invoice_processor.value_text_of kb vm m = Ok t.
Proof.
  intros Hm. unfold invoice_processor.value_text_of.
  destruct (Relationships kb) as [rels|]; [|now eexists].
  match goal with
  | |- context [Exc.foldM ?f rels []] =>
      destruct (foldM_ok (fun _ => True) f rels) with (a := @nil char) as (t & -> & _)
  end; [| exact I | now eexists].
  intros acc rel _ _.
  destruct (Py.eqb (r_Type rel) (text "VALUE")); [|now exists acc].
  match goal with
  | |- context [Exc.foldM ?f (r_Ids rel) acc] =>
      destruct (foldM_ok (fun _ => True) f (r_Ids rel)) with (a := acc)
        as (t & -> & _)
  end; [| exact I | now eexists].
  intros acc' vid _ _.
  destruct (Dict.get Py.eqb vid vm) as [vb|]; [|now exists acc'].
  destruct (extract_text_from_block_ok vb m Hm) as [t ->]. simpl. now eexists.
Qed.

Lemma table_set_rows_nonempty (page row col : Z) (t : str) (tables : list (Z * RowsDict)) :
  rows_nonempty tables -> rows_nonempty (invoice_processor.table_set page row col t tables).
Proof.
  intros H pg rd Hpg Hrd. unfold invoice_processor.table_set in Hpg.
  apply dict_set_In in Hpg. destruct Hpg as [Hpg|Hpg]; [|exact (H _ _ Hpg Hrd)].
  rewrite Hpg in Hrd. apply dict_set_In in Hrd. destruct Hrd as [Hrd|Hrd].
  - rewrite Hrd. apply dict_set_not_nil.
  - destruct (Dict.get Z.eqb page tables) as [rows|] eqn:E; [|destruct Hrd].
    destruct (dict_get_In _ _ _ _ E) as [k' Hk']. exact (H _ _ Hk' Hrd).
Qed.

(** [all_text] is the text of the LINE blocks. *)
Lemma all_text_ok (blocks : list Block) :
  Forall well_formed blocks ->
  forall acc,
    Exc.foldM (fun acc b =>
                 if invoice_processor.is_type "LINE" b
                 then t <- invoice_processor.text_of b ;; Ok (acc ++ t ++ text " ")
                 else Ok acc) blocks acc
    = Ok (acc ++ line_text blocks).
Proof.
  induction 1 as [|b r Hb _ IH]; intros acc; simpl.
  - now rewrite app_nil_r.
  - destruct (invoice_processor.is_type "LINE" b) eqn:E.
    + destruct Hb as [Ht _]. unfold invoice_processor.text_of.
      destruct (Text b) as [t|].
      * simpl. rewrite IH, <- !app_assoc. reflexivity.
      * exfalso. apply Ht; [now rewrite E|reflexivity].
    + simpl. apply IH.
Qed.

(** [extract_invoice_data] on well-formed blocks. *)
Lemma extract_invoice_data_total (blocks : list Block) :
  Forall well_formed blocks ->
  exists r, invoice_processor.extract_invoice_data (Some blocks) = Ok r
            /\ Dict.keys r = RECORD_KEYS.
Proof.
  intros Hwf. unfold invoice_processor.extract_invoice_data.
  rewrite (all_text_ok blocks Hwf []). cbn [Exc.bind app].
  set (block_map := fold_left (fun m b => Dict.set Py.eqb (Id b) b m)
                              blocks []).
  assert (Hm : map_well_formed block_map).
  { apply (fold_left_inv map_well_formed well_formed); [|exact Hwf|exact map_well_formed_nil].
    intros m b Hb Hmm. now apply map_well_formed_set. }
  match goal with
  | |- context [Exc.foldM ?f ?l (@nil (str * str))] =>
      destruct (foldM_ok (fun _ => True) f l) with (a := @nil (str * str))
        as (kv_pairs & -> & _)
  end; [| exact I |].
  { intros kv kb _ _.
    destruct (extract_text_from_block_ok (snd kb) block_map Hm) as [kt ->].
    cbn [Exc.bind].
    match goal with
    | |- context [invoice_processor.value_text_of ?a ?b ?c] =>
        destruct (value_text_of_ok a b c Hm) as [vt ->]
    end.
    cbn [Exc.bind]. destruct (_ && _); now eexists. }
  cbn [Exc.bind].
  match goal with
  | |- context [Exc.foldM ?f blocks (@nil (Z * RowsDict))] =>
      destruct (foldM_ok rows_nonempty f blocks) with (a := @nil (Z * RowsDict))
        as (tables & -> & Htables)
  end; [| intros pg rd [] |].
  { intros tables b Hin Ht.
    destruct (invoice_processor.is_type "CELL" b) eqn:E; [|now exists tables].
    assert (Hb : well_formed b).
    { rewrite Forall_forall in Hwf. apply Hwf. exact Hin. }
    destruct Hb as [_ Hc]. destruct (Hc E) as [Hr Hcol].
    destruct (RowIndex b) as [row|]; [|congruence].
    destruct (ColumnIndex b) as [col|]; [|congruence].
    cbn [Exc.bind].
    destruct (extract_text_from_block_ok b block_map Hm) as [t ->].
    cbn [Exc.bind]. eexists. split; [reflexivity|].
    now apply table_set_rows_nonempty. }
  cbn [Exc.bind].
  destruct (extract_line_items_ok invoice_processor.local_tables
              invoice_processor.parse_amount_with_currency tables Htables) as [items Hitems].
  unfold invoice_processor.extract_line_items_from_tables. rewrite Hitems.
  cbn [Exc.bind]. eexists. split; [reflexivity|].
  destruct (find_invoice_date _ _); destruct (find_payment_terms _ _);
    destruct (invoice_processor.find_invoice_number _ _); reflexivity.
Qed.









Lemma fold_left_unchanged {A B : Type} (f : A -> B -> A) (l : list B) (a : A) :
  (forall b, In b l -> f a b = a) -> fold_left f l a = a.
Proof.
  induction l as [|b r IH]; intros H; simpl; [reflexivity|].
  rewrite (H b (or_introl eq_refl)). apply IH. intros; apply H; now right.
Qed.


Example header_matching_examples :
  map (utils.match_header_enhanced loaded)
      (map text ["Hrs/Qty"; "Unit Cost"; "Random Label"]%string)
  = [Some quantity; Some unitprice; None].
Proof. vm_compute; reflexivity. Qed.

Example summary_row_example :
  utils.is_summary_row loaded (map text ["Subtotal"; ""; ""; "1,000.00"]%string) = true.
Proof. vm_compute; reflexivity. Qed.

Example empty_amount_example :
  utils.parse_amount_with_currency loaded []
  = {| value := AText []; currency := []; formatted := [] |}.
Proof. reflexivity. Qed.

Example header_tie_break_example :
  option_map Shared.c_idx (Shared.choose_header loaded tie_rows) = Some 1%nat.
Proof. vm_compute; reflexivity. Qed.

Example dollar_amount_example :
  utils.parse_amount_with_currency loaded (text "$1,234.50")
  = {| value := ANum (dec 1234.5); currency := text "$"; formatted := text "$ 1,234.50" |}
  /\ invoice_processor.parse_amount_with_currency (text "$1,234.50")
     = {| value := ANum (dec 1234.5); currency := text "$"; formatted := text "1,234.50 $" |}.
Proof. split; vm_compute; reflexivity. Qed.

(** ** The invoice total is the default or a positive number *)

Lemma fold_left_keeps {A B : Type} (P : A -> Prop) (f : A -> B -> A) (l : list B) :
  (forall a b, P a -> P (f a b)) -> forall a, P a -> P (fold_left f l a).
Proof.
  intros Hf. induction l as [|b r IH]; intros a Ha; simpl; [exact Ha|].
  apply IH, Hf, Ha.
Qed.

Lemma kv_step_ok (parse : str -> Amount) (k v : str) (st : Shared.best) (kw : str * Z) :
  best_ok st -> best_ok (Shared.kv_step parse k v st kw).
Proof.
  intros H. unfold Shared.kv_step. destruct kw as [keyword priority].
  destruct (contains keyword _); [|exact H].
  destruct (is_positive (parse v)) eqn:E; [|exact H].
  destruct (_ <? _)%Z; [exact E|exact H].
Qed.

Lemma table_candidates_positive (cfg : Tables) (parse : str -> Amount)
      (table_totals : list (str * str)) (c : Amount * Z) :
  In c (Shared.table_candidates cfg parse table_totals) -> is_positive (fst c) = true.
Proof.
  unfold Shared.table_candidates. rewrite in_flat_map.
  intros ([total_text v] & _ & H). rewrite in_flat_map in H.
  destruct H as ([keyword priority] & _ & H).
  destruct (contains keyword _); [|destruct H].
  destruct (is_positive (parse v)) eqn:E; [|destruct H].
  destruct H as [<-|[]]. exact E.
Qed.

Lemma tier_table_ok (cfg : Tables) (parse : str -> Amount) (st : Shared.best)
      (table_totals : list (str * str)) :
  best_ok st -> best_ok (Shared.tier_table cfg parse st table_totals).
Proof.
  intros H. unfold Shared.tier_table.
  destruct (Shared.sort_desc _) as [|b r] eqn:E; [exact H|].
  destruct (_ <? _)%Z; [|exact H].
  apply (table_candidates_positive cfg parse table_totals).
  apply sort_desc_In. rewrite E. now left.
Qed.

Lemma regex_step_ok (parse : str -> Amount) (priority : Z) (st : Shared.best) (m : Re.mtch) :
  best_ok st -> best_ok (Shared.regex_step parse priority st m).
Proof.
  intros H. unfold Shared.regex_step.
  destruct (is_positive _) eqn:E; [|exact H].
  destruct (_ <? _)%Z; [exact E|exact H].
Qed.

Lemma final_best_ok (cfg : Tables) (parse : str -> Amount)
      (kv_pairs table_totals : list (str * str)) (all_text : str) :
  best_ok (Shared.tier_regex parse
             (Shared.tier_table cfg parse (Shared.tier_kv cfg parse kv_pairs) table_totals)
             all_text).
Proof.
  unfold Shared.tier_regex.
  assert (H2 : best_ok (Shared.tier_table cfg parse (Shared.tier_kv cfg parse kv_pairs)
                                          table_totals)).
  { apply tier_table_ok. unfold Shared.tier_kv.
    apply fold_left_keeps; [|exact I].
    intros st kv Hst. apply fold_left_keeps; [|exact Hst].
    intros st' kw. apply kv_step_ok. }
  destruct (_ <? 5)%Z; [|exact H2].
  apply fold_left_keeps; [|exact H2].
  intros st pp Hst. apply fold_left_keeps; [|exact Hst].
  intros st' m. apply regex_step_ok.
Qed.

(** X1.  Whatever the key-value pairs, the table totals and the text, the
    resolved invoice total is the default amount (null value) or an amount
    whose value is a number greater than zero: an unparsed, zero or negative
    candidate is never returned. *)
Theorem X1_total_is_default_or_positive :
  forall (cfg : Tables) (parse : str -> Amount)
         (kv_pairs table_totals : list (str * str)) (all_text : str),
    Shared.find_invoice_total cfg parse kv_pairs table_totals all_text = Shared.DEFAULT_TOTAL
    \/ is_positive (Shared.find_invoice_total cfg parse kv_pairs table_totals all_text) = true.
Proof.
  intros cfg parse kv tt all_text.
  pose proof (final_best_ok cfg parse kv tt all_text) as H.
  unfold Shared.find_invoice_total. unfold best_ok in H.
  destruct (fst _); [now right|now left].
Qed.

(** ** Summary rows *)

Lemma startswith_app (p s b : str) : startswith p s = true -> startswith p (s ++ b) = true.
Proof.
  revert s. induction p as [|x p IH]; intros [|y s]; simpl; try congruence.
  rewrite !andb_true_iff. intros [-> H]. split; [reflexivity|now apply IH].
Qed.

Lemma contains_app_l (p s b : str) : contains p s = true -> contains p (s ++ b) = true.
Proof.
  induction s as [|y s IH]; simpl.
  - rewrite orb_false_r. intros H. destruct p; [destruct b; reflexivity|discriminate].
  - rewrite !orb_true_iff. intros [H|H]; [left; now apply (startswith_app p (y :: s) b)|].
    right. now apply IH.
Qed.

Lemma contains_app_r (p a s : str) : contains p s = true -> contains p (a ++ s) = true.
Proof.
  intros H. induction a as [|y a IH]; simpl; [exact H|].
  rewrite IH. apply orb_true_r.
Qed.

Lemma contains_infix (p a s b : str) :
  contains p s = true -> contains p (a ++ s ++ b) = true.
Proof. intros H. now apply contains_app_r, contains_app_l. Qed.

Lemma lstrip_suffix (s : str) : exists a, s = a ++ lstrip s.
Proof.
  induction s as [|c r [a IH]]; simpl; [now exists []|].
  destruct (isspace c); [|now exists []].
  exists (c :: a). simpl. now rewrite <- IH.
Qed.

Lemma strip_infix (s : str) : exists a b, s = a ++ strip s ++ b.
Proof.
  destruct (lstrip_suffix s) as [a Ha].
  destruct (lstrip_suffix (rev (lstrip s))) as [b Hb].
  exists a, (rev b). unfold strip, rstrip.
  rewrite Ha at 1. f_equal.
  rewrite <- rev_app_distr, <- Hb, rev_involutive. reflexivity.
Qed.

Lemma join_member (sep cell : str) (row : list str) :
  In cell row -> exists a b, join sep row = a ++ cell ++ b.
Proof.
  induction row as [|x r IH]; [intros []|].
  intros [->|H].
  - destruct r; simpl; [exists [], []; now rewrite app_nil_r|].
    exists [], (sep ++ join sep (s :: r)). reflexivity.
  - destruct (IH H) as (a & b & E). destruct r as [|y r]; [destruct H|].
    exists (x ++ sep ++ a), b.
    change (join sep (x :: y :: r)) with (x ++ sep ++ join sep (y :: r)).
    rewrite E, <- !app_assoc. reflexivity.
Qed.

Lemma lower_app (a b : str) : lower (a ++ b) = lower a ++ lower b.
Proof. apply map_app. Qed.

(** An indicator found in a cell is found in the row. *)
Lemma indicator_in_cell_in_row (indicator cell : str) (row : list str) :
  In cell row ->
  contains indicator (lower cell) = true ->
  contains indicator (lower (join (text " ") row)) = true.
Proof.
  intros Hin H. destruct (join_member (text " ") cell row Hin) as (a & b & ->).
  rewrite !lower_app. now apply contains_infix.
Qed.

(** X2.  A row one of whose cells contains a summary indicator, in any letter
    case, is a summary row and gives no line item; hence on every row that
    reaches the cell loop no cell contains an indicator, and the second check,
    made on the description cell (the [break]), never fires. *)
Theorem X2_summary_cell_drops_row :
  forall (cfg : Tables) (parse : str -> Amount) (headers : list (option field))
         (row : list str),
    (forall cell indicator,
        In cell row -> In indicator (SUMMARY_INDICATORS cfg) ->
        contains indicator (lower cell) = true ->
        Shared.is_summary_row cfg row = true
        /\ Shared.row_item cfg parse headers row = None)
    /\ (Shared.is_summary_row cfg row = false ->
        forall cell, In cell row ->
                     any_in (SUMMARY_INDICATORS cfg) (lower (strip cell)) = false).
Proof.
  intros cfg parse headers row.
  assert (H1 : forall cell indicator,
             In cell row -> In indicator (SUMMARY_INDICATORS cfg) ->
             contains indicator (lower cell) = true ->
             Shared.is_summary_row cfg row = true).
  { intros cell indicator Hc Hi H. unfold Shared.is_summary_row.
    apply existsb_exists. exists indicator. split; [exact Hi|].
    now apply (indicator_in_cell_in_row indicator cell row). }
  split.
  - intros cell indicator Hc Hi H. split; [now apply (H1 cell indicator)|].
    unfold Shared.row_item. rewrite (H1 cell indicator Hc Hi H).
    destruct (negb _); reflexivity.
  - intros Hrow cell Hc.
    destruct (any_in (SUMMARY_INDICATORS cfg) (lower (strip cell))) eqn:E; [|reflexivity].
    unfold any_in in E. apply existsb_exists in E. destruct E as (indicator & Hi & H).
    rewrite (H1 cell indicator Hc Hi) in Hrow; [discriminate|].
    destruct (strip_infix cell) as (a & b & Hs).
    rewrite Hs at 1. rewrite !lower_app. now apply contains_infix.
Qed.

Lemma X2_total_row_witness :
  Shared.is_summary_row loaded total_row = true
  /\ Shared.row_item loaded (utils.parse_amount_with_currency loaded)
                     [Some description; Some description; Some amount] total_row = None.
Proof.
  apply (proj1 (X2_summary_cell_drops_row loaded (utils.parse_amount_with_currency loaded)
                  [Some description; Some description; Some amount] total_row)
           (text "GRAND TOTAL") (text "total")).
  - right. now left.
  - vm_compute. tauto.
  - vm_compute; reflexivity.
Defined.

(** ** Shape and number of the line items *)

Lemma dict_set_Forall {K V : Type} (keq : K -> K -> bool)
      (keq_eq : forall a b, keq a b = true -> a = b)
      (P : K * V -> Prop) (k : K) (v : V) (d : list (K * V)) :
  P (k, v) -> Forall P d -> Forall P (Dict.set keq k v d).
Proof.
  intros Hkv. induction 1 as [|[k0 v0] r H0 Hr IH]; simpl; [repeat constructor; exact Hkv|].
  destruct (keq k k0) eqn:E.
  - apply keq_eq in E. subst k0. now constructor.
  - now constructor.
Qed.

Lemma cells_shape (cfg : Tables) (parse : str -> Amount) (headers : list (option field)) :
  forall (row : list str) (i : nat) (li : LineItem) (has : bool) (li' : LineItem) (has' : bool),
    Shared.cells cfg parse headers i row li has = (li', has') ->
    Forall (entry_ok cfg) li -> (has = true -> li <> []) ->
    Forall (entry_ok cfg) li' /\ (has' = true -> li' <> []).
Proof.
  assert (Hset : forall k v (li : LineItem),
             entry_ok cfg (k, v) -> Forall (entry_ok cfg) li ->
             Forall (entry_ok cfg) (item_set k v li)).
  { intros k v li Hkv Hli. apply dict_set_Forall; [apply String.eqb_eq|exact Hkv|exact Hli]. }
  assert (Hne : forall k v (li : LineItem), item_set k v li <> [])
    by (intros; apply dict_set_not_nil).
  induction row as [|cell rest IH]; intros i li has li' has' H Hli Hhas.
  - simpl in H. injection H as <- <-. now split.
  - simpl in H.
    destruct (nth_error headers i) as [[f|]|]; try (now apply (IH _ _ _ _ _ H)).
    destruct (strip cell) as [|c0 cr] eqn:Hs; [now apply (IH _ _ _ _ _ H)|].
    destruct f.
    + destruct (any_in (SUMMARY_INDICATORS cfg) (lower (c0 :: cr))) eqn:E.
      * injection H as <- <-. split; [exact Hli|discriminate].
      * apply (IH _ _ _ _ _ H); [|intros _; apply Hne].
        apply Hset; [|exact Hli]. split; [discriminate|exact E].
    + destruct (value (parse (c0 :: cr))); try destruct (float (c0 :: cr));
        try (now apply (IH _ _ _ _ _ H));
        (apply (IH _ _ _ _ _ H); [apply Hset; [exact I|exact Hli]|intros _; apply Hne]).
    + apply (IH _ _ _ _ _ H); [apply Hset; [exact I|exact Hli]|intros _; apply Hne].
    + apply (IH _ _ _ _ _ H); [apply Hset; [exact I|exact Hli]|intros _; apply Hne].
Qed.

(** X3.  Every line item a data row gives is a non-empty dictionary whose
    entries are among Description (a text that is not blank and contains no
    summary indicator), Quantity (a number), UnitPrice and Amount (amounts). *)
Theorem X3_line_item_shape :
  forall (cfg : Tables) (parse : str -> Amount) (headers : list (option field))
         (row : list str) (line_item : LineItem),
    Shared.row_item cfg parse headers row = Some line_item ->
    line_item <> [] /\ Forall (entry_ok cfg) line_item.
Proof.
  intros cfg parse headers row li H. unfold Shared.row_item in H.
  destruct (negb _); [discriminate|].
  destruct (Shared.is_summary_row cfg row); [discriminate|].
  destruct (Shared.cells cfg parse headers 0 row [] false) as [li' has] eqn:E.
  destruct has; [|discriminate]. injection H as <-.
  destruct (cells_shape cfg parse headers row 0 [] false li' true E) as [Hf Hn];
    [constructor|discriminate|].
  split; [now apply Hn|exact Hf].
Qed.

Lemma X3_line_item_shape_witness :
  dup_item <> [] /\ Forall (entry_ok loaded) dup_item.
Proof.
  apply (X3_line_item_shape loaded (utils.parse_amount_with_currency loaded)
           dup_headers dup_row dup_item).
  vm_compute; reflexivity.
Defined.

Lemma insert_asc_length (x : Z) (l : list Z) :
  length (Shared.insert_asc x l) = S (length l).
Proof.
  induction l as [|y r IH]; simpl; [reflexivity|].
  destruct (y <=? x)%Z; simpl; [now rewrite IH|reflexivity].
Qed.

Lemma sorted_length (l : list Z) : length (Shared.sorted l) = length l.
Proof.
  induction l as [|x r IH]; simpl; [reflexivity|].
  now rewrite insert_asc_length, IH.
Qed.

Lemma flat_map_opt_length {A B : Type} (f : A -> option B) (l : list A) :
  (length (flat_map (fun a => Shared.opt_list (f a)) l) <= length l)%nat.
Proof.
  induction l as [|a r IH]; simpl; [lia|].
  rewrite length_app. destruct (f a); simpl; lia.
Qed.

(** X4.  A page gives fewer line items than it has rows (the header row and
    what precedes it give none), and a page with fewer than two rows gives
    none. *)
Theorem X4_fewer_items_than_rows :
  forall (cfg : Tables) (parse : str -> Amount) (rows_dict : RowsDict)
         (items : list LineItem),
    Shared.page_items cfg parse rows_dict = Ok items ->
    items = [] \/ (2 <= length rows_dict /\ length items < length rows_dict)%nat.
Proof.
  intros cfg parse rows_dict items H. unfold Shared.page_items in H.
  destruct rows_dict as [|rd0 rest] eqn:E; [injection H as <-; now left|].
  rewrite <- E in *.
  destruct (Shared.max_cols rows_dict) as [maxc|e]; [|discriminate].
  cbn [Exc.bind] in H.
  assert (Hlen : length (Shared.materialize rows_dict maxc) = length rows_dict).
  { unfold Shared.materialize, Dict.keys. now rewrite length_map, sorted_length, length_map. }
  destruct (_ <? 2)%nat eqn:L; [injection H as <-; now left|].
  apply Nat.ltb_ge in L.
  destruct (Shared.choose_header cfg _) as [c|]; [|injection H as <-; now left].
  injection H as <-. right. rewrite <- Hlen. split; [exact L|].
  change (match Shared.materialize rows_dict maxc with
          | [] => []
          | _ :: l => skipn (Shared.c_idx c) l
          end)
    with (skipn (S (Shared.c_idx c)) (Shared.materialize rows_dict maxc)).
  match goal with
  | |- (length (flat_map _ ?l) < _)%nat =>
      pose proof (flat_map_opt_length
                    (Shared.row_item cfg parse (Shared.c_headers c)) l) as Hf;
      assert (Hs : (length l < length (Shared.materialize rows_dict maxc))%nat)
        by (rewrite length_skipn; lia)
  end.
  lia.
Qed.

Lemma X4_small_page_witness :
  (2 <= length small_page)%nat
  /\ Shared.page_items loaded (utils.parse_amount_with_currency loaded) small_page
     = Ok [ [("Description"%string, IStr (text "Paper")); ("Quantity"%string, INum (dec 3))];
            [("Description"%string, IStr (text "Ink")); ("Quantity"%string, INum (dec 2))] ].
Proof.
  assert (H : Shared.page_items loaded (utils.parse_amount_with_currency loaded) small_page
              = Ok [ [("Description"%string, IStr (text "Paper"));
                      ("Quantity"%string, INum (dec 3))];
                     [("Description"%string, IStr (text "Ink"));
                      ("Quantity"%string, INum (dec 2))] ])
    by (vm_compute; reflexivity).
  destruct (X4_fewer_items_than_rows _ _ _ _ H) as [E|[H2 _]]; [discriminate|].
  split; [exact H2|exact H].
Defined.

(** ** Queries that change nothing *)

Lemma override_line_items (g : Tables) (parsed : InvoiceRecord)
      (query : textract_client.QueryResult) :
  rec_get "LineItems" (textract_client.override g parsed query) = rec_get "LineItems" parsed.
Proof.
  unfold textract_client.override.
  destruct (Dict.get Py.eqb _ textract_client.query_map) as [key|] eqn:E; [|reflexivity].
  assert (Hk : String.eqb "LineItems" key = false).
  { unfold textract_client.query_map in E. simpl in E.
    repeat match type of E with
           | (if ?c then _ else _) = _ => destruct c
           end; try discriminate; injection E as <-; reflexivity. }
  destruct (Shared.nonempty _); [|reflexivity].
  destruct (Py.eqb _ _); [destruct (is_number _); [|reflexivity]|];
    now rewrite rec_get_set, Hk.
Qed.

Lemma fold_override_line_items (g : Tables) (l : list textract_client.QueryResult) :
  forall parsed,
    rec_get "LineItems" (fold_left (textract_client.override g) l parsed)
    = rec_get "LineItems" parsed.
Proof.
  induction l as [|q r IH]; intros parsed; simpl; [reflexivity|].
  rewrite IH. apply override_line_items.
Qed.

Lemma override_idle (g : Tables) (parsed : InvoiceRecord) (query : textract_client.QueryResult) :
  idle_query query -> textract_client.override g parsed query = parsed.
Proof.
  unfold textract_client.override. intros [->| ->]; [reflexivity|].
  destruct (Dict.get Py.eqb _ _); reflexivity.
Qed.

Lemma idle_queries_change_nothing (g : Tables) (results : textract_client.Results) :
  (forall q, In q (textract_client.queries results) -> idle_query q) ->
  textract_client.parse_extracted_data g results
  = textract_client.parse_extracted_data g (without_queries results).
Proof.
  intros Hidle.
  unfold textract_client.parse_extracted_data, without_queries, textract_client.all_text_of.
  cbn [textract_client.layout textract_client.forms textract_client.tables
       textract_client.queries].
  destruct (textract_client.extract_line_items_from_tables g _); [|reflexivity].
  cbn [Exc.bind fold_left]. f_equal.
  apply fold_left_unchanged.
  intros q Hq. apply override_idle, Hidle, Hq.
Qed.

(** X5.  The query loop never touches the line items, and a query entry whose
    question is not one of the four recognised ones or whose answer is empty
    changes nothing: with only such entries the record is the one computed
    without queries. *)
Theorem X5_queries_leave_line_items_and_idle_entries :
  forall (g : Tables) (results : textract_client.Results),
    (forall r, textract_client.parse_extracted_data g results = Ok r ->
               exists r0,
                 textract_client.parse_extracted_data g (without_queries results) = Ok r0
                 /\ rec_get "LineItems" r = rec_get "LineItems" r0)
    /\ ((forall q, In q (textract_client.queries results) -> idle_query q) ->
        textract_client.parse_extracted_data g results
        = textract_client.parse_extracted_data g (without_queries results)).
Proof.
  intros g results. split.
  - intros r Hr. destruct (parse_extracted_data_queries _ _ _ Hr) as (r0 & Hr0 & ->).
    exists r0. split; [exact Hr0|]. apply fold_override_line_items.
  - apply idle_queries_change_nothing.
Qed.

Lemma X5_idle_queries_witness :
  textract_client.parse_extracted_data loaded idle_results
  = textract_client.parse_extracted_data loaded (without_queries idle_results).
Proof.
  apply (proj2 (X5_queries_leave_line_items_and_idle_entries loaded idle_results)).
  intros q [<-|[<-|[]]]; [left|right]; vm_compute; reflexivity.
Defined.

(** ** The key-value map built from the forms *)

Lemma kv_pairs_of_get (k : str) (fs : list textract_client.Form) :
  forall acc,
    Dict.get Py.eqb k
             (fold_left
                (fun kv form =>
                   let key := strip (lower (textract_client.f_key form)) in
                   let v := strip (textract_client.f_value form) in
                   if Shared.nonempty key && Shared.nonempty v
                   then Dict.set Py.eqb key v kv else kv) fs acc)
    = match Shared.first_some (form_value k) (rev fs) with
      | Some v => Some v
      | None => Dict.get Py.eqb k acc
      end.
Proof.
  induction fs as [|form r IH]; intros acc; simpl; [reflexivity|].
  rewrite IH, first_some_app. simpl.
  destruct (Shared.first_some (form_value k) (rev r)); [reflexivity|].
  unfold form_value, form_entry. cbv zeta.
  destruct (Shared.nonempty _ && Shared.nonempty _); [|reflexivity].
  rewrite (dict_get_set Py.eqb py_eqb_eq).
  destruct (Py.eqb k _); reflexivity.
Qed.

Lemma kv_pairs_of_nonempty (fs : list textract_client.Form) :
  Forall (fun kv : str * str => fst kv <> [] /\ snd kv <> []) (textract_client.kv_pairs_of fs).
Proof.
  unfold textract_client.kv_pairs_of.
  apply fold_left_keeps; [|constructor].
  intros kv form Hkv. cbv zeta.
  destruct (Shared.nonempty _ && Shared.nonempty _) eqn:E; [|exact Hkv].
  apply andb_true_iff in E. destruct E as [E1 E2].
  apply dict_set_Forall; [apply py_eqb_eq| |exact Hkv].
  split; now apply nonempty_true.
Qed.

(** X6.  In the key-value map built from the forms, the value under a key is
    the trimmed value of the last form whose trimmed lower-case key is that key
    and whose trimmed value is not empty; a form with an empty key or value adds
    nothing and erases nothing, so no entry has an empty key or value. *)
Theorem X6_kv_pairs_last_nonempty_form_wins :
  forall (fs : list textract_client.Form),
    (forall k, Dict.get Py.eqb k (textract_client.kv_pairs_of fs)
               = Shared.first_some (form_value k) (rev fs))
    /\ Forall (fun kv : str * str => fst kv <> [] /\ snd kv <> [])
              (textract_client.kv_pairs_of fs).
Proof.
  intros fs. split; [|apply kv_pairs_of_nonempty].
  intros k. unfold textract_client.kv_pairs_of. rewrite kv_pairs_of_get.
  destruct (Shared.first_some _ _); reflexivity.
Qed.

(** ** The currency of a parsed amount *)

Lemma find_first {A : Type} (f : A -> bool) (l : list A) (x : A) :
  find f l = Some x ->
  exists pre post, l = pre ++ x :: post /\ f x = true /\ forall y, In y pre -> f y = false.
Proof.
  induction l as [|a r IH]; simpl; [discriminate|].
  destruct (f a) eqn:E.
  - intros [= ->]. exists [], r. repeat split; [exact E|intros y []].
  - intros H. destruct (IH H) as (pre & post & -> & Hx & Hpre).
    exists (a :: pre), post. repeat split; [exact Hx|].
    intros y [<-|Hy]; [exact E|now apply Hpre].
Qed.

Lemma find_currency_first (symbols : list str) (t c : str) :
  find_currency symbols t = c -> c <> [] -> first_symbol_in symbols t c.
Proof.
  unfold find_currency. destruct (find _ symbols) as [x|] eqn:E; [|congruence].
  intros <- _. exact (find_first _ _ _ E).
Qed.

(** X7.  When the amount parser reports a currency, the text parsed to a
    number and the currency is the first symbol of the symbol list, in list
    order and not in text order, that occurs anywhere in the text. *)
Theorem X7_currency_is_first_listed_symbol :
  forall (g : Tables) (t : str),
    (currency (utils.parse_amount_with_currency g t) <> [] ->
     is_number (value (utils.parse_amount_with_currency g t)) = true
     /\ first_symbol_in (CURRENCY_SYMBOLS g) t
                        (currency (utils.parse_amount_with_currency g t)))
    /\ (currency (invoice_processor.parse_amount_with_currency t) <> [] ->
        is_number (value (invoice_processor.parse_amount_with_currency t)) = true
        /\ first_symbol_in (CURRENCY_SYMBOLS invoice_processor.local_tables) t
                           (currency (invoice_processor.parse_amount_with_currency t))).
Proof.
  intros g t. split.
  - unfold utils.parse_amount_with_currency.
    destruct t as [|c0 r]; [simpl; congruence|].
    unfold utils.clean_currency_text. cbv beta iota zeta.
    destruct (first_number _); cbn [value currency]; [|congruence].
    intros Hc. split; [reflexivity|]. now apply find_currency_first.
  - unfold invoice_processor.parse_amount_with_currency.
    destruct t as [|c0 r]; [simpl; congruence|].
    unfold invoice_processor.clean_currency_text. cbv beta iota zeta.
    destruct (first_number _); cbn [value currency]; [|congruence].
    intros Hc. split; [reflexivity|]. now apply find_currency_first.
Qed.

Lemma X7_two_symbols_witness :
  currency (utils.parse_amount_with_currency loaded (text "$5 or €4")) = text "€"
  /\ first_symbol_in (CURRENCY_SYMBOLS loaded) (text "$5 or €4") (text "€").
Proof.
  assert (E : currency (utils.parse_amount_with_currency loaded (text "$5 or €4")) = text "€")
    by (vm_compute; reflexivity).
  split; [exact E|]. rewrite <- E.
  apply (proj1 (X7_currency_is_first_listed_symbol loaded (text "$5 or €4"))).
  rewrite E. vm_compute. discriminate.
Defined.

(** ** Header matching is substring matching *)

Lemma startswith_prefix (p s : str) :
  startswith p s = true -> exists b, s = p ++ b.
Proof.
  revert s. induction p as [|x p IH]; intros s; [exists s; reflexivity|].
  destruct s as [|y s]; simpl; [discriminate|].
  rewrite andb_true_iff, N.eqb_eq. intros [-> H].
  destruct (IH s H) as [b ->]. now exists b.
Qed.

Lemma startswith_self (p b : str) : startswith p (p ++ b) = true.
Proof. induction p as [|x p IH]; simpl; [reflexivity|]. now rewrite N.eqb_refl. Qed.

Lemma contains_split (p s : str) :
  contains p s = true -> exists a b, s = a ++ p ++ b.
Proof.
  induction s as [|y s IH]; simpl.
  - rewrite orb_false_r. destruct p; [|discriminate]. now exists [], [].
  - rewrite orb_true_iff. intros [H|H].
    + destruct (startswith_prefix p (y :: s) H) as [b ->]. now exists [], b.
    + destruct (IH H) as (a & b & ->). now exists (y :: a), b.
Qed.

Lemma contains_self (p a b : str) : contains p (a ++ p ++ b) = true.
Proof.
  apply contains_app_r. destruct p as [|x p]; simpl.
  - destruct b; reflexivity.
  - rewrite N.eqb_refl, startswith_self. reflexivity.
Qed.

Lemma contains_trans (a b s : str) :
  contains a b = true -> contains b s = true -> contains a s = true.
Proof.
  intros Hab Hbs. destruct (contains_split b s Hbs) as (x & y & ->).
  now apply contains_infix.
Qed.

(** A match of a case-sensitive literal starts with the literal. *)
Lemma run_lit_startswith (p : str) :
  forall prev s cap k a,
    Re.run (Re.Lit false p) prev s cap k = Some a -> startswith p s = true.
Proof.
  induction p as [|c p IH]; intros prev s cap k a; [reflexivity|].
  simpl. destruct s as [|x s]; [discriminate|].
  destruct (x =? c) eqn:E; [|discriminate].
  apply N.eqb_eq in E. subst x. rewrite N.eqb_refl. simpl. apply IH.
Qed.

Lemma search_from_contains (r : Re.re) (p : str) :
  (forall prev s m, Re.match_at r prev s = Some m -> startswith p s = true) ->
  forall s prev m, Re.search_from r prev s = Some m -> contains p s = true.
Proof.
  intros Hr. induction s as [|c s IH]; intros prev m; cbn [Re.search_from].
  - destruct (Re.match_at r prev []) eqn:E; [|discriminate].
    intros _. simpl. now rewrite (Hr _ _ _ E).
  - destruct (Re.match_at r prev (c :: s)) eqn:E.
    + intros _. cbn [contains]. now rewrite (Hr _ _ _ E).
    + intros H. cbn [contains]. rewrite (IH _ _ H). apply orb_true_r.
Qed.

Lemma whole_word_match_at (p : str) (prev : option char) (s : str) (m : Re.mtch) :
  Re.match_at (seq_re [Re.Bnd; Re.Lit false p; Re.Bnd]) prev s = Some m ->
  startswith p s = true.
Proof.
  unfold Re.match_at, seq_re. cbn [fold_right].
  cbn [Re.run]. destruct (xorb _ _); [|discriminate].
  destruct (Re.run (Re.Lit false p) _ _ _ _) eqn:E; [|discriminate].
  intros _. exact (run_lit_startswith _ _ _ _ _ _ E).
Qed.

(** The three tests made for one synonym amount to the last one. *)
Lemma synonym_matches_contains (h p : str) :
  Shared.synonym_matches h p = contains p h.
Proof.
  unfold Shared.synonym_matches.
  destruct (contains p h) eqn:C; [apply orb_true_r|].
  rewrite orb_false_r.
  destruct (Py.eqb h p) eqn:E.
  - apply py_eqb_eq in E. subst h.
    pose proof (contains_self p [] []) as H. simpl in H.
    rewrite app_nil_r in H. congruence.
  - simpl. destruct (Re.search _ h) eqn:S; [|reflexivity].
    unfold Re.search in S.
    rewrite (search_from_contains _ p (whole_word_match_at p) _ _ _ S) in C.
    discriminate.
Qed.

Lemma existsb_pointwise {A : Type} (f g : A -> bool) (l : list A) :
  (forall a, f a = g a) -> existsb f l = existsb g l.
Proof. intros H. induction l as [|a r IH]; simpl; [reflexivity|]. now rewrite H, IH. Qed.

Lemma first_some_pointwise {A B : Type} (f g : A -> option B) (l : list A) :
  (forall a, f a = g a) -> Shared.first_some f l = Shared.first_some g l.
Proof. intros H. induction l as [|a r IH]; simpl; [reflexivity|]. now rewrite H, IH. Qed.

(** The role loop with the three tests gives what it gives with the
    substring test alone. *)
Lemma header_roles_by_substring (hc : str) (patterns : list (field * list str)) :
  Shared.first_some
    (fun fp : field * list str =>
       if existsb (Shared.synonym_matches hc) (snd fp) then Some (fst fp) else None)
    patterns
  = Shared.first_some
      (fun fp : field * list str => if any_in (snd fp) hc then Some (fst fp) else None)
      patterns.
Proof.
  apply first_some_pointwise. intros [f pats]. cbn [fst snd]. unfold any_in.
  rewrite (existsb_pointwise _ (fun t => contains t hc)); [reflexivity|].
  intros p. apply synonym_matches_contains.
Qed.

(** X8.  A column header gets the first role, in the order of the pattern
    table, one of whose synonyms occurs as a substring of the cleaned header:
    the equality test and the whole-word test never decide anything. *)
Theorem X8_header_match_is_substring_match :
  forall (cfg : Tables) (header_text : str),
    Shared.match_header_enhanced cfg header_text
    = match_header_by_substring cfg header_text.
Proof.
  intros cfg [|c r]; [reflexivity|].
  unfold Shared.match_header_enhanced, match_header_by_substring, clean_header.
  cbv zeta. apply header_roles_by_substring.
Qed.

Lemma any_in_false (terms : list str) (s p : str) :
  any_in terms s = false -> In p terms -> contains p s = false.
Proof.
  unfold any_in. intros H Hin.
  destruct (contains p s) eqn:C; [|reflexivity].
  rewrite <- H. symmetry. apply existsb_exists. now exists p.
Qed.

Lemma any_in_true (terms : list str) (s : str) :
  any_in terms s = true -> exists p, In p terms /\ contains p s = true.
Proof. unfold any_in. intros H. now apply existsb_exists in H. Qed.

Lemma amount_synonym_reachable (hc p : str) :
  In p (texts ["amount"; "total"; "sub total"; "line total"; "extended amount";
               "sum"; "value"; "cost"; "charge"; "price"; "subtotal"; "sub_total"]%string) ->
  contains p hc = true ->
  contains (text "amount") hc = false ->
  contains (text "price") hc = false ->
  contains (text "cost") hc = false ->
  any_in AMOUNT_REACHABLE hc = true.
Proof.
  intros Hin Hp' Ha Hp Hc.
  unfold AMOUNT_REACHABLE, any_in. apply existsb_exists.
  assert (Hq : exists q, In q (texts ["total"; "sum"; "value"; "charge"]%string)
                         /\ contains q p = true).
  { unfold texts in Hin. cbn [map] in Hin.
    repeat (destruct Hin as [<-|Hin];
            [first [ exfalso; exact (eq_true_false_abs _ Hp' Ha)
                   | exfalso; exact (eq_true_false_abs _ Hp' Hp)
                   | exfalso; exact (eq_true_false_abs _ Hp' Hc)
                   | exfalso;
                     exact (eq_true_false_abs _
                              (contains_trans (text "amount") (text "extended amount") hc
                                              eq_refl Hp') Ha)
                   | exists (text "total"); split; vm_compute; [tauto|reflexivity]
                   | exists (text "sum"); split; vm_compute; [tauto|reflexivity]
                   | exists (text "value"); split; vm_compute; [tauto|reflexivity]
                   | exists (text "charge"); split; vm_compute; [tauto|reflexivity] ]|]).
    destruct Hin. }
  destruct Hq as (q & Hq & Hqp). exists q. split; [exact Hq|].
  exact (contains_trans _ _ _ Hqp Hp').
Qed.

(** The first three roles of the table claim amount, price and cost. *)
Ltac amount_shadowed h :=
  unfold Shared.match_header_enhanced; destruct h as [|c r]; [discriminate|];
  cbv zeta; rewrite header_roles_by_substring;
  change (join (text " ") (split_ws (Shared.clean_punct (strip (lower (c :: r))))))
    with (clean_header (c :: r));
  set (hc := clean_header (c :: r));
  cbn [HEADER_PATTERNS loaded invoice_processor.local_tables Shared.first_some fst snd];
  destruct (any_in _ hc) eqn:E1; [discriminate|];
  destruct (any_in _ hc) eqn:E2 in |- *; [discriminate|];
  destruct (any_in _ hc) eqn:E3 in |- *; [discriminate|];
  destruct (any_in _ hc) eqn:E4 in |- *; [|discriminate];
  intros _;
  assert (Ha : contains (text "amount") hc = false)
    by (apply (any_in_false _ _ _ E2); vm_compute; tauto);
  assert (Hp : contains (text "price") hc = false)
    by (apply (any_in_false _ _ _ E3); vm_compute; tauto);
  assert (Hc : contains (text "cost") hc = false)
    by (apply (any_in_false _ _ _ E3); vm_compute; tauto);
  split;
  [ destruct (any_in_true _ _ E4) as (p & Hin & Hp');
    exact (amount_synonym_reachable hc p Hin Hp' Ha Hp Hc)
  | unfold any_in, texts; cbn [map existsb]; now rewrite Ha, Hp, Hc ].

(** X9.  With the pattern tables of the program (the one of [config.py] and
    the one the single-file pipeline carries) a column is read as an Amount
    column only when its cleaned header contains total, sum, value or charge,
    and never when it contains amount, price or cost: these three are
    claimed by the Quantity and UnitPrice roles, which are tried first. *)
Theorem X9_amount_role_is_shadowed :
  forall (cfg : Tables) (header_text : str),
    cfg = loaded \/ cfg = invoice_processor.local_tables ->
    Shared.match_header_enhanced cfg header_text = Some amount ->
    any_in AMOUNT_REACHABLE (clean_header header_text) = true
    /\ any_in (texts ["amount"; "price"; "cost"]%string) (clean_header header_text) = false.
Proof.
  intros cfg h [-> | ->].
  - amount_shadowed h.
  - amount_shadowed h.
Qed.

Lemma X9_line_total_witness :
  Shared.match_header_enhanced loaded (text "Line Total") = Some amount
  /\ any_in AMOUNT_REACHABLE (clean_header (text "Line Total")) = true.
Proof.
  assert (E : Shared.match_header_enhanced loaded (text "Line Total") = Some amount)
    by (vm_compute; reflexivity).
  split; [exact E|].
  exact (proj1 (X9_amount_role_is_shadowed loaded _ (or_introl eq_refl) E)).
Defined.

(** ** The text scan is a fallback *)

Lemma fold_left_mono {B : Type} (f : Shared.best -> B -> Shared.best) (l : list B) :
  (forall a b, (snd a <= snd (f a b))%Z) ->
  forall a, (snd a <= snd (fold_left f l a))%Z.
Proof.
  intros Hf. induction l as [|b r IH]; intros a; simpl; [lia|].
  specialize (IH (f a b)). specialize (Hf a b). lia.
Qed.

Lemma fold_left_reach {B : Type} (f : Shared.best -> B -> Shared.best) (l : list B)
      (b : B) (n : Z) :
  (forall a b, (snd a <= snd (f a b))%Z) ->
  In b l ->
  (forall a, (n <= snd (f a b))%Z) ->
  forall a, (n <= snd (fold_left f l a))%Z.
Proof.
  intros Hf Hin Hb. induction l as [|x r IH]; [destruct Hin|].
  intros a. simpl. destruct Hin as [->|Hin].
  - pose proof (fold_left_mono f r Hf (f a b)). specialize (Hb a). lia.
  - now apply IH.
Qed.

Lemma kv_step_mono (parse : str -> Amount) (k v : str) (st : Shared.best) (kw : str * Z) :
  (snd st <= snd (Shared.kv_step parse k v st kw))%Z.
Proof.
  unfold Shared.kv_step. destruct kw as [keyword priority].
  destruct (contains keyword _); [|lia].
  destruct (is_positive _); [|lia].
  destruct (_ <? _)%Z eqn:E; [|lia].
  apply Z.ltb_lt in E. cbn [snd]. lia.
Qed.

Lemma kv_step_exact (parse : str -> Amount) (k v : str) (st : Shared.best) (p : Z) :
  is_positive (parse v) = true ->
  (p + 5 <= snd (Shared.kv_step parse k v st (strip (lower k), p)))%Z.
Proof.
  intros Hv. unfold Shared.kv_step.
  pose proof (contains_self (strip (lower k)) [] []) as Hc.
  cbn [app] in Hc. rewrite app_nil_r in Hc. rewrite Hc, Hv.
  assert (E : Py.eqb (strip (lower k)) (strip (lower k)) = true) by now apply py_eqb_eq.
  rewrite E. cbn [orb].
  destruct (any_in _ _); destruct (_ <? _)%Z eqn:L; cbn [snd];
    first [apply Z.ltb_lt in L | apply Z.ltb_ge in L]; lia.
Qed.

Lemma tier_kv_exact (cfg : Tables) (parse : str -> Amount) (kv_pairs : list (str * str))
      (k v : str) (p : Z) :
  In (k, v) kv_pairs ->
  In (strip (lower k), p) (TOTAL_KEYWORDS cfg) ->
  is_positive (parse v) = true ->
  (p + 5 <= snd (Shared.tier_kv cfg parse kv_pairs))%Z.
Proof.
  intros Hkv Hkw Hv. unfold Shared.tier_kv.
  apply (fold_left_reach _ kv_pairs (k, v)); [|exact Hkv|].
  - intros a b. apply fold_left_mono. intros; apply kv_step_mono.
  - intros a. cbn [fst snd].
    apply (fold_left_reach _ (TOTAL_KEYWORDS cfg) (strip (lower k), p)); [|exact Hkw|].
    + intros; apply kv_step_mono.
    + intros a'. now apply kv_step_exact.
Qed.

Lemma tier_table_mono (cfg : Tables) (parse : str -> Amount) (st : Shared.best)
      (table_totals : list (str * str)) :
  (snd st <= snd (Shared.tier_table cfg parse st table_totals))%Z.
Proof.
  unfold Shared.tier_table. destruct (Shared.sort_desc _) as [|b r]; [lia|].
  destruct (_ <? _)%Z eqn:E; [|lia]. apply Z.ltb_lt in E. cbn [snd]. lia.
Qed.

(** X10.  When a form field whose key is, once lower-cased and stripped,
    exactly a total keyword holds a positive amount, the document text is not
    consulted: the total found is the same whatever the text says. *)
Theorem X10_exact_keyword_field_silences_text_scan :
  forall (cfg : Tables) (parse : str -> Amount)
         (kv_pairs table_totals : list (str * str)) (k v : str) (p : Z)
         (all_text all_text' : str),
    In (k, v) kv_pairs ->
    In (strip (lower k), p) (TOTAL_KEYWORDS cfg) ->
    (0 <= p)%Z ->
    is_positive (parse v) = true ->
    Shared.find_invoice_total cfg parse kv_pairs table_totals all_text
    = Shared.find_invoice_total cfg parse kv_pairs table_totals all_text'.
Proof.
  intros cfg parse kv_pairs table_totals k v p t t' Hkv Hkw Hp Hv.
  unfold Shared.find_invoice_total. cbv zeta.
  pose proof (tier_kv_exact cfg parse kv_pairs k v p Hkv Hkw Hv) as H1.
  pose proof (tier_table_mono cfg parse (Shared.tier_kv cfg parse kv_pairs) table_totals) as H2.
  unfold Shared.tier_regex.
  destruct (_ <? 5)%Z eqn:E; [|reflexivity].
  apply Z.ltb_lt in E. lia.
Qed.

Lemma X10_total_field_witness :
  utils.find_invoice_total loaded [(text "Total", text "100")] []
                           (text "Grand total 999.00")
  = utils.find_invoice_total loaded [(text "Total", text "100")] [] [].
Proof.
  refine (X10_exact_keyword_field_silences_text_scan
            loaded (utils.parse_amount_with_currency loaded)
            [(text "Total", text "100")] [] (text "Total") (text "100") 1%Z
            (text "Grand total 999.00") [] _ _ _ _).
  - left; reflexivity.
  - vm_compute. left; reflexivity.
  - lia.
  - vm_compute. reflexivity.
Defined.

(** ** From table rows to the page dictionary and back *)

Lemma enum_get_head {A : Type} (a : nat) (l : list A) :
  Dict.get Z.eqb (Z.of_nat a) (combine (map Z.of_nat (seq a (length l))) l) = nth_error l 0.
Proof. destruct l as [|x r]; simpl; [reflexivity|]. now rewrite Z.eqb_refl. Qed.

Lemma enum_get_map {A B : Type} (h : option A -> B) (n : nat) :
  forall (a : nat) (l : list A),
    map (fun c => h (Dict.get Z.eqb c (combine (map Z.of_nat (seq a (length l))) l)))
        (map Z.of_nat (seq a n))
    = map (fun i => h (nth_error l i)) (seq 0 n).
Proof.
  induction n as [|n IH]; intros a l; [reflexivity|].
  cbn [seq map]. rewrite enum_get_head. f_equal.
  rewrite <- (seq_shift n 0), (map_map S). destruct l as [|x r].
  - specialize (IH (S a) []). cbn [length seq map combine] in *.
    rewrite IH. apply map_ext. intros [|i]; reflexivity.
  - cbn [nth_error]. rewrite <- (IH (S a) r). rewrite !map_map. apply map_ext_in.
    intros c Hc. apply in_seq in Hc. cbn [length seq map combine Dict.get].
    replace (Z.of_nat c =? Z.of_nat a)%Z with false; [reflexivity|].
    symmetry. apply Z.eqb_neq. lia.
Qed.

Lemma nth_error_all {A B : Type} (h : option A -> B) (l : list A) :
  map (fun i => h (nth_error l i)) (seq 0 (length l)) = map (fun x => h (Some x)) l.
Proof.
  induction l as [|x r IH]; [reflexivity|].
  cbn [length seq map nth_error]. f_equal.
  rewrite <- seq_shift, map_map. exact IH.
Qed.

Lemma nth_error_pad {A : Type} (d : A) (l : list A) :
  forall n, (length l <= n)%nat ->
            map (fun i => match nth_error l i with Some t => t | None => d end) (seq 0 n)
            = l ++ repeat d (n - length l).
Proof.
  induction l as [|x r IH]; intros n Hn.
  - cbn [length app]. rewrite Nat.sub_0_r. clear Hn.
    generalize 0%nat. induction n as [|n IHn]; intros a; [reflexivity|].
    cbn [seq map repeat]. rewrite IHn. now destruct a.
  - destruct n as [|n]; [simpl in Hn; lia|].
    cbn [length seq map nth_error app Nat.sub]. f_equal.
    rewrite <- seq_shift, map_map. apply IH. simpl in Hn. lia.
Qed.

Lemma combine_map_r {A B C : Type} (f : B -> C) (xs : list A) (ys : list B) :
  map (fun p : A * B => (fst p, f (snd p))) (combine xs ys) = combine xs (map f ys).
Proof.
  revert ys. induction xs as [|x xs IH]; intros [|y ys]; simpl; [reflexivity..|].
  now rewrite IH.
Qed.

Lemma combine_fst {A B : Type} (xs : list A) (ys : list B) :
  length xs = length ys -> map fst (combine xs ys) = xs.
Proof.
  revert ys. induction xs as [|x xs IH]; intros [|y ys]; simpl; try congruence.
  intros [= H]. now rewrite IH.
Qed.

Lemma combine_snd {A B : Type} (xs : list A) (ys : list B) :
  length xs = length ys -> map snd (combine xs ys) = ys.
Proof.
  revert ys. induction xs as [|x xs IH]; intros [|y ys]; simpl; try congruence.
  intros [= H]. now rewrite IH.
Qed.

Lemma enumerate1_keys {A : Type} (l : list A) :
  Dict.keys (enumerate1 l) = map Z.of_nat (seq 1 (length l)).
Proof.
  unfold Dict.keys, enumerate1. apply combine_fst. now rewrite length_map, length_seq.
Qed.

Lemma enumerate1_values {A : Type} (l : list A) : Dict.values (enumerate1 l) = l.
Proof.
  unfold Dict.values, enumerate1. apply combine_snd. now rewrite length_map, length_seq.
Qed.

Lemma sorted_seq (n : nat) :
  forall a, Shared.sorted (map Z.of_nat (seq a n)) = map Z.of_nat (seq a n).
Proof.
  induction n as [|n IH]; intros a; [reflexivity|].
  cbn [seq map]. unfold Shared.sorted in *. cbn [fold_right]. rewrite IH.
  destruct n as [|n]; [reflexivity|]. cbn [seq map Shared.insert_asc].
  replace (Z.of_nat (S a) <=? Z.of_nat a)%Z with false; [reflexivity|].
  symmetry. apply Z.leb_gt. lia.
Qed.

Lemma fold_max_seq (n : nat) :
  forall a, fold_left Z.max (map Z.of_nat (seq (S a) n)) (Z.of_nat a) = Z.of_nat (a + n).
Proof.
  induction n as [|n IH]; intros a; cbn [seq map fold_left]; [f_equal; lia|].
  replace (Z.max (Z.of_nat a) (Z.of_nat (S a))) with (Z.of_nat (S a)) by lia.
  rewrite IH. f_equal. lia.
Qed.

Lemma py_max_enumerate1 {A : Type} (l : list A) :
  l <> [] -> Shared.py_max (Dict.keys (enumerate1 l)) = Ok (Z.of_nat (length l)).
Proof.
  intros Hl. rewrite enumerate1_keys. destruct l as [|x r]; [congruence|].
  cbn [length seq map Shared.py_max]. now rewrite (fold_max_seq (length r) 1).
Qed.

Lemma fold_max_widest (rows : list (list str)) :
  forall m, fold_left Z.max (map (fun r : list str => Z.of_nat (length r)) rows) (Z.of_nat m)
            = Z.of_nat (Nat.max m (widest rows)).
Proof.
  induction rows as [|x r IH]; intros m; cbn [map fold_left].
  - unfold widest. simpl. f_equal. lia.
  - replace (Z.max (Z.of_nat m) (Z.of_nat (length x)))
      with (Z.of_nat (Nat.max m (length x))) by lia.
    rewrite IH. unfold widest. cbn [map fold_right]. f_equal. fold (widest r). lia.
Qed.

Lemma widest_ge (rows : list (list str)) (row : list str) :
  In row rows -> (length row <= widest rows)%nat.
Proof.
  unfold widest. induction rows as [|x r IH]; [intros []|].
  cbn [map fold_right]. intros [->|H]; [lia|]. specialize (IH H). lia.
Qed.

Lemma page_is_enumerate1 (rows : list (list str)) :
  map (fun rr : Z * list str => (fst rr, enumerate1 (snd rr))) (enumerate1 rows)
  = combine (map Z.of_nat (seq 1 (length (map (@enumerate1 str) rows))))
            (map (@enumerate1 str) rows).
Proof. unfold enumerate1 at 2. now rewrite combine_map_r, length_map. Qed.

Lemma page_max_cols (rows : list (list str)) :
  (forall row, In row rows -> row <> []) ->
  Shared.max_cols (map (fun rr : Z * list str => (fst rr, enumerate1 (snd rr)))
                       (enumerate1 rows))
  = Ok (Z.of_nat (widest rows)).
Proof.
  intros Hne. unfold Shared.max_cols.
  rewrite page_is_enumerate1.
  fold (enumerate1 (map (@enumerate1 str) rows)). rewrite enumerate1_values.
  assert (E : Exc.mapM (fun r : list (Z * str) => Shared.py_max (Dict.keys r))
                       (map (@enumerate1 str) rows)
              = Ok (map (fun r : list str => Z.of_nat (length r)) rows)).
  { induction rows as [|x r IH]; [reflexivity|].
    cbn [map Exc.mapM]. rewrite py_max_enumerate1 by (apply Hne; now left).
    rewrite IH by (intros; apply Hne; now right). reflexivity. }
  rewrite E. cbn [Exc.bind]. destruct rows as [|x r]; [reflexivity|].
  cbn [map]. rewrite fold_max_widest. reflexivity.
Qed.

Lemma page_materialize (rows : list (list str)) (n : nat) :
  (forall row, In row rows -> (length row <= n)%nat) ->
  Shared.materialize (map (fun rr : Z * list str => (fst rr, enumerate1 (snd rr)))
                          (enumerate1 rows)) (Z.of_nat n)
  = map (pad n) rows.
Proof.
  intros Hn. unfold Shared.materialize.
  rewrite page_is_enumerate1.
  fold (enumerate1 (map (@enumerate1 str) rows)).
  rewrite enumerate1_keys, sorted_seq. unfold enumerate1 at 1.
  set (h := fun o : option (list (Z * str)) =>
              map (fun c => match Dict.get Z.eqb c
                                    match o with Some d => d | None => [] end with
                            | Some t => t | None => [] end)
                  (Shared.range1 (Z.of_nat n))).
  change (map (fun c => h (Dict.get Z.eqb c
                 (combine (map Z.of_nat (seq 1 (length (map (@enumerate1 str) rows))))
                          (map (@enumerate1 str) rows))))
              (map Z.of_nat (seq 1 (length (map (@enumerate1 str) rows))))
          = map (pad n) rows).
  rewrite (enum_get_map h), (nth_error_all h), map_map. apply map_ext_in. intros row Hrow.
  unfold h, Shared.range1, pad. rewrite Nat2Z.id. unfold enumerate1.
  set (h' := fun o : option str => match o with Some t => t | None => [] end).
  change (map (fun c => h' (Dict.get Z.eqb c
                 (combine (map Z.of_nat (seq 1 (length row))) row)))
              (map Z.of_nat (seq 1 n))
          = row ++ repeat [] (n - length row)).
  rewrite (enum_get_map h'). apply nth_error_pad. now apply Hn.
Qed.

Lemma Forall2_enumerate1 {A B : Type} (P : A -> B -> Prop) (g : Z * A -> B) (l : list A) :
  (forall i a, In a l -> P a (g (i, a))) -> Forall2 P l (map g (enumerate1 l)).
Proof.
  unfold enumerate1. generalize 1%nat.
  induction l as [|a r IH]; intros s H; cbn [length seq map combine]; constructor.
  - apply H. now left.
  - apply IH. intros; apply H; now right.
Qed.

(** X11.  The page dictionary built from an extracted table gives the table
    back when the line-item extractor rebuilds its rows: the column count it
    computes is the length of the longest row, and the rows it works on are
    those of the table, in order, each filled with empty cells up to that
    length. *)
Theorem X11_page_dictionary_round_trip :
  forall ts : list textract_client.Table,
    (forall t row, In t ts -> In row (textract_client.t_rows t) -> row <> []) ->
    Forall2
      (fun (t : textract_client.Table) (pg : Z * RowsDict) =>
         let n := widest (textract_client.t_rows t) in
         Shared.max_cols (snd pg) = Ok (Z.of_nat n)
         /\ Shared.materialize (snd pg) (Z.of_nat n) = map (pad n) (textract_client.t_rows t))
      ts (textract_client.tables_dict_of ts).
Proof.
  intros ts Hne. unfold textract_client.tables_dict_of.
  apply (Forall2_enumerate1 _ (fun pt : Z * textract_client.Table =>
           (fst pt, map (fun rr : Z * list str => (fst rr, enumerate1 (snd rr)))
                        (enumerate1 (textract_client.t_rows (snd pt)))))).
  intros i t Ht. cbn [fst snd]. split.
  - apply page_max_cols. intros row. now apply Hne.
  - apply page_materialize. intros row. apply widest_ge.
Qed.

Lemma X11_ragged_table_witness :
  Forall2
    (fun (t : textract_client.Table) (pg : Z * RowsDict) =>
       let n := widest (textract_client.t_rows t) in
       Shared.max_cols (snd pg) = Ok (Z.of_nat n)
       /\ Shared.materialize (snd pg) (Z.of_nat n) = map (pad n) (textract_client.t_rows t))
    [ragged_table] (textract_client.tables_dict_of [ragged_table]).
Proof.
  apply (X11_page_dictionary_round_trip [ragged_table]).
  intros t row [<-|[]] Hrow. simpl in Hrow.
  destruct Hrow as [<-|[<-|[]]]; discriminate.
Defined.

(** ** The tables built from the blocks *)

Lemma widest_const (rows : list (list str)) (n : nat) :
  rows <> [] -> (forall row, In row rows -> length row = n) -> widest rows = n.
Proof.
  unfold widest. induction rows as [|x r IH]; [congruence|].
  intros _ H. cbn [map fold_right]. rewrite (H x (or_introl eq_refl)).
  destruct r as [|y r']; [simpl; lia|].
  rewrite IH; [lia|discriminate|intros; apply H; now right].
Qed.

(** X12.  The tables built from the blocks are rectangular: every row of a
    table has as many cells as its longest row, cells without a block being
    empty strings. *)
Theorem X12_extracted_tables_are_rectangular :
  forall (blocks : list Block) (t : textract_client.Table) (row : list str),
    In t (textract_client.extract_tables blocks) ->
    In row (textract_client.t_rows t) ->
    length row = widest (textract_client.t_rows t).
Proof.
  intros blocks t row Ht Hrow. unfold textract_client.extract_tables in Ht.
  apply in_map_iff in Ht. destruct Ht as (tb & <- & _).
  destruct (fold_left _ _ _) as [rows mc]. cbn [textract_client.t_rows] in *.
  assert (Hall : forall row', In row' (map (fun row_index : Z =>
             map (fun col_index : Z =>
                    match Dict.get Z.eqb col_index
                            match Dict.get Z.eqb row_index rows with
                            | Some c => c | None => [] end with
                    | Some t => t | None => [] end) (Shared.range1 mc))
             (Shared.sorted (Dict.keys rows)))
           -> length row' = length (Shared.range1 mc)).
  { intros row' H. apply in_map_iff in H. destruct H as (ri & <- & _).
    now rewrite length_map. }
  rewrite (widest_const _ (length (Shared.range1 mc))).
  - now apply Hall.
  - intros E. rewrite E in Hrow. destruct Hrow.
  - exact Hall.
Qed.

Lemma X12_small_table_witness :
  exists t row,
    In t (textract_client.extract_tables small_table_blocks)
    /\ In row (textract_client.t_rows t)
    /\ row = [text "Consulting fee"; []]
    /\ length row = widest (textract_client.t_rows t).
Proof.
  assert (E : textract_client.t_rows
                (hd (table_of []) (textract_client.extract_tables small_table_blocks))
              = [[text "Item"; text "Total"]; [text "Consulting fee"; []]])
    by (vm_compute; reflexivity).
  assert (Ht : In (hd (table_of []) (textract_client.extract_tables small_table_blocks))
                  (textract_client.extract_tables small_table_blocks))
    by (vm_compute; left; reflexivity).
  assert (Hrow : In [text "Consulting fee"; []]
                    (textract_client.t_rows
                       (hd (table_of []) (textract_client.extract_tables small_table_blocks))))
    by (rewrite E; right; left; reflexivity).
  eexists; eexists. split; [exact Ht|]. split; [exact Hrow|]. split; [reflexivity|].
  exact (X12_extracted_tables_are_rectangular _ _ _ Ht Hrow).
Defined.

Lemma insert_asc_In (x y : Z) (l : list Z) :
  In y (Shared.insert_asc x l) <-> y = x \/ In y l.
Proof.
  induction l as [|z r IH]; simpl; [intuition|].
  destruct (z <=? x)%Z; simpl; rewrite ?IH; intuition.
Qed.

Lemma sorted_In (x : Z) (l : list Z) : In x (Shared.sorted l) <-> In x l.
Proof.
  unfold Shared.sorted. induction l as [|z r IH]; simpl; [tauto|].
  rewrite insert_asc_In, IH. intuition.
Qed.

Lemma dict_get_key {V : Type} (k : Z) (v : V) (d : list (Z * V)) :
  Dict.get Z.eqb k d = Some v -> In k (Dict.keys d).
Proof.
  induction d as [|[k0 v0] r IH]; simpl; [discriminate|].
  destruct (k =? k0)%Z eqn:E; [apply Z.eqb_eq in E; now left|].
  intros H. right. now apply IH.
Qed.

Lemma range1_nth (n c : Z) :
  (1 <= c <= n)%Z -> nth_error (Shared.range1 n) (Z.to_nat (c - 1)) = Some c.
Proof.
  intros H. unfold Shared.range1. rewrite nth_error_map.
  rewrite (nth_error_nth' _ 0%nat) by (rewrite length_seq; lia).
  rewrite seq_nth by lia. cbn [option_map]. f_equal. lia.
Qed.

Lemma place_cell_places (blocks : list Block) (st : textract_client.CellRows * Z)
      (cell : Block) :
  placed (row_of cell) (col_of cell) (textract_client._get_text_from_cell cell blocks)
         (textract_client.place_cell blocks st cell).
Proof.
  destruct st as [rows mc]. unfold textract_client.place_cell, placed.
  fold (row_of cell) (col_of cell). cbn [fst snd]. split; [|lia].
  eexists. split.
  - rewrite (dict_get_set Z.eqb Z.eqb_eq), Z.eqb_refl. reflexivity.
  - rewrite (dict_get_set Z.eqb Z.eqb_eq), Z.eqb_refl. reflexivity.
Qed.

Lemma place_cell_keeps (blocks : list Block) (r c : Z) (txt : str)
      (st : textract_client.CellRows * Z) (cell : Block) :
  ~ (row_of cell = r /\ col_of cell = c) ->
  placed r c txt st -> placed r c txt (textract_client.place_cell blocks st cell).
Proof.
  intros Hne [(cols & Hr & Hc) Hm]. destruct st as [rows mc].
  unfold textract_client.place_cell, placed.
  fold (row_of cell) (col_of cell). cbn [fst snd] in *. split; [|lia].
  rewrite (dict_get_set Z.eqb Z.eqb_eq).
  destruct (r =? row_of cell)%Z eqn:E; [|now exists cols].
  apply Z.eqb_eq in E. subst r. rewrite Hr.
  eexists. split; [reflexivity|].
  rewrite (dict_get_set Z.eqb Z.eqb_eq).
  destruct (c =? col_of cell)%Z eqn:E'; [|exact Hc].
  apply Z.eqb_eq in E'. subst c. now destruct Hne.
Qed.

(** X13.  Every cell of a table reaches the table built from it: its text
    stands at its column in one of the rows, unless a later cell of the same
    table has the same row and column index. *)
Theorem X13_cell_text_reaches_its_column :
  forall (blocks : list Block) (table_block cell : Block) (pre post : list Block),
    In table_block blocks ->
    Py.eqb (BlockType table_block) (text "TABLE") = true ->
    textract_client.cells_of table_block blocks = pre ++ cell :: post ->
    (1 <= col_of cell)%Z ->
    (forall later, In later post ->
                   ~ (row_of later = row_of cell /\ col_of later = col_of cell)) ->
    exists t,
      In t (textract_client.extract_tables blocks)
      /\ exists row,
          In row (textract_client.t_rows t)
          /\ nth_error row (Z.to_nat (col_of cell - 1))
             = Some (textract_client._get_text_from_cell cell blocks).
Proof.
  intros blocks tb cell pre post Hin Hty Hcells Hcol Hpost.
  unfold textract_client.extract_tables.
  eexists. split.
  { apply (in_map _ _ tb). apply filter_In. split; [exact Hin|exact Hty]. }
  cbv beta. rewrite Hcells, fold_left_app. cbn [fold_left].
  assert (P : placed (row_of cell) (col_of cell)
                     (textract_client._get_text_from_cell cell blocks)
                     (fold_left (textract_client.place_cell blocks) post
                        (textract_client.place_cell blocks
                           (fold_left (textract_client.place_cell blocks) pre ([], 0%Z))
                           cell))).
  { apply (fold_left_inv _ (fun later => ~ (row_of later = row_of cell
                                            /\ col_of later = col_of cell))).
    - intros a b Hb Ha. now apply place_cell_keeps.
    - apply Forall_forall. exact Hpost.
    - apply place_cell_places. }
  destruct (fold_left _ post _) as [rows mc].
  destruct P as [(cols & Hr & Hc) Hm]. cbn [fst snd textract_client.t_rows] in *.
  eexists. split.
  - apply in_map_iff. exists (row_of cell). split; [reflexivity|].
    apply sorted_In. exact (dict_get_key _ _ _ Hr).
  - rewrite Hr, nth_error_map, (range1_nth mc (col_of cell)) by lia.
    cbn [option_map]. now rewrite Hc.
Qed.

Lemma X13_small_table_witness :
  exists t,
    In t (textract_client.extract_tables small_table_blocks)
    /\ exists row, In row (textract_client.t_rows t) /\ nth_error row 1 = Some (text "Total").
Proof.
  refine (X13_cell_text_reaches_its_column
            small_table_blocks small_table_block (cell_block "c2" 1 2 ["w2"]%string)
            [cell_block "c1" 1 1 ["w1"]%string] [cell_block "c3" 2 1 ["w3"; "w4"]%string]
            _ _ _ _ _).
  - left; reflexivity.
  - vm_compute; reflexivity.
  - vm_compute; reflexivity.
  - vm_compute; discriminate.
  - intros later [<-|[]] [H _]. vm_compute in H. discriminate.
Defined.

(** ** The fields read from the forms *)

Lemma lstrip_head (s : str) :
  match lstrip s with c :: _ => isspace c = false | [] => True end.
Proof.
  induction s as [|c r IH]; simpl; [exact I|].
  destruct (isspace c) eqn:E; [exact IH|exact E].
Qed.

Lemma lstrip_fix (s : str) :
  match s with c :: _ => isspace c = false | [] => True end -> lstrip s = s.
Proof. destruct s as [|c r]; simpl; [reflexivity|]. now intros ->. Qed.

Lemma lstrip_idem (s : str) : lstrip (lstrip s) = lstrip s.
Proof. apply lstrip_fix, lstrip_head. Qed.

Lemma lstrip_snoc (s : str) (c : char) :
  isspace c = false -> lstrip (s ++ [c]) = lstrip s ++ [c].
Proof.
  intros Hc. induction s as [|x r IH]; simpl; [now rewrite Hc|].
  destruct (isspace x); [exact IH|reflexivity].
Qed.

Lemma rstrip_cons (c : char) (s : str) :
  isspace c = false -> rstrip (c :: s) = c :: rstrip s.
Proof.
  intros Hc. unfold rstrip. cbn [rev].
  now rewrite lstrip_snoc, rev_app_distr.
Qed.

Lemma strip_idem (s : str) : strip (strip s) = strip s.
Proof.
  unfold strip. pose proof (lstrip_head s) as H.
  destruct (lstrip s) as [|c r].
  - reflexivity.
  - rewrite (rstrip_cons c r H). cbn [lstrip]. rewrite H.
    rewrite <- (rstrip_cons c r H). unfold rstrip.
    now rewrite rev_involutive, lstrip_idem.
Qed.

Lemma first_some_found {A B : Type} (f : A -> option B) (l : list A) (b : B) :
  Shared.first_some f l = Some b -> exists a, In a l /\ f a = Some b.
Proof.
  induction l as [|a r IH]; simpl; [discriminate|].
  destruct (f a) eqn:E.
  - intros [= ->]. exists a. split; [now left|exact E].
  - intros H. destruct (IH H) as (a' & Ha & Hf). exists a'. split; [now right|exact Hf].
Qed.

Lemma kv_pairs_of_stripped (fs : list textract_client.Form) :
  Forall (fun kv : str * str => strip (snd kv) = snd kv) (textract_client.kv_pairs_of fs).
Proof.
  unfold textract_client.kv_pairs_of.
  apply fold_left_keeps; [|constructor].
  intros kv form Hkv. cbv zeta.
  destruct (Shared.nonempty _ && Shared.nonempty _); [|exact Hkv].
  apply dict_set_Forall; [apply py_eqb_eq| |exact Hkv].
  apply strip_idem.
Qed.

Lemma payment_terms_long (cfg : Tables) (fs : list textract_client.Form) (v : str) :
  find_payment_terms cfg (textract_client.kv_pairs_of fs) = Some v -> (20 < length v)%nat.
Proof.
  unfold find_payment_terms. intros H.
  destruct (first_some_found _ _ _ H) as ([k x] & Hin & Hf). cbn [fst snd] in Hf.
  destruct (any_in _ k && (20 <? length x)%nat) eqn:E; [|discriminate].
  injection Hf as <-. apply andb_true_iff in E. destruct E as [_ E].
  apply Nat.ltb_lt in E.
  pose proof (kv_pairs_of_stripped fs) as Hs. rewrite Forall_forall in Hs.
  pose proof (Hs _ Hin) as Hx. cbn [snd] in Hx. rewrite Hx. exact E.
Qed.

Lemma invoice_date_nonempty (cfg : Tables) (kv_pairs : list (str * str)) (v : str) :
  find_invoice_date cfg kv_pairs = Some v -> v <> [].
Proof.
  unfold find_invoice_date. intros H.
  destruct (first_some_found _ _ _ H) as ([k x] & Hin & Hf). cbn [fst snd] in Hf.
  destruct (any_in _ k && Shared.nonempty (strip x)) eqn:E; [|discriminate].
  injection Hf as <-. apply andb_true_iff in E. destruct E as [_ E].
  now apply nonempty_true.
Qed.

(** X14.  Unless a query asks for them, the payment terms of the record are
    null or a text of more than 20 characters, and the invoice date is null or
    a non-empty text: a short payment note and a blank date never reach the
    record. *)
Theorem X14_form_fields_are_filtered :
  forall (g : Tables) (results : textract_client.Results) (r : InvoiceRecord),
    textract_client.parse_extracted_data g results = Ok r ->
    ((forall q, In q (textract_client.queries results) ->
                textract_client.q_query q <> text "What is the payment terms?") ->
     exists v, rec_get "PaymentTerms" r = Some v /\ terms_ok v)
    /\ ((forall q, In q (textract_client.queries results) ->
                   textract_client.q_query q <> text "What is the invoice date?") ->
        exists v, rec_get "InvoiceDate" r = Some v /\ date_ok v).
Proof.
  intros g results r Hr.
  destruct (parse_extracted_data_queries _ _ _ Hr) as (r0 & Hr0 & ->).
  unfold textract_client.parse_extracted_data, without_queries in Hr0.
  cbn [textract_client.layout textract_client.forms textract_client.tables
       textract_client.queries] in Hr0.
  destruct (textract_client.extract_line_items_from_tables g _) as [items|e];
    cbn [Exc.bind fold_left] in Hr0; [|discriminate].
  injection Hr0 as <-.
  pose proof (payment_terms_long g (textract_client.forms results)) as Ht.
  pose proof (invoice_date_nonempty g
                (textract_client.kv_pairs_of (textract_client.forms results))) as Hd.
  split; intros Hq.
  - rewrite (fold_override_other g "PaymentTerms" (text "What is the payment terms?"));
      [|reflexivity|exact Hq].
    rewrite !rec_get_set. cbn [String.eqb Ascii.eqb Bool.eqb].
    destruct (find_payment_terms g _) as [v|].
    + exists (FStr v). split; [rewrite rec_get_set; reflexivity|]. now apply Ht.
    + exists FNone. split; [|exact I]. destruct (find_invoice_date g _); reflexivity.
  - rewrite (fold_override_other g "InvoiceDate" (text "What is the invoice date?"));
      [|reflexivity|exact Hq].
    rewrite !rec_get_set. cbn [String.eqb Ascii.eqb Bool.eqb].
    assert (E : forall r1 : InvoiceRecord,
               rec_get "InvoiceDate"
                 match find_payment_terms g
                         (textract_client.kv_pairs_of (textract_client.forms results)) with
                 | Some v => rec_set "PaymentTerms" (FStr v) r1
                 | None => r1
                 end = rec_get "InvoiceDate" r1).
    { intros r1. destruct (find_payment_terms g _); [|reflexivity].
      rewrite rec_get_set. reflexivity. }
    rewrite E. clear E.
    destruct (find_invoice_date g _) as [dt|].
    + exists (FStr dt). split; [reflexivity|]. now apply Hd.
    + exists FNone. split; [reflexivity|exact I].
Qed.

Lemma X14_short_note_witness :
  exists r,
    textract_client.parse_extracted_data loaded terms_results = Ok r
    /\ rec_get "PaymentTerms" r = Some (FStr (text "Net 30 days from the invoice date"))
    /\ exists v, rec_get "PaymentTerms" r = Some v /\ terms_ok v.
Proof.
  destruct (textract_client.parse_extracted_data loaded terms_results) as [r|e] eqn:E;
    [|vm_compute in E; discriminate].
  exists r. split; [reflexivity|]. split.
  - vm_compute in E. injection E as <-. reflexivity.
  - apply (proj1 (X14_form_fields_are_filtered loaded terms_results r E)).
    intros q [].
Defined.

(** ** A text with a digit parses to a number *)

Lemma run_star (r : Re.re) (prev : option char) (s : str) (cap : option str) (k : Re.cont) :
  Re.run (Re.Star r) prev s cap k = star_loop (Re.run r) k (length s) prev s cap.
Proof. reflexivity. Qed.

(** What the matcher consumes is a text of the pattern. *)
Lemma run_sound (r : Re.re) :
  forall prev s cap k a,
    Re.run r prev s cap k = Some a ->
    exists w s1 p1 c1, s = w ++ s1 /\ matches r w /\ k p1 s1 c1 = Some a.
Proof.
  induction r as [|p|r1 IH1 r2 IH2|r1 IH1 r2 IH2|r1 IH1|r1 IH1|]; intros prev s cap k a.
  - cbn [Re.run]. intros H. exists [], s, prev, cap. repeat split; [constructor|exact H].
  - cbn [Re.run]. destruct s as [|c s']; [discriminate|].
    destruct (p c) eqn:E; [|discriminate]. intros H.
    exists [c], s', (Some c), cap. repeat split; [now constructor|exact H].
  - cbn [Re.run]. intros H.
    destruct (IH1 _ _ _ _ _ H) as (w1 & s1 & p1 & c1 & -> & M1 & H1).
    destruct (IH2 _ _ _ _ _ H1) as (w2 & s2 & p2 & c2 & -> & M2 & H2).
    exists (w1 ++ w2), s2, p2, c2. rewrite app_assoc.
    repeat split; [now constructor|exact H2].
  - cbn [Re.run]. destruct (Re.run r1 prev s cap k) as [a'|] eqn:E.
    + intros [= <-]. destruct (IH1 _ _ _ _ _ E) as (w & s1 & p1 & c1 & -> & M & H).
      exists w, s1, p1, c1. repeat split; [now apply m_alt_l|exact H].
    + intros H. destruct (IH2 _ _ _ _ _ H) as (w & s1 & p1 & c1 & -> & M & H').
      exists w, s1, p1, c1. repeat split; [now apply m_alt_r|exact H'].
  - rewrite run_star. generalize (length s) as n. intros n. revert prev s cap a.
    induction n as [|n IHn]; intros prev s cap a; cbn [star_loop].
    + intros H. exists [], s, prev, cap. repeat split; [constructor|exact H].
    + destruct (Re.run r1 prev s cap _) as [a'|] eqn:E.
      * intros [= <-]. destruct (IH1 _ _ _ _ _ E) as (w1 & s1 & p1 & c1 & -> & M1 & H1).
        destruct (_ <? _)%nat; [|discriminate].
        destruct (IHn _ _ _ _ H1) as (w2 & s2 & p2 & c2 & -> & M2 & H2).
        exists (w1 ++ w2), s2, p2, c2. rewrite app_assoc.
        repeat split; [now constructor|exact H2].
      * intros H. exists [], s, prev, cap. repeat split; [constructor|exact H].
  - cbn [Re.run]. intros H.
    destruct (IH1 _ _ _ _ _ H) as (w & s1 & p1 & c1 & -> & M & H').
    exists w, s1, p1, (Some (firstn (length (w ++ s1) - length s1) (w ++ s1))).
    repeat split; [now constructor|exact H'].
  - cbn [Re.run]. destruct (xorb _ _); [|discriminate]. intros H.
    exists [], s, prev, cap. repeat split; [constructor|exact H].
Qed.

Lemma match_at_sound (r : Re.re) (prev : option char) (s : str) (m : Re.mtch) :
  Re.match_at r prev s = Some m -> matches r (Re.m_all m).
Proof.
  unfold Re.match_at.
  destruct (Re.run r prev s None _) as [[s1 c1]|] eqn:E; [|discriminate].
  intros [= <-]. cbn [Re.m_all].
  destruct (run_sound r _ _ _ _ _ E) as (w & s1' & p1 & c1' & -> & M & [= <- <-]).
  rewrite length_app, Nat.add_sub, firstn_app, Nat.sub_diag, firstn_all.
  cbn [firstn]. now rewrite app_nil_r.
Qed.

Lemma search_from_sound (r : Re.re) (s : str) :
  forall prev m, Re.search_from r prev s = Some m -> matches r (Re.m_all m).
Proof.
  induction s as [|c s IH]; intros prev m; cbn [Re.search_from].
  - destruct (Re.match_at r prev []) eqn:E; [|discriminate].
    intros [= <-]. exact (match_at_sound _ _ _ _ E).
  - destruct (Re.match_at r prev (c :: s)) eqn:E.
    + intros [= <-]. exact (match_at_sound _ _ _ _ E).
    + apply IH.
Qed.

(** A starred or optional pattern succeeds where what follows it does. *)
Lemma star_skips (r : Re.re) (prev : option char) (s : str) (cap : option str)
      (k : Re.cont) :
  k prev s cap <> None -> Re.run (Re.Star r) prev s cap k <> None.
Proof.
  intros H. rewrite run_star. destruct (length s); cbn [star_loop]; [exact H|].
  destruct (Re.run r prev s cap _); [discriminate|exact H].
Qed.

Lemma opt_skips (r : Re.re) (prev : option char) (s : str) (cap : option str)
      (k : Re.cont) :
  k prev s cap <> None -> Re.run (Re.Opt r) prev s cap k <> None.
Proof.
  intros H. unfold Re.Opt. cbn [Re.run].
  destruct (Re.run r prev s cap k); [discriminate|exact H].
Qed.

Lemma number_at_digit (c : char) (r : str) (prev : option char) :
  isdigit c = true -> Re.match_at NUMBER prev (c :: r) <> None.
Proof.
  intros Hc. unfold Re.match_at.
  assert (H : Re.run NUMBER prev (c :: r) None (fun _ s1 c1 => Some (s1, c1)) <> None).
  { unfold NUMBER, seq_re. cbn [fold_right].
    change (Re.run (Re.Cat ?a ?b) ?p ?s ?cp ?k)
      with (Re.run a p s cp (fun p1 s1 c1 => Re.run b p1 s1 c1 k)).
    apply opt_skips, star_skips, opt_skips.
    unfold Re.Plus, Re.d. cbn [Re.run]. rewrite Hc.
    apply (star_skips (Re.Set_ isdigit)). discriminate. }
  destruct (Re.run NUMBER _ _ _ _) as [[s1 c1]|]; [discriminate|contradiction].
Qed.

Lemma search_number_some (s : str) :
  has_digit s = true -> forall prev, Re.search_from NUMBER prev s <> None.
Proof.
  induction s as [|c r IH]; [discriminate|].
  unfold has_digit. cbn [existsb]. intros H prev. cbn [Re.search_from].
  destruct (Re.match_at NUMBER prev (c :: r)) eqn:E; [discriminate|].
  destruct (isdigit c) eqn:Hc.
  - exfalso. exact (number_at_digit c r prev Hc E).
  - apply IH. exact H.
Qed.

Lemma star_digits (w : str) : matches (Re.Star Re.d) w -> Forall (fun c => isdigit c = true) w.
Proof.
  intros H. remember (Re.Star Re.d) as r eqn:E.
  induction H as [| | | | | |r0 w1 w2 H1 _ H2 IH2| |]; try discriminate; [constructor|].
  injection E as ->. apply Forall_app. split; [|now apply IH2].
  inversion H1; subst. now repeat constructor.
Qed.

(** The shape of a match of the number pattern. *)
Lemma number_shape (w : str) :
  matches NUMBER w ->
  exists sg ds dt ds',
    w = sg ++ ds ++ dt ++ ds'
    /\ (sg = [] \/ sg = [45] \/ sg = [43])
    /\ Forall (fun c => isdigit c = true) ds
    /\ (dt = [] \/ dt = [46])
    /\ Forall (fun c => isdigit c = true) ds' /\ ds' <> [].
Proof.
  unfold NUMBER, seq_re. cbn [fold_right]. intros H.
  inversion H as [| |r1 r2 sg w1 Hsg H1| | | | | |]; subst. clear H.
  inversion H1 as [| |r1 r2 ds w2 Hds H2| | | | | |]; subst. clear H1.
  inversion H2 as [| |r1 r2 dt w3 Hdt H3| | | | | |]; subst. clear H2.
  inversion H3 as [| |r1 r2 ds' w4 Hds' H4| | | | | |]; subst. clear H3.
  inversion H4; subst. clear H4. rewrite app_nil_r.
  exists sg, ds, dt, ds'. split; [reflexivity|]. repeat split.
  - unfold Re.Opt in Hsg. inversion Hsg as [| | |r1 r2 w H|r1 r2 w H| | | |]; subst.
    + inversion H as [|p c Hp| | | | | | |]; subst. unfold existsb in Hp.
      change (text "-+") with [45; 43] in Hp.
      destruct (c =? 45) eqn:E1; [apply N.eqb_eq in E1; subst; auto|].
      destruct (c =? 43) eqn:E2; [apply N.eqb_eq in E2; subst; auto|discriminate].
    + inversion H; subst. auto.
  - now apply star_digits.
  - unfold Re.Opt in Hdt. inversion Hdt as [| | |r1 r2 w H|r1 r2 w H| | | |]; subst.
    + inversion H as [|p c Hp| | | | | | |]; subst.
      apply N.eqb_eq in Hp. subst. auto.
    + inversion H; subst. auto.
  - unfold Re.Plus in Hds'. inversion Hds' as [| |r1 r2 w1 w2 Hd Hs| | | | | |]; subst.
    inversion Hd; subst. constructor; [assumption|]. now apply star_digits.
  - unfold Re.Plus in Hds'. inversion Hds' as [| |r1 r2 w1 w2 Hd Hs| | | | | |]; subst.
    inversion Hd; subst. discriminate.
Qed.

Lemma digit_not_space (c : char) : isdigit c = true -> isspace c = false.
Proof.
  unfold isdigit, isspace. rewrite andb_true_iff, !N.leb_le. intros [H1 H2].
  repeat match goal with
         | |- context [(?a <=? ?b)] =>
             let E := fresh in
             destruct (a <=? b) eqn:E;
             [apply N.leb_le in E|apply N.leb_gt in E]
         | |- context [(?a =? ?b)] =>
             let E := fresh in
             destruct (a =? b) eqn:E;
             [apply N.eqb_eq in E|apply N.eqb_neq in E]
         end; try reflexivity; lia.
Qed.

Lemma strip_no_space (w : str) : Forall (fun c => isspace c = false) w -> strip w = w.
Proof.
  intros H. unfold strip, rstrip.
  assert (L : forall x, Forall (fun c => isspace c = false) x -> lstrip x = x).
  { intros x Hx. destruct Hx as [|c r Hc _]; [reflexivity|]. cbn [lstrip]. now rewrite Hc. }
  rewrite (L w H), L by now apply Forall_rev.
  apply rev_involutive.
Qed.

Lemma more_digits_all (ds rest : str) :
  Forall (fun c => isdigit c = true) ds ->
  match rest with c :: _ => isdigit c = false /\ c <> 95 | [] => True end ->
  more_digits (ds ++ rest) = (ds, rest).
Proof.
  intros Hds Hrest. induction Hds as [|c r Hc _ IH]; cbn [app].
  - destruct rest as [|c r]; [reflexivity|]. destruct Hrest as [H1 H2].
    cbn [more_digits]. rewrite H1. apply N.eqb_neq in H2. now rewrite H2.
  - cbn [more_digits]. now rewrite Hc, IH.
Qed.

Lemma digitpart_all (ds rest : str) :
  Forall (fun c => isdigit c = true) ds ->
  match rest with c :: _ => isdigit c = false /\ c <> 95 | [] => True end ->
  digitpart (ds ++ rest) = (ds, rest).
Proof.
  intros Hds Hrest. destruct Hds as [|c r Hc Hr]; cbn [app].
  - destruct rest as [|c r]; [reflexivity|]. destruct Hrest as [H1 _].
    cbn [digitpart]. now rewrite H1.
  - cbn [digitpart]. now rewrite Hc, more_digits_all.
Qed.

(** [float] accepts an unsigned decimal: digits, or digits, a dot and digits. *)
Lemma float_body (neg : bool) (ds dt ds' : str) :
  Forall (fun c => isdigit c = true) ds ->
  dt = [] \/ dt = [46] ->
  Forall (fun c => isdigit c = true) ds' -> ds' <> [] ->
  exists v,
    (let low := lower (ds ++ dt ++ ds') in
     if Py.eqb low (text "inf") || Py.eqb low (text "infinity") then Some (Inf neg)
     else if Py.eqb low (text "nan") then Some NaN
     else
       let (ip, r1) := digitpart (ds ++ dt ++ ds') in
       let '(fp, r2) :=
         match r1 with
         | c :: r => if c =? 46 then digitpart r else ([], r1)
         | [] => ([], [])
         end in
       match ip, fp with
       | [], [] => None
       | _, _ =>
           match exponent r2 with
           | Some e =>
               let m := digits_val (ip ++ fp) in
               Some (Fin (scale (if neg then - m else m) (e - Z.of_nat (length fp))))
           | None => None
           end
       end) = Some v.
Proof.
  intros Hds Hdt Hds' Hne. cbv zeta.
  assert (Hlow : forall x, Py.eqb (lower (ds ++ dt ++ ds')) (105 :: x) = false
                           /\ Py.eqb (lower (ds ++ dt ++ ds')) (110 :: x) = false).
  { assert (Hh : exists c r, ds ++ dt ++ ds' = c :: r /\ (isdigit c = true \/ c = 46)).
    { destruct Hds as [|c r Hc _]; [|exists c; eexists; split; [reflexivity|now left]].
      destruct Hdt as [-> | ->]; [|exists 46; eexists; split; [reflexivity|now right]].
      destruct Hds' as [|c r Hc _]; [congruence|].
      exists c; eexists; split; [reflexivity|now left]. }
    destruct Hh as (c & r & -> & Hc). intros x. cbn [lower map Py.eqb].
    assert (E : (lower_char c =? 105) = false /\ (lower_char c =? 110) = false).
    { unfold lower_char, isupper. destruct Hc as [Hc | ->]; [|split; reflexivity].
      unfold isdigit in Hc. apply andb_true_iff in Hc.
      rewrite !N.leb_le in Hc. destruct Hc as [H1 H2].
      replace (65 <=? c) with false by (symmetry; apply N.leb_gt; lia).
      cbn [andb]. split; apply N.eqb_neq; lia. }
    destruct E as [-> ->]. split; reflexivity. }
  change (text "inf") with [105; 110; 102].
  change (text "infinity") with [105; 110; 102; 105; 110; 105; 116; 121].
  change (text "nan") with [110; 97; 110].
  rewrite (proj1 (Hlow _)), (proj1 (Hlow _)), (proj2 (Hlow _)). cbn [orb].
  destruct Hdt as [-> | ->].
  - cbn [app]. rewrite <- (app_nil_r (ds ++ ds')).
    rewrite (digitpart_all (ds ++ ds') []) by first [exact I | apply Forall_app; now split].
    destruct (ds ++ ds') eqn:E; [now destruct ds, ds'|].
    cbn [exponent]. eexists. reflexivity.
  - rewrite (digitpart_all ds _ Hds)
      by (cbn [app]; split; [reflexivity|discriminate]).
    cbn [app]. rewrite N.eqb_refl. rewrite <- (app_nil_r ds').
    rewrite (digitpart_all ds' [] Hds' I).
    destruct ds' as [|c' r']; [congruence|].
    destruct ds; cbn [exponent]; eexists; reflexivity.
Qed.

Lemma float_number (w : str) : matches NUMBER w -> exists v, float w = Some v.
Proof.
  intros H. destruct (number_shape w H) as (sg & ds & dt & ds' & -> & Hsg & Hds & Hdt & Hds' & Hne).
  unfold float. rewrite strip_no_space.
  - assert (Hb : match ds ++ dt ++ ds' with
                 | c :: _ => (c =? 45) = false /\ (c =? 43) = false
                 | [] => True end).
    { destruct Hds as [|c r Hc _].
      - destruct Hdt as [-> | ->]; [|split; reflexivity].
        destruct Hds' as [|c r Hc _]; [exact I|].
        unfold isdigit in Hc. apply andb_true_iff in Hc. rewrite !N.leb_le in Hc.
        split; apply N.eqb_neq; lia.
      - unfold isdigit in Hc. apply andb_true_iff in Hc. rewrite !N.leb_le in Hc.
        split; apply N.eqb_neq; lia. }
    destruct Hsg as [-> | [-> | ->]].
    + cbn [app]. unfold sign_of. destruct (ds ++ dt ++ ds') as [|c r] eqn:E.
      * exfalso. destruct ds; [|discriminate]. destruct dt; [|discriminate].
        now destruct ds'.
      * destruct Hb as [-> ->]. rewrite <- E. now apply float_body.
    + cbn [app sign_of]. rewrite N.eqb_refl. now apply float_body.
    + cbn [app sign_of]. change (43 =? 45) with false. rewrite N.eqb_refl.
      now apply float_body.
  - apply Forall_app. split.
    { destruct Hsg as [-> | [-> | ->]]; repeat constructor. }
    apply Forall_app. split.
    { eapply Forall_impl; [|exact Hds]. apply digit_not_space. }
    apply Forall_app. split.
    { destruct Hdt as [-> | ->]; repeat constructor. }
    eapply Forall_impl; [|exact Hds']. apply digit_not_space.
Qed.

Lemma first_number_some (s : str) : has_digit s = true -> exists v, first_number s = Some v.
Proof.
  intros H. unfold first_number, Re.search.
  destruct (Re.search_from NUMBER None s) as [m|] eqn:E.
  - apply float_number. exact (search_from_sound _ _ _ _ E).
  - exfalso. exact (search_number_some s H None E).
Qed.

(** Cleaning keeps every character that is neither white space nor part of
    what is removed. *)
Lemma startswith_firstn (p s : str) : startswith p s = true -> firstn (length p) s = p.
Proof.
  revert s. induction p as [|x p IH]; intros [|y s]; simpl; try congruence.
  rewrite andb_true_iff, N.eqb_eq. intros [-> H]. now rewrite IH.
Qed.

Lemma replace_from_keeps (old : str) (d : char) :
  old <> [] -> ~ In d old ->
  forall s k, ~ In d (firstn k s) -> In d s -> In d (replace_from old [] k s).
Proof.
  intros Hne Hold. induction s as [|c r IH]; intros k Hk Hin; [destruct Hin|].
  cbn [replace_from]. destruct k as [|k].
  - destruct (startswith old (c :: r)) eqn:E.
    + cbn [app]. apply startswith_firstn in E.
      destruct old as [|x old']; [congruence|]. cbn [length firstn] in E.
      injection E as -> E. cbn [length Nat.sub]. rewrite Nat.sub_0_r.
      apply IH.
      * rewrite E. intros H. apply Hold. now right.
      * destruct Hin as [<-|Hin]; [|exact Hin]. exfalso. apply Hold. now left.
    + destruct Hin as [->|Hin]; [now left|]. right. apply IH; [intros []|exact Hin].
  - cbn [firstn] in Hk. apply IH.
    + intros H. apply Hk. now right.
    + destruct Hin as [->|Hin]; [|exact Hin]. exfalso. apply Hk. now left.
Qed.

Lemma replace_keeps (old s : str) (d : char) :
  ~ In d old -> In d s -> In d (replace old [] s).
Proof.
  intros Hold Hin. unfold replace. destruct old as [|x old'] eqn:E.
  - cbn [app]. apply in_flat_map. exists d. split; [exact Hin|now left].
  - rewrite <- E in *. apply replace_from_keeps; [congruence|exact Hold|intros []|exact Hin].
Qed.

Lemma fold_replace_keeps (symbols : list str) (d : char) :
  (forall symbol, In symbol symbols -> ~ In d symbol) ->
  forall s, In d s -> In d (fold_left (fun c symbol => replace symbol [] c) symbols s).
Proof.
  induction symbols as [|x r IH]; intros H s Hin; cbn [fold_left]; [exact Hin|].
  apply IH; [intros; apply H; now right|].
  apply replace_keeps; [apply H; now left|exact Hin].
Qed.

Lemma lstrip_keeps (s : str) (d : char) : isspace d = false -> In d s -> In d (lstrip s).
Proof.
  intros Hd. induction s as [|c r IH]; [intros []|].
  cbn [lstrip]. destruct (isspace c) eqn:E; [|auto].
  intros [->|H]; [congruence|now apply IH].
Qed.

Lemma strip_keeps (s : str) (d : char) : isspace d = false -> In d s -> In d (strip s).
Proof.
  intros Hd H. unfold strip, rstrip.
  apply in_rev. rewrite rev_involutive.
  apply lstrip_keeps; [exact Hd|]. apply in_rev. rewrite rev_involutive.
  now apply lstrip_keeps.
Qed.

Lemma split_from_keeps (sep : str) (d : char) :
  sep <> [] -> ~ In d sep ->
  forall s k cur,
    ~ In d (firstn k s) -> In d cur \/ In d s ->
    exists part, In part (split_from sep k cur s) /\ In d part.
Proof.
  intros Hne Hsep. induction s as [|c r IH]; intros k cur Hk Hin; cbn [split_from].
  - destruct Hin as [Hin|[]]. exists (rev cur). split; [now left|now apply in_rev in Hin].
  - destruct k as [|k].
    + destruct (startswith sep (c :: r)) eqn:E.
      * apply startswith_firstn in E.
        destruct sep as [|x sep']; [congruence|]. cbn [length firstn] in E.
        injection E as -> E. cbn [length Nat.sub]. rewrite Nat.sub_0_r.
        destruct Hin as [Hin|[<-|Hin]].
        -- exists (rev cur). split; [now left|now apply in_rev in Hin].
        -- exfalso. apply Hsep. now left.
        -- destruct (IH (length sep') []) as (part & Hp & Hd).
           ++ rewrite E. intros H. apply Hsep. now right.
           ++ now right.
           ++ exists part. split; [now right|exact Hd].
      * apply IH; [intros []|]. destruct Hin as [Hin|[->|Hin]].
        -- left. now right.
        -- left. now left.
        -- now right.
    + cbn [firstn] in Hk. apply IH.
      * intros H. apply Hk. now right.
      * destruct Hin as [Hin|[->|Hin]]; [now left| |now right].
        exfalso. apply Hk. now left.
Qed.

Lemma join_keeps (sep part : str) (parts : list str) (d : char) :
  In part parts -> In d part -> In d (join sep parts).
Proof.
  intros Hp Hd. destruct (join_member sep part parts Hp) as (a & b & ->).
  apply in_or_app. right. apply in_or_app. now left.
Qed.

Lemma european_dots_keeps (s : str) (d : char) :
  d <> 46 -> In d s -> In d (european_dots s).
Proof.
  intros Hd Hin. unfold european_dots.
  assert (Hsep : ~ In d (text "."))
    by (intros H; vm_compute in H; destruct H as [H|[]]; congruence).
  destruct (_ && _); [|exact Hin].
  destruct (_ =? _)%nat; [|now apply replace_keeps].
  destruct (split_from_keeps (text ".") d) with (s := s) (k := 0%nat) (cur := @nil char)
    as (part & Hp & Hdp); [discriminate|exact Hsep|intros []|now right|].
  fold (split (text ".") s) in Hp.
  destruct (split (text ".") s) as [|p0 ps] eqn:E; [destruct Hp|].
  rewrite (app_removelast_last [] (l := p0 :: ps)) in Hp by discriminate.
  apply in_app_or in Hp. destruct Hp as [Hp|[<-|[]]].
  - apply in_or_app. left. exact (join_keeps [] part _ d Hp Hdp).
  - apply in_or_app. right. apply in_or_app. now right.
Qed.

Lemma has_digit_In (s : str) :
  has_digit s = true <-> exists d, In d s /\ isdigit d = true.
Proof. apply existsb_exists. Qed.

Lemma digit_not_in (d : char) (symbol : str) :
  isdigit d = true -> no_digit symbol -> ~ In d symbol.
Proof.
  intros Hd Hs Hin. unfold no_digit in Hs. rewrite Forall_forall in Hs.
  specialize (Hs d Hin). congruence.
Qed.

Lemma digit_not_dot (d : char) : isdigit d = true -> d <> 46.
Proof. intros H ->. discriminate. Qed.

Lemma digit_gives_number :
  forall (g : Tables) (t : str),
    has_digit t = true ->
    (Forall no_digit (CURRENCY_SYMBOLS g) ->
     is_number (value (utils.parse_amount_with_currency g t)) = true)
    /\ is_number (value (invoice_processor.parse_amount_with_currency t)) = true.
Proof.
  intros g t Ht. apply has_digit_In in Ht. destruct Ht as (d & Hin & Hd).
  pose proof (digit_not_dot d Hd) as Hdot.
  pose proof (digit_not_space d Hd) as Hsp.
  split.
  - intros Hsym. rewrite Forall_forall in Hsym.
    unfold utils.parse_amount_with_currency, utils.clean_currency_text.
    destruct t as [|c r] eqn:E; [destruct Hin|]. rewrite <- E in *. cbv zeta.
    destruct (first_number_some
                (european_dots
                   (strip (replace (text ",") []
                             (fold_left (fun c symbol => replace symbol [] c)
                                        (CURRENCY_SYMBOLS g) t))))) as [v Hv].
    { apply has_digit_In. exists d. split; [|exact Hd].
      apply european_dots_keeps; [exact Hdot|].
      apply strip_keeps; [exact Hsp|].
      apply replace_keeps;
        [intros H; vm_compute in H; destruct H as [H|[]]; subst d; discriminate|].
      apply fold_replace_keeps; [|exact Hin].
      intros symbol Hs. apply digit_not_in; [exact Hd|now apply Hsym]. }
    rewrite Hv. reflexivity.
  - unfold invoice_processor.parse_amount_with_currency,
      invoice_processor.clean_currency_text.
    destruct t as [|c r] eqn:E; [destruct Hin|]. rewrite <- E in *. cbv zeta.
    destruct (first_number_some
                (european_dots
                   (strip (replace (text "£") [] (replace (text "$") []
                             (replace (text "€") [] (replace (text ",") [] t))))))) as [v Hv].
    { apply has_digit_In. exists d. split; [|exact Hd].
      apply european_dots_keeps; [exact Hdot|].
      apply strip_keeps; [exact Hsp|].
      repeat (apply replace_keeps;
              [intros H; vm_compute in H; destruct H as [H|[]]; subst d; discriminate|]).
      exact Hin. }
    rewrite Hv. reflexivity.
Qed.

Lemma has_digit_false (s : str) : has_digit s = false -> no_digit s.
Proof.
  unfold has_digit, no_digit. induction s as [|c r IH]; cbn [existsb]; [constructor|].
  intros H. apply orb_false_iff in H. destruct H as [H1 H2]. constructor; auto.
Qed.

(** X15.  A text that contains a digit 0 to 9 parses to a number, in both
    copies of the amount parser (for the library one: as long as no currency
    symbol of the table contains such a digit): a date or a reference number
    parses to a number, and the conversion to float does not fail on what the
    number pattern matched.  On an ASCII text the converse holds too, so there
    the value is a number exactly when the text contains a digit; outside
    ASCII Python has further digits, which the embedding does not have. *)
Theorem X15_digit_gives_number :
  forall (g : Tables) (t : str),
    (has_digit t = true ->
     (Forall no_digit (CURRENCY_SYMBOLS g) ->
      is_number (value (utils.parse_amount_with_currency g t)) = true)
     /\ is_number (value (invoice_processor.parse_amount_with_currency t)) = true)
    /\ (ascii_text t ->
        (Forall no_digit (CURRENCY_SYMBOLS g) ->
         is_number (value (utils.parse_amount_with_currency g t)) = has_digit t)
        /\ is_number (value (invoice_processor.parse_amount_with_currency t)) = has_digit t).
Proof.
  intros g t. split; [exact (digit_gives_number g t)|]. intros Ha.
  destruct (has_digit t) eqn:Ht.
  - destruct (digit_gives_number g t Ht) as [H1 H2]. split; [exact H1|exact H2].
  - destruct (digit_free_text_has_no_number g t Ha (has_digit_false t Ht)) as [H1 H2].
    split; [intros _|].
    + unfold utils.parse_amount_with_currency. destruct t as [|c r]; [reflexivity|].
      destruct (utils.clean_currency_text g (c :: r)) as [v cur].
      cbn [fst] in H1. destruct v; try reflexivity. discriminate.
    + unfold invoice_processor.parse_amount_with_currency.
      destruct t as [|c r]; [reflexivity|].
      destruct (invoice_processor.clean_currency_text (c :: r)) as [v cur].
      cbn [fst] in H2. destruct v; try reflexivity. discriminate.
Qed.

Lemma X15_date_text_witness :
  is_number (value (utils.parse_amount_with_currency loaded (text "due 2024-01-05"))) = true
  /\ is_number (value (invoice_processor.parse_amount_with_currency (text "no number")))
     = has_digit (text "no number").
Proof.
  split.
  - assert (Hd : has_digit (text "due 2024-01-05") = true) by (vm_compute; reflexivity).
    destruct (proj1 (X15_digit_gives_number loaded (text "due 2024-01-05")) Hd) as [H1 _].
    apply H1. vm_compute. repeat constructor.
  - assert (Ha : ascii_text (text "no number")) by (vm_compute; repeat constructor).
    exact (proj2 (proj2 (X15_digit_gives_number loaded (text "no number")) Ha)).
Defined.

(** ** The saved record *)

Lemma kv_step_parsed (parse : str -> Amount) (k v : str) (st : Shared.best) (kw : str * Z) :
  best_parsed parse st -> best_parsed parse (Shared.kv_step parse k v st kw).
Proof.
  intros H. unfold Shared.kv_step. destruct kw as [keyword priority].
  destruct (contains keyword _); [|exact H].
  destruct (is_positive (parse v)) eqn:E; [|exact H].
  destruct (_ <? _)%Z; [|exact H]. split; [exact E|now exists v].
Qed.

Lemma table_candidates_parsed (cfg : Tables) (parse : str -> Amount)
      (table_totals : list (str * str)) (c : Amount * Z) :
  In c (Shared.table_candidates cfg parse table_totals) ->
  is_positive (fst c) = true /\ exists v, fst c = parse v.
Proof.
  unfold Shared.table_candidates. rewrite in_flat_map.
  intros ([total_text v] & _ & H). rewrite in_flat_map in H.
  destruct H as ([keyword priority] & _ & H).
  destruct (contains keyword _); [|destruct H].
  destruct (is_positive (parse v)) eqn:E; [|destruct H].
  destruct H as [<-|[]]. split; [exact E|now exists v].
Qed.

Lemma total_is_parsed (cfg : Tables) (parse : str -> Amount)
      (kv_pairs table_totals : list (str * str)) (all_text : str) :
  Shared.find_invoice_total cfg parse kv_pairs table_totals all_text = Shared.DEFAULT_TOTAL
  \/ (is_positive (Shared.find_invoice_total cfg parse kv_pairs table_totals all_text) = true
      /\ exists v, Shared.find_invoice_total cfg parse kv_pairs table_totals all_text
                   = parse v).
Proof.
  assert (H1 : best_parsed parse (Shared.tier_kv cfg parse kv_pairs)).
  { unfold Shared.tier_kv. apply fold_left_keeps; [|exact I].
    intros st kv Hst. apply fold_left_keeps; [|exact Hst].
    intros st' kw. apply kv_step_parsed. }
  assert (H2 : best_parsed parse
                 (Shared.tier_table cfg parse (Shared.tier_kv cfg parse kv_pairs)
                                    table_totals)).
  { unfold Shared.tier_table.
    destruct (Shared.sort_desc _) as [|b r] eqn:E; [exact H1|].
    destruct (_ <? _)%Z; [|exact H1].
    apply (table_candidates_parsed cfg parse table_totals).
    apply sort_desc_In. rewrite E. now left. }
  assert (H3 : best_parsed parse
                 (Shared.tier_regex parse
                    (Shared.tier_table cfg parse (Shared.tier_kv cfg parse kv_pairs)
                                       table_totals) all_text)).
  { unfold Shared.tier_regex. destruct (_ <? 5)%Z; [|exact H2].
    apply fold_left_keeps; [|exact H2].
    intros st pp Hst. apply fold_left_keeps; [|exact Hst].
    intros st' m Hst'. unfold Shared.regex_step.
    destruct (is_positive _) eqn:E; [|exact Hst'].
    destruct (_ <? _)%Z; [|exact Hst']. split; [exact E|now eexists]. }
  unfold Shared.find_invoice_total. cbv zeta. unfold best_parsed in H3.
  destruct (fst _); [right; exact H3|now left].
Qed.

Lemma format_2f_nonempty (v : pyfloat) : format_2f v <> [].
Proof.
  destruct v as [q|neg|]; cbn [format_2f].
  - cbv zeta. intros H. apply (f_equal (@length char)) in H.
    rewrite !length_app in H. cbn [length] in H. lia.
  - destruct neg; discriminate.
  - discriminate.
Qed.

Lemma positive_amount_formatted (v : str) :
  is_positive (invoice_processor.parse_amount_with_currency v) = true ->
  formatted (invoice_processor.parse_amount_with_currency v) <> [].
Proof.
  unfold invoice_processor.parse_amount_with_currency.
  destruct v as [|c r]; [discriminate|].
  destruct (invoice_processor.clean_currency_text (c :: r)) as [a cur].
  destruct a as [|t|x]; [discriminate..|].
  intros _. cbn [formatted]. cbv zeta. pose proof (format_2f_nonempty x) as Hf.
  destruct cur; [exact Hf|].
  destruct (format_2f x); [congruence|discriminate].
Qed.

(** The record of the single-file pipeline, field by field. *)
Lemma extract_invoice_data_shape (out : option (list Block)) (r : InvoiceRecord) :
  invoice_processor.extract_invoice_data out = Ok r ->
  exists number date items terms a,
    r = [ ("InvoiceNumber"%string, number); ("InvoiceDate"%string, date);
          ("LineItems"%string, FItems items); ("InvoiceTotal"%string, FAmount a);
          ("PaymentTerms"%string, terms) ]
    /\ (a = Shared.DEFAULT_TOTAL
        \/ (is_positive a = true
            /\ exists v, a = invoice_processor.parse_amount_with_currency v)).
Proof.
  unfold invoice_processor.extract_invoice_data. destruct out as [blocks|].
  - cbv zeta.
    destruct (Exc.foldM _ blocks []) as [all_text|]; cbn [Exc.bind]; [|discriminate].
    destruct (Exc.foldM _ _ []) as [kv_pairs|]; cbn [Exc.bind]; [|discriminate].
    destruct (Exc.foldM _ blocks []) as [tables|]; cbn [Exc.bind]; [|discriminate].
    destruct (invoice_processor.extract_line_items_from_tables tables) as [items|];
      cbn [Exc.bind]; [|discriminate].
    intros [= <-].
    pose proof (total_is_parsed invoice_processor.local_tables
                  invoice_processor.parse_amount_with_currency
                  kv_pairs (table_totals_of tables) all_text) as Ht.
    fold (invoice_processor.find_invoice_total kv_pairs (table_totals_of tables) all_text)
      in Ht.
    destruct (find_payment_terms _ kv_pairs); destruct (find_invoice_date _ kv_pairs);
      do 5 eexists; (split; [reflexivity|exact Ht]).
  - intros [= <-]. do 5 eexists. split; [reflexivity|now left].
Qed.

(** X16.  Whatever the response, the dictionary saved for the record of
    [extract_invoice_data] has the five keys, and its InvoiceTotal is null
    (no total was found) or a non-empty formatted text: never a number and
    never the amount dictionary. *)
Theorem X16_saved_total_is_null_or_text :
  forall (out : option (list Block)) (r : InvoiceRecord),
    invoice_processor.extract_invoice_data out = Ok r ->
    exists number date total items terms,
      invoice_output.save_results r
      = inr [ ("InvoiceNumber"%string, invoice_output.SField number);
              ("InvoiceDate"%string, invoice_output.SField date);
              ("InvoiceTotal"%string, invoice_output.SValue total);
              ("LineItems"%string, invoice_output.SField (FItems items));
              ("PaymentTerms"%string, invoice_output.SField terms) ]
      /\ (total = ANone \/ exists s, total = AText s /\ s <> []).
Proof.
  intros out r Hr.
  destruct (extract_invoice_data_shape out r Hr)
    as (number & date & items & terms & a & -> & Ha).
  exists number, date.
  destruct Ha as [-> | (Hpos & v & ->)].
  - exists ANone, items, terms. split; [reflexivity|now left].
  - pose proof (positive_amount_formatted v Hpos) as Hf.
    destruct (formatted (invoice_processor.parse_amount_with_currency v)) as [|c f] eqn:E;
      [congruence|].
    exists (AText (c :: f)), items, terms. split.
    + unfold invoice_output.save_results, invoice_output.total_entry,
        invoice_output.subscript. cbn [rec_get Dict.get String.eqb Ascii.eqb Bool.eqb].
      rewrite E. reflexivity.
    + right. exists (c :: f). split; [reflexivity|discriminate].
Qed.

Lemma X16_total_line_witness :
  exists r number date total items terms,
    invoice_processor.extract_invoice_data (Some total_line_blocks) = Ok r
    /\ invoice_output.save_results r
       = inr [ ("InvoiceNumber"%string, invoice_output.SField number);
               ("InvoiceDate"%string, invoice_output.SField date);
               ("InvoiceTotal"%string, invoice_output.SValue total);
               ("LineItems"%string, invoice_output.SField (FItems items));
               ("PaymentTerms"%string, invoice_output.SField terms) ]
    /\ total = AText (text "1,250.00").
Proof.
  destruct (invoice_processor.extract_invoice_data (Some total_line_blocks)) as [r|e] eqn:E;
    [|vm_compute in E; discriminate].
  destruct (X16_saved_total_is_null_or_text (Some total_line_blocks) r E)
    as (number & date & total & items & terms & Hs & _).
  exists r, number, date, total, items, terms.
  split; [reflexivity|]. split; [exact Hs|].
  vm_compute in E. injection E as <-. vm_compute in Hs. vm_compute. congruence.
Defined.

(** ** Synchronisation with the bucket *)

Lemma dict_set_keys_new {V : Type} (k : str) (v : V) (d : list (str * V)) :
  ~ In k (Dict.keys d) -> Dict.keys (Dict.set Py.eqb k v d) = Dict.keys d ++ [k].
Proof.
  induction d as [|[k0 v0] r IH]; cbn [Dict.set Dict.keys map app]; [reflexivity|].
  intros H. destruct (Py.eqb k k0) eqn:E.
  - apply py_eqb_eq in E. subst k0. exfalso. apply H. now left.
  - cbn [map fst]. f_equal. apply IH. intros Hin. apply H. now right.
Qed.

Lemma dict_set_keys_cases {V : Type} (k : str) (v : V) (d : list (str * V)) :
  (In k (Dict.keys d) /\ Dict.keys (Dict.set Py.eqb k v d) = Dict.keys d)
  \/ (~ In k (Dict.keys d) /\ Dict.keys (Dict.set Py.eqb k v d) = Dict.keys d ++ [k]).
Proof.
  destruct (in_dec (list_eq_dec N.eq_dec) k (Dict.keys d)) as [H|H].
  - left. split; [exact H|]. apply dict_set_keys; [|exact H].
    intros a. now apply py_eqb_eq.
  - right. split; [exact H|]. now apply dict_set_keys_new.
Qed.

Lemma dict_set_keys_nodup {V : Type} (k : str) (v : V) (d : list (str * V)) :
  NoDup (Dict.keys d) -> NoDup (Dict.keys (Dict.set Py.eqb k v d)).
Proof.
  intros H. destruct (dict_set_keys_cases k v d) as [[_ ->]|[Hk ->]]; [exact H|].
  apply NoDup_app; repeat split.
  - exact H.
  - repeat constructor. intros [].
  - intros a Ha [<-|[]]. now apply Hk.
Qed.

Lemma dict_set_keys_In {V : Type} (k k' : str) (v : V) (d : list (str * V)) :
  In k' (Dict.keys (Dict.set Py.eqb k v d)) <-> k' = k \/ In k' (Dict.keys d).
Proof.
  destruct (dict_set_keys_cases k v d) as [[Hk ->]|[Hk ->]].
  - split; [now right|]. intros [->|H]; assumption.
  - rewrite in_app_iff. cbn [In]. split; [intros [H|[<-|[]]]; auto|intros [->|H]; auto].
Qed.

Lemma local_files_keys (paths : list s3_sync.LocalPath) :
  NoDup (Dict.keys (s3_sync.local_files_of paths))
  /\ forall f, In f (Dict.keys (s3_sync.local_files_of paths))
               <-> In f (map s3_sync.p_name paths).
Proof.
  unfold s3_sync.local_files_of.
  assert (G : forall d : list (str * s3_sync.LocalInfo),
             NoDup (Dict.keys d) ->
             NoDup (Dict.keys
                      (fold_left
                         (fun local_files p =>
                            Dict.set Py.eqb (s3_sync.p_name p)
                              {| s3_sync.l_path := s3_sync.p_path p;
                                 s3_sync.l_hash := s3_sync.p_hash p;
                                 s3_sync.l_size := s3_sync.p_size p |} local_files)
                         paths d))
             /\ forall f, In f (Dict.keys
                      (fold_left
                         (fun local_files p =>
                            Dict.set Py.eqb (s3_sync.p_name p)
                              {| s3_sync.l_path := s3_sync.p_path p;
                                 s3_sync.l_hash := s3_sync.p_hash p;
                                 s3_sync.l_size := s3_sync.p_size p |} local_files)
                         paths d))
                          <-> In f (Dict.keys d) \/ In f (map s3_sync.p_name paths)).
  { induction paths as [|p r IH]; intros d Hd; cbn [fold_left map In].
    - split; [exact Hd|]. intros f. tauto.
    - destruct (IH _ (dict_set_keys_nodup (s3_sync.p_name p)
                        {| s3_sync.l_path := s3_sync.p_path p;
                           s3_sync.l_hash := s3_sync.p_hash p;
                           s3_sync.l_size := s3_sync.p_size p |} d Hd)) as [H1 H2].
      split; [exact H1|]. intros f. rewrite H2, dict_set_keys_In.
      split; [intros [[->|H]|H]; auto|intros [H|[<-|H]]; auto]. }
  destruct (G [] (NoDup_nil _)) as [H1 H2]. split; [exact H1|].
  intros f. rewrite H2. cbn [Dict.keys map In]. tauto.
Qed.


Lemma upload_step_inv (prefix : str) (raises : str -> bool) (now : str -> str)
      (s3_files : list (str * s3_sync.S3Info)) (done : list str)
      (st : s3_sync.SyncState) (item : str * s3_sync.LocalInfo) :
  ~ In (fst item) done ->
  upload_inv raises done st ->
  upload_inv raises (done ++ [fst item])
             (s3_sync.upload_step prefix raises now s3_files st item).
Proof.
  intros Hnew (H1 & H2 & H3). destruct item as [f info]. cbn [fst] in *.
  unfold s3_sync.upload_step.
  assert (Hf : ~ (In f (s3_sync.uploaded st) \/ In f (s3_sync.skipped st))).
  { intros H. apply Hnew. now apply H1. }
  match goal with |- context [if ?b then _ else _] => destruct b end.
  - destruct (raises (prefix ++ f)) eqn:E; unfold upload_inv;
      cbn [s3_sync.uploaded s3_sync.skipped]; repeat split.
    + intros g Hg. apply in_or_app. left. now apply H1.
    + exact H2.
    + intros Hr. rewrite Hr in E. discriminate.
    + intros g [Hg|Hg].
      * apply in_app_or in Hg. apply in_or_app.
        destruct Hg as [Hg|[<-|[]]]; [left; apply H1; now left|right; now left].
      * apply in_or_app. left. apply H1. now right.
    + intros g Hg Hs. apply in_app_or in Hg. destruct Hg as [Hg|[<-|[]]].
      * exact (H2 g Hg Hs).
      * apply Hf. now right.
    + intros Hr g Hg. apply in_app_or in Hg. destruct Hg as [Hg|[<-|[]]].
      * destruct (H3 Hr g Hg) as [H|H]; [left; apply in_or_app; now left|now right].
      * left. apply in_or_app. right. now left.
  - unfold upload_inv; cbn [s3_sync.uploaded s3_sync.skipped]; repeat split.
    + intros g [Hg|Hg].
      * apply in_or_app. left. apply H1. now left.
      * apply in_app_or in Hg. apply in_or_app.
        destruct Hg as [Hg|[<-|[]]]; [left; apply H1; now right|right; now left].
    + intros g Hg Hs. apply in_app_or in Hs. destruct Hs as [Hs|[<-|[]]].
      * exact (H2 g Hg Hs).
      * apply Hf. now left.
    + intros Hr g Hg. apply in_app_or in Hg. destruct Hg as [Hg|[<-|[]]].
      * destruct (H3 Hr g Hg) as [H|H]; [now left|right; apply in_or_app; now left].
      * right. apply in_or_app. right. now left.
Qed.

Lemma upload_loop_inv (prefix : str) (raises : str -> bool) (now : str -> str)
      (s3_files : list (str * s3_sync.S3Info)) (items : list (str * s3_sync.LocalInfo)) :
  forall done st,
    NoDup (done ++ Dict.keys items) ->
    upload_inv raises done st ->
    upload_inv raises (done ++ Dict.keys items)
               (fold_left (s3_sync.upload_step prefix raises now s3_files) items st).
Proof.
  induction items as [|item r IH]; intros done st Hnd Hinv; cbn [fold_left Dict.keys map].
  - now rewrite app_nil_r.
  - change (done ++ fst item :: map fst r) with (done ++ [fst item] ++ Dict.keys r).
    rewrite app_assoc. apply IH.
    + rewrite <- app_assoc. exact Hnd.
    + apply upload_step_inv; [|exact Hinv].
      cbn [Dict.keys map] in Hnd. apply NoDup_remove_2 in Hnd.
      intros H. apply Hnd. apply in_or_app. now left.
Qed.

Lemma delete_step_lists (prefix : str) (raises : str -> bool)
      (local_files : list (str * s3_sync.LocalInfo)) (st : s3_sync.SyncState)
      (item : str * s3_sync.S3Info) :
  s3_sync.uploaded (s3_sync.delete_step raises local_files st item) = s3_sync.uploaded st
  /\ s3_sync.skipped (s3_sync.delete_step raises local_files st item) = s3_sync.skipped st.
Proof.
  unfold s3_sync.delete_step. destruct item as [f info].
  destruct (negb _); [|split; reflexivity].
  destruct (raises _); split; reflexivity.
Qed.

Lemma delete_loop_lists (raises : str -> bool)
      (local_files : list (str * s3_sync.LocalInfo)) (items : list (str * s3_sync.S3Info)) :
  forall st,
    s3_sync.uploaded (fold_left (s3_sync.delete_step raises local_files) items st)
    = s3_sync.uploaded st
    /\ s3_sync.skipped (fold_left (s3_sync.delete_step raises local_files) items st)
       = s3_sync.skipped st.
Proof.
  induction items as [|item r IH]; intros st; cbn [fold_left]; [split; reflexivity|].
  destruct (IH (s3_sync.delete_step raises local_files st item)) as [-> ->].
  apply (delete_step_lists []).
Qed.

(** X17.  A synchronisation never reports a file both as uploaded and as
    skipped, reports only PDF files of the folder, and, when no upload raises,
    reports every one of them as uploaded or as skipped. *)
Theorem X17_sync_uploads_or_skips_each_file :
  forall (prefix : str) (upload_raises delete_raises : str -> bool) (now : str -> str)
         (cache : list (str * s3_sync.SyncEntry)) (listing : list s3_sync.S3Object)
         (paths : list s3_sync.LocalPath),
    let r := s3_sync.sync_folder prefix upload_raises delete_raises now cache listing paths in
    (forall f, In f (s3_sync.uploaded r) -> In f (s3_sync.skipped r) -> False)
    /\ (forall f, In f (s3_sync.uploaded r) \/ In f (s3_sync.skipped r) ->
                  In f (map s3_sync.p_name paths))
    /\ ((forall k, upload_raises k = false) ->
        forall f, In f (map s3_sync.p_name paths) ->
                  In f (s3_sync.uploaded r) \/ In f (s3_sync.skipped r)).
Proof.
  intros prefix up del now cache listing paths r. subst r.
  unfold s3_sync.sync_folder. cbv zeta.
  destruct (delete_loop_lists del (s3_sync.local_files_of paths)
              (s3_sync.get_s3_files listing)
              (fold_left (s3_sync.upload_step prefix up now (s3_sync.get_s3_files listing))
                         (s3_sync.local_files_of paths)
                         {| s3_sync.uploaded := []; s3_sync.skipped := [];
                            s3_sync.deleted := []; s3_sync.sync_metadata := cache;
                            s3_sync.calls := [] |})) as [-> ->].
  destruct (local_files_keys paths) as [Hnd Hkeys].
  destruct (upload_loop_inv prefix up now (s3_sync.get_s3_files listing)
              (s3_sync.local_files_of paths) []
              {| s3_sync.uploaded := []; s3_sync.skipped := [];
                 s3_sync.deleted := []; s3_sync.sync_metadata := cache;
                 s3_sync.calls := [] |}) as (H1 & H2 & H3).
  - exact Hnd.
  - unfold upload_inv. cbn. repeat split; try tauto; intros _ f [].
  - cbn [app] in *. repeat split.
    + exact H2.
    + intros f Hf. apply Hkeys. now apply H1.
    + intros Hr f Hf. apply (H3 Hr). now apply Hkeys.
Qed.

Lemma X17_new_file_witness :
  In (text "a.pdf")
     (s3_sync.uploaded
        (s3_sync.sync_folder (text "invoices/") never never (fun _ => text "t")
                             [] one_listing one_path))
  \/ In (text "a.pdf")
        (s3_sync.skipped
           (s3_sync.sync_folder (text "invoices/") never never (fun _ => text "t")
                                [] one_listing one_path)).
Proof.
  apply (proj2 (proj2 (X17_sync_uploads_or_skips_each_file
                         (text "invoices/") never never (fun _ => text "t")
                         [] one_listing one_path))).
  - reflexivity.
  - left. reflexivity.
Defined.

Lemma dict_set_In_pair {V : Type} (k k' : str) (v v' : V) (d : list (str * V)) :
  In (k', v') (Dict.set Py.eqb k v d) -> (k' = k /\ v' = v) \/ In (k', v') d.
Proof.
  induction d as [|[k0 v0] r IH]; cbn [Dict.set].
  - intros [[= <- <-]|[]]. now left.
  - destruct (Py.eqb k k0) eqn:E.
    + apply py_eqb_eq in E. subst k0.
      intros [[= <- <-]|H]; [now left|right; now right].
    + intros [H|H]; [right; now left|].
      destruct (IH H) as [H'|H']; [now left|right; now right].
Qed.

Lemma get_s3_files_In (listing : list s3_sync.S3Object) (f : str) (info : s3_sync.S3Info) :
  In (f, info) (s3_sync.get_s3_files listing) ->
  exists obj, In obj listing /\ s3_sync.o_Key obj = s3_sync.i_key info
              /\ s3_sync.endswith (text ".pdf") (s3_sync.i_key info) = true
              /\ f = s3_sync.basename (s3_sync.i_key info).
Proof.
  unfold s3_sync.get_s3_files.
  assert (G : forall d : list (str * s3_sync.S3Info),
             In (f, info)
                (fold_left
                   (fun s3_files obj =>
                      if s3_sync.endswith (text ".pdf") (s3_sync.o_Key obj)
                      then Dict.set Py.eqb (s3_sync.basename (s3_sync.o_Key obj))
                             {| s3_sync.i_key := s3_sync.o_Key obj;
                                s3_sync.i_size := s3_sync.o_Size obj;
                                s3_sync.i_last_modified := s3_sync.o_LastModified obj |}
                             s3_files
                      else s3_files) listing d) ->
             In (f, info) d
             \/ exists obj, In obj listing /\ s3_sync.o_Key obj = s3_sync.i_key info
                            /\ s3_sync.endswith (text ".pdf") (s3_sync.i_key info) = true
                            /\ f = s3_sync.basename (s3_sync.i_key info)).
  { induction listing as [|obj r IH]; intros d; cbn [fold_left]; [now left|].
    intros H. destruct (IH _ H) as [H'|(o & Ho & H')].
    - destruct (s3_sync.endswith (text ".pdf") (s3_sync.o_Key obj)) eqn:E; [|now left].
      apply dict_set_In_pair in H'. destruct H' as [[-> ->]|H']; [|now left].
      right. exists obj. cbn [s3_sync.i_key]. repeat split; [now left|exact E].
    - right. exists o. split; [now right|exact H']. }
  intros H. destruct (G [] H) as [[]|H']. exact H'.
Qed.

Lemma dict_mem_keys {V : Type} (k : str) (d : list (str * V)) :
  Dict.mem Py.eqb k d = true <-> In k (Dict.keys d).
Proof.
  unfold Dict.mem. induction d as [|[k0 v0] r IH]; cbn [Dict.get Dict.keys map In fst].
  - split; [discriminate|intros []].
  - destruct (Py.eqb k k0) eqn:E.
    + apply py_eqb_eq in E. subst k0. split; [now left|reflexivity].
    + rewrite IH. split; [now right|]. intros [->|H]; [|exact H].
      assert (Py.eqb k k = true) by now apply py_eqb_eq. congruence.
Qed.

Lemma upload_step_calls (P : str -> Prop) (prefix : str) (raises : str -> bool)
      (now : str -> str) (s3_files : list (str * s3_sync.S3Info))
      (st : s3_sync.SyncState) (item : str * s3_sync.LocalInfo) :
  Forall (deletes_only P) (s3_sync.calls st) ->
  Forall (deletes_only P) (s3_sync.calls (s3_sync.upload_step prefix raises now s3_files st item)).
Proof.
  intros H. unfold s3_sync.upload_step. destruct item as [f info].
  match goal with |- context [if ?b then _ else _] => destruct b end; [|exact H].
  destruct (raises _); cbn [s3_sync.calls]; apply Forall_app; split; try exact H;
    repeat constructor.
Qed.

Lemma delete_step_calls (listing : list s3_sync.S3Object) (paths : list s3_sync.LocalPath)
      (raises : str -> bool) (st : s3_sync.SyncState) (item : str * s3_sync.S3Info) :
  In item (s3_sync.get_s3_files listing) ->
  Forall (deletes_only (stale listing paths)) (s3_sync.calls st) ->
  Forall (deletes_only (stale listing paths))
         (s3_sync.calls (s3_sync.delete_step raises (s3_sync.local_files_of paths) st item)).
Proof.
  intros Hin H. unfold s3_sync.delete_step. destruct item as [f info].
  destruct (Dict.mem Py.eqb f (s3_sync.local_files_of paths)) eqn:E; cbn [negb]; [exact H|].
  assert (Hs : stale listing paths (s3_sync.i_key info)).
  { destruct (get_s3_files_In listing f info Hin) as (obj & Ho & Hk & He & Hf).
    repeat split; [now exists obj|exact He|].
    rewrite <- Hf. intros Hl. apply (local_files_keys paths) in Hl.
    apply dict_mem_keys in Hl. congruence. }
  destruct (raises _); cbn [s3_sync.calls]; apply Forall_app;
    (split; [exact H|constructor; [exact Hs|constructor]]).
Qed.

(** X18.  A synchronisation deletes only stale objects: every deletion it
    asks of the bucket is that of a listed key that ends in .pdf and whose file
    name is not the name of a PDF file of the folder. *)
Theorem X18_sync_deletes_only_stale_objects :
  forall (prefix : str) (upload_raises delete_raises : str -> bool) (now : str -> str)
         (cache : list (str * s3_sync.SyncEntry)) (listing : list s3_sync.S3Object)
         (paths : list s3_sync.LocalPath),
    Forall (deletes_only (stale listing paths))
           (s3_sync.calls
              (s3_sync.sync_folder prefix upload_raises delete_raises now
                                   cache listing paths)).
Proof.
  intros prefix up del now cache listing paths.
  unfold s3_sync.sync_folder. cbv zeta.
  apply (fold_left_inv (fun st => Forall (deletes_only (stale listing paths))
                                         (s3_sync.calls st))
                       (fun item => In item (s3_sync.get_s3_files listing))).
  - intros st item Hin Hst. now apply delete_step_calls.
  - apply Forall_forall. auto.
  - apply fold_left_keeps; [|constructor].
    intros st item Hst. now apply upload_step_calls.
Qed.

Lemma nodup_keys_unique {V : Type} (d : list (str * V)) (k : str) (a b : V) :
  NoDup (Dict.keys d) -> In (k, a) d -> In (k, b) d -> a = b.
Proof.
  induction d as [|[k0 v0] r IH]; cbn [Dict.keys map fst]; [intros _ []|].
  intros Hnd [Ha|Ha] [Hb|Hb].
  - congruence.
  - injection Ha as -> ->. apply NoDup_cons_iff in Hnd. exfalso. apply (proj1 Hnd).
    change (In (fst (k, b)) (map fst r)). now apply in_map.
  - injection Hb as -> ->. apply NoDup_cons_iff in Hnd. exfalso. apply (proj1 Hnd).
    change (In (fst (k, a)) (map fst r)). now apply in_map.
  - apply NoDup_cons_iff in Hnd. exact (IH (proj2 Hnd) Ha Hb).
Qed.

Lemma py_eqb_refl (a : str) : Py.eqb a a = true.
Proof. now apply py_eqb_eq. Qed.

Lemma py_eqb_neq (a b : str) : a <> b -> Py.eqb a b = false.
Proof.
  intros H. destruct (Py.eqb a b) eqn:E; [|reflexivity].
  apply py_eqb_eq in E. contradiction.
Qed.

Lemma get_remove_other {V : Type} (k g : str) (d : list (str * V)) :
  k <> g -> Dict.get Py.eqb k (s3_sync.remove g d) = Dict.get Py.eqb k d.
Proof.
  intros H. induction d as [|[k0 v0] r IH]; cbn [s3_sync.remove Dict.get]; [reflexivity|].
  destruct (Py.eqb g k0) eqn:E.
  - apply py_eqb_eq in E. subst k0. now rewrite py_eqb_neq.
  - cbn [Dict.get]. now rewrite IH.
Qed.

Lemma upload_step_current (prefix : str) (raises : str -> bool) (now : str -> str)
      (s3_files : list (str * s3_sync.S3Info))
      (local_files : list (str * s3_sync.LocalInfo)) (done : list str)
      (st : s3_sync.SyncState) (item : str * s3_sync.LocalInfo) :
  (forall k, raises k = false) ->
  NoDup (Dict.keys local_files) -> In item local_files ->
  cache_current local_files (s3_sync.sync_metadata st) done ->
  cache_current local_files
    (s3_sync.sync_metadata (s3_sync.upload_step prefix raises now s3_files st item))
    (done ++ [fst item]).
Proof.
  intros Hr Hnd Hitem Hc. destruct item as [f info]. cbn [fst].
  unfold s3_sync.upload_step. rewrite Hr.
  destruct (negb (Dict.mem Py.eqb f s3_files)) eqn:Em;
    [|destruct (Dict.get Py.eqb f (s3_sync.sync_metadata st)) as [entry|] eqn:Eg;
      [destruct (negb (Py.eqb (s3_sync.m_hash entry) (s3_sync.l_hash info))) eqn:Eh|]];
    cbn [s3_sync.sync_metadata]; intros g ginfo Hg Hd; apply in_app_or in Hd.
  1,2,4: rewrite (dict_get_set Py.eqb py_eqb_eq);
    destruct (Py.eqb g f) eqn:E;
    [ apply py_eqb_eq in E; subst g;
      rewrite (nodup_keys_unique _ _ _ _ Hnd Hg Hitem); eexists; split; reflexivity
    | destruct Hd as [Hd|[<-|[]]]; [now apply Hc|now rewrite py_eqb_refl in E] ].
  destruct Hd as [Hd|[<-|[]]]; [now apply Hc|].
  rewrite (nodup_keys_unique _ _ _ _ Hnd Hg Hitem).
  exists entry. split; [exact Eg|]. apply negb_false_iff in Eh. now apply py_eqb_eq.
Qed.

Lemma upload_loop_current (prefix : str) (raises : str -> bool) (now : str -> str)
      (s3_files : list (str * s3_sync.S3Info))
      (local_files : list (str * s3_sync.LocalInfo)) (items : list (str * s3_sync.LocalInfo)) :
  (forall k, raises k = false) ->
  NoDup (Dict.keys local_files) ->
  forall done st,
    (forall item, In item items -> In item local_files) ->
    cache_current local_files (s3_sync.sync_metadata st) done ->
    cache_current local_files
      (s3_sync.sync_metadata
         (fold_left (s3_sync.upload_step prefix raises now s3_files) items st))
      (done ++ Dict.keys items).
Proof.
  intros Hr Hnd. induction items as [|item r IH]; intros done st Hsub Hc;
    cbn [fold_left Dict.keys map].
  - now rewrite app_nil_r.
  - change (done ++ fst item :: map fst r) with (done ++ [fst item] ++ Dict.keys r).
    rewrite app_assoc. apply IH; [intros; apply Hsub; now right|].
    apply upload_step_current; [exact Hr|exact Hnd|apply Hsub; now left|exact Hc].
Qed.

Lemma delete_loop_current (raises : str -> bool)
      (local_files : list (str * s3_sync.LocalInfo)) (done : list str)
      (items : list (str * s3_sync.S3Info)) :
  forall st,
    cache_current local_files (s3_sync.sync_metadata st) done ->
    cache_current local_files
      (s3_sync.sync_metadata (fold_left (s3_sync.delete_step raises local_files) items st))
      done.
Proof.
  induction items as [|item r IH]; intros st Hc; cbn [fold_left]; [exact Hc|].
  apply IH. unfold s3_sync.delete_step. destruct item as [g ginfo].
  destruct (Dict.mem Py.eqb g local_files) eqn:Em; cbn [negb]; [exact Hc|].
  destruct (raises _); cbn [s3_sync.sync_metadata]; [exact Hc|].
  destruct (Dict.mem Py.eqb g (s3_sync.sync_metadata st)); [|exact Hc].
  intros f info Hf Hd. rewrite get_remove_other; [now apply Hc|].
  intros ->. assert (Hk : In g (Dict.keys local_files)).
  { change (In (fst (g, info)) (map fst local_files)). now apply in_map. }
  apply dict_mem_keys in Hk. congruence.
Qed.

(** With a current cache and a listing that has every file, the upload loop
    only skips. *)
Lemma upload_loop_skips (prefix : str) (raises : str -> bool) (now : str -> str)
      (s3_files : list (str * s3_sync.S3Info))
      (local_files : list (str * s3_sync.LocalInfo)) (items : list (str * s3_sync.LocalInfo)) :
  (forall item, In item local_files -> Dict.mem Py.eqb (fst item) s3_files = true) ->
  forall st,
    (forall item, In item items -> In item local_files) ->
    cache_current local_files (s3_sync.sync_metadata st) (Dict.keys local_files) ->
    let st' := fold_left (s3_sync.upload_step prefix raises now s3_files) items st in
    s3_sync.uploaded st' = s3_sync.uploaded st
    /\ s3_sync.skipped st' = s3_sync.skipped st ++ Dict.keys items
    /\ s3_sync.calls st' = s3_sync.calls st.
Proof.
  intros Hs3. induction items as [|item r IH]; intros st Hsub Hc;
    cbn [fold_left Dict.keys map].
  - rewrite app_nil_r. repeat split.
  - assert (Hitem : In item local_files) by (apply Hsub; now left).
    assert (E : s3_sync.upload_step prefix raises now s3_files st item
                = {| s3_sync.uploaded := s3_sync.uploaded st;
                     s3_sync.skipped := s3_sync.skipped st ++ [fst item];
                     s3_sync.deleted := s3_sync.deleted st;
                     s3_sync.sync_metadata := s3_sync.sync_metadata st;
                     s3_sync.calls := s3_sync.calls st |}).
    { destruct item as [f info]. unfold s3_sync.upload_step. cbn [fst].
      pose proof (Hs3 _ Hitem) as Hm. cbn [fst] in Hm. rewrite Hm. cbn [negb].
      destruct (Hc f info Hitem) as (entry & -> & Hh).
      { change (In (fst (f, info)) (map fst local_files)). now apply in_map. }
      rewrite Hh, py_eqb_refl. reflexivity. }
    rewrite E.
    destruct (IH {| s3_sync.uploaded := s3_sync.uploaded st;
                    s3_sync.skipped := s3_sync.skipped st ++ [fst item];
                    s3_sync.deleted := s3_sync.deleted st;
                    s3_sync.sync_metadata := s3_sync.sync_metadata st;
                    s3_sync.calls := s3_sync.calls st |}
                 (fun i Hi => Hsub i (or_intror Hi)) Hc) as (H1 & H2 & H3).
    cbn [s3_sync.uploaded s3_sync.skipped s3_sync.calls] in *.
    rewrite H1, H2, H3, <- app_assoc. repeat split.
Qed.

Lemma delete_loop_calls (raises : str -> bool)
      (local_files : list (str * s3_sync.LocalInfo)) (items : list (str * s3_sync.S3Info)) :
  forall st,
    Forall is_deletion (s3_sync.calls st) ->
    Forall is_deletion
           (s3_sync.calls (fold_left (s3_sync.delete_step raises local_files) items st)).
Proof.
  induction items as [|item r IH]; intros st H; cbn [fold_left]; [exact H|].
  apply IH. unfold s3_sync.delete_step. destruct item as [g ginfo].
  destruct (negb _); [|exact H].
  destruct (raises _); cbn [s3_sync.calls]; apply Forall_app;
    (split; [exact H|constructor; [exact I|constructor]]).
Qed.

(** X19.  Synchronising twice uploads nothing the second time: after a run
    in which no upload raised, a run on the same folder, a listing that has
    every file of the folder and the cache the first run saved skips every
    file and asks the bucket for deletions only. *)
Theorem X19_second_sync_uploads_nothing :
  forall (prefix : str) (up1 del1 up2 del2 : str -> bool) (now1 now2 : str -> str)
         (cache : list (str * s3_sync.SyncEntry)) (listing listing' : list s3_sync.S3Object)
         (paths : list s3_sync.LocalPath),
    (forall k, up1 k = false) ->
    (forall p, In p paths ->
               Dict.mem Py.eqb (s3_sync.p_name p) (s3_sync.get_s3_files listing') = true) ->
    let r1 := s3_sync.sync_folder prefix up1 del1 now1 cache listing paths in
    let r2 := s3_sync.sync_folder prefix up2 del2 now2 (s3_sync.sync_metadata r1)
                                  listing' paths in
    s3_sync.uploaded r2 = []
    /\ s3_sync.skipped r2 = Dict.keys (s3_sync.local_files_of paths)
    /\ Forall is_deletion (s3_sync.calls r2).
Proof.
  intros prefix up1 del1 up2 del2 now1 now2 cache listing listing' paths Hup Hlist r1 r2.
  destruct (local_files_keys paths) as [Hnd Hkeys].
  assert (Hc : cache_current (s3_sync.local_files_of paths) (s3_sync.sync_metadata r1)
                             (Dict.keys (s3_sync.local_files_of paths))).
  { subst r1. unfold s3_sync.sync_folder. cbv zeta.
    apply delete_loop_current.
    apply (upload_loop_current prefix up1 now1 _ (s3_sync.local_files_of paths)
             (s3_sync.local_files_of paths) Hup Hnd []); [auto|].
    intros f info _ []. }
  assert (Hs3 : forall item, In item (s3_sync.local_files_of paths) ->
                             Dict.mem Py.eqb (fst item) (s3_sync.get_s3_files listing') = true).
  { intros item Hi.
    assert (Hk : In (fst item) (map s3_sync.p_name paths))
      by (apply Hkeys; now apply in_map).
    apply in_map_iff in Hk. destruct Hk as (p & <- & Hp). now apply Hlist. }
  subst r2. unfold s3_sync.sync_folder. cbv zeta.
  set (st0 := {| s3_sync.uploaded := []; s3_sync.skipped := []; s3_sync.deleted := [];
                 s3_sync.sync_metadata := s3_sync.sync_metadata r1; s3_sync.calls := [] |}).
  destruct (upload_loop_skips prefix up2 now2 (s3_sync.get_s3_files listing')
              (s3_sync.local_files_of paths) (s3_sync.local_files_of paths) Hs3 st0)
    as (H1 & H2 & H3); [auto|exact Hc|].
  destruct (delete_loop_lists del2 (s3_sync.local_files_of paths)
              (s3_sync.get_s3_files listing')
              (fold_left (s3_sync.upload_step prefix up2 now2 (s3_sync.get_s3_files listing'))
                         (s3_sync.local_files_of paths) st0)) as [-> ->].
  rewrite H1, H2. repeat split.
  apply delete_loop_calls. rewrite H3. constructor.
Qed.

Lemma X19_one_file_witness :
  s3_sync.uploaded
    (s3_sync.sync_folder (text "invoices/") never never (fun _ => text "t2")
       (s3_sync.sync_metadata
          (s3_sync.sync_folder (text "invoices/") never never (fun _ => text "t1")
                               [] one_listing one_path))
       synced_listing one_path) = []
  /\ s3_sync.uploaded
       (s3_sync.sync_folder (text "invoices/") never never (fun _ => text "t1")
                            [] one_listing one_path) = [text "a.pdf"].
Proof.
  split; [|vm_compute; reflexivity].
  refine (proj1 (X19_second_sync_uploads_nothing
                   (text "invoices/") never never never never
                   (fun _ => text "t1") (fun _ => text "t2")
                   [] one_listing synced_listing one_path _ _)).
  - reflexivity.
  - intros p [<-|[]]. vm_compute. reflexivity.
Defined.

(** ** Query and form blocks *)

Lemma answer_of_unanswered (blocks : list block_extractors.FullBlock)
      (b : block_extractors.FullBlock) :
  unanswered blocks b -> block_extractors.answer_of b blocks = ([], 0%Q).
Proof.
  intros H. unfold block_extractors.answer_of.
  destruct (Relationships (block_extractors.core b)) as [rels|] eqn:E; [|reflexivity].
  apply fold_left_unchanged. intros rel Hrel.
  destruct (Py.eqb (r_Type rel) (text "ANSWER")) eqn:Et; [|reflexivity].
  apply fold_left_unchanged. intros answer_id Hid.
  now rewrite (H rels rel answer_id E Hrel Et Hid).
Qed.

(** X20.  A document none of whose QUERY blocks has an answer block gives the
    record it would give without queries: an unanswered query is reported with
    the empty answer, which the query loop of the parser ignores. *)
Theorem X20_unanswered_queries_change_nothing :
  forall (g : Tables) (lay : textract_client.Layout)
         (blocks : list block_extractors.FullBlock),
    (forall b, In b blocks -> block_extractors.is_type "QUERY" b = true ->
               unanswered blocks b) ->
    Forall (fun q => textract_client.q_answer q = [] /\ textract_client.q_confidence q = 0%Q)
           (block_extractors.extract_queries blocks)
    /\ textract_client.parse_extracted_data g (document_results lay blocks)
       = textract_client.parse_extracted_data g (without_queries (document_results lay blocks)).
Proof.
  intros g lay blocks H.
  assert (Hq : Forall (fun q => textract_client.q_answer q = []
                                /\ textract_client.q_confidence q = 0%Q)
                      (block_extractors.extract_queries blocks)).
  { apply Forall_forall. intros q Hin. unfold block_extractors.extract_queries in Hin.
    apply in_map_iff in Hin. destruct Hin as (b & <- & Hb).
    apply filter_In in Hb. destruct Hb as [Hb Ht].
    rewrite (answer_of_unanswered blocks b (H b Hb Ht)). split; reflexivity. }
  split; [exact Hq|].
  apply idle_queries_change_nothing. intros q Hin. right.
  rewrite Forall_forall in Hq. exact (proj1 (Hq q Hin)).
Qed.

Lemma X20_missing_answer_witness :
  textract_client.parse_extracted_data loaded (document_results no_layout query_blocks)
  = textract_client.parse_extracted_data loaded
      (without_queries (document_results no_layout query_blocks)).
Proof.
  refine (proj2 (X20_unanswered_queries_change_nothing loaded no_layout query_blocks _)).
  intros b [<-|[<-|[<-|[<-|[]]]]] Ht; try (vm_compute in Ht; discriminate).
  intros rels rel answer_id [= <-] [<-|[]] _ [<-|[]]. vm_compute. reflexivity.
Defined.

Lemma fold_left_pointwise {A B : Type} (f g : A -> B -> A) (l : list B) :
  (forall a b, In b l -> f a b = g a b) ->
  forall a, fold_left f l a = fold_left g l a.
Proof.
  induction l as [|b r IH]; intros H a; cbn [fold_left]; [reflexivity|].
  rewrite (H a b (or_introl eq_refl)). apply IH. intros; apply H; now right.
Qed.

Lemma block_by_id_core (blocks : list block_extractors.FullBlock) (child_id : str) :
  textract_client.block_by_id (map block_extractors.core blocks) child_id
  = option_map block_extractors.core (block_extractors.block_by_id blocks child_id).
Proof.
  unfold textract_client.block_by_id, block_extractors.block_by_id.
  induction blocks as [|b r IH]; cbn [map find]; [reflexivity|].
  destruct (Py.eqb (Id (block_extractors.core b)) child_id); [reflexivity|exact IH].
Qed.

(** X21.  The two text readers agree where they can: on a block that has no
    Text attribute and no selection element among its children,
    [_get_text_from_block] returns what [_get_text_from_cell] returns, the
    words of the children joined by spaces. *)
Theorem X21_block_text_is_cell_text :
  forall (blocks : list block_extractors.FullBlock) (b : block_extractors.FullBlock),
    Text (block_extractors.core b) = None ->
    no_selection_child blocks b ->
    block_extractors._get_text_from_block b blocks
    = textract_client._get_text_from_cell (block_extractors.core b)
                                          (map block_extractors.core blocks).
Proof.
  intros blocks b Ht Hsel.
  unfold block_extractors._get_text_from_block, textract_client._get_text_from_cell.
  rewrite Ht. cbv zeta. f_equal.
  destruct (Relationships (block_extractors.core b)) as [rels|] eqn:E; [|reflexivity].
  apply fold_left_pointwise. intros acc rel Hrel.
  destruct (Py.eqb (r_Type rel) (text "CHILD")); [|reflexivity].
  apply fold_left_pointwise. intros acc' child_id Hid.
  rewrite block_by_id_core.
  destruct (block_extractors.block_by_id blocks child_id) as [child|] eqn:Ec;
    cbn [option_map]; [|reflexivity].
  unfold block_extractors.is_type at 1.
  destruct (Py.eqb (BlockType (block_extractors.core child)) (text "WORD")); [reflexivity|].
  now rewrite (Hsel rels rel child_id child E Hrel Hid Ec).
Qed.

Lemma X21_two_word_cell_witness :
  block_extractors._get_text_from_block
    (full (cell_block "c3" 2 1 ["w3"; "w4"]%string)) query_blocks
  = text "Consulting fee".
Proof.
  rewrite X21_block_text_is_cell_text.
  - vm_compute. reflexivity.
  - reflexivity.
  - intros rels rel child_id child [= <-] [<-|[]] [<-|[<-|[]]] Hc;
      vm_compute in Hc; injection Hc as <-; reflexivity.
Defined.

(** ** The record of a document *)








